(** * go-zfs: the execution-and-parsing layer (utils.go, zpool.go)

    A shallow embedding of the parsing code of the package: the process
    runner's tokenizer, the property mapper, the zfs-diff line parser and
    its octal escape decoder, together with the parts of strconv, strings
    and regexp that this code calls.

    Conventions of the embedding:
    - a Go string is a sequence of bytes: [string] (its characters are the
      256 values of [ascii]);
    - Go integers are [Z]; where the source computes in uint64 or in a byte
      the wrap-around is written out;
    - a Go slice is a [list] (the nil slice is the empty list), a pointer
      result is an [option], an [error] result is an [option error];
    - a function returning (value, error) returns a pair, so that what is
      returned next to an error stays visible;
    - a run-time panic (index out of range, nil dereference) is the
      constructor [Panic] of [outcome]. *)

From Stdlib Require Import ZArith Ascii String List Lia Bool.
From stdpp Require Import base tactics option list strings gmap fin_maps.

Local Open Scope string_scope.
Local Open Scope Z_scope.

(** ** Bytes *)

Definition byte_val (c : ascii) : Z := Z.of_N (N_of_ascii c).
Definition byte_of (v : Z) : ascii := ascii_of_N (Z.to_N (v mod 256)).

Definition backslash : ascii := "\"%char.
Definition newline : ascii := "010"%char.

(** Go's [len(s)] as an integer. *)
Definition len (s : string) : Z := Z.of_nat (String.length s).

(** ** Errors

    Every error value the embedded code can build.  The constructors
    follow the format strings of the source; a wrapped error (the %w verb)
    is an argument of its wrapper. *)

Inductive NumErr := ErrSyntax | ErrRange.

(** strconv.NumError: the failing function, its input and the cause. *)
Record NumError := mkNumError { Func : string; Num : string; Err : NumErr }.

Inductive error :=
| ENum (e : NumError)
| EOctalTooShort                      (* invalid octal code: too short *)
| EOctalInvalid (e : NumError)        (* invalid octal code: %w *)
| ERegexpNoMatch                      (* regexp does not match *)
| EEmptyLine                          (* empty line passed *)
| EUnknownChangeType (code : string)  (* unknown change type '%s' *)
| EFieldCount4 (got : Z)              (* mismatching number of fields: expect 4 *)
| EFieldCount34 (got : Z)             (* mismatching number of fields: expect 3..4 *)
| EFieldCount3 (got : Z)              (* mismatching number of fields: expect 3 *)
| EUnknownInodeType (code : string)   (* unknown inode type '%s' *)
| EParseFilename (e : error)          (* failed to parse filename: %w *)
| EParseRefCount (e : error)          (* failed to parse reference count: %w *)
| EParseLine (i : Z) (e : error) (line : list string)
                                      (* failed to parse line %d of zfs diff: %w, got: '%s' *)
| EUnexpectedOutput                   (* output does not match what is expected on this platform *)
| EExec (err : string) (debug : string) (stderr : string).
                                      (* &Error{Err, Debug, Stderr} *)

(** The errors that report a mismatch between the captured output and the
    expected shape; [EExec] is the only other kind. *)
Fixpoint is_format_error (e : error) : bool :=
  match e with
  | EExec _ _ _ => false
  | EParseFilename e' | EParseRefCount e' | EParseLine _ e' _ => is_format_error e'
  | _ => true
  end.

(** A Go function that may panic. *)
Inductive outcome (A : Type) :=
| Panic
| Done (a : A).
Arguments Panic {A}.
Arguments Done {A} a.

(** ** strconv *)

Module strconv.

Definition fnParseUint := "ParseUint".
Definition fnParseInt := "ParseInt".
Definition fnAtoi := "Atoi".
Definition fnParseFloat := "ParseFloat".

Definition intSize : Z := 64.
Definition maxUint64 : Z := 2 ^ 64 - 1.

Definition syntaxError (fn str : string) : NumError := mkNumError fn str ErrSyntax.
Definition rangeError (fn str : string) : NumError := mkNumError fn str ErrRange.

(** lower(c) = c | ('x' - 'X') *)
Definition lower (c : Z) : Z := Z.lor c 32.

(** The digit value of one character in the loop of ParseUint; [None] is
    the default branch of its switch (a syntax error). *)
Definition digit_val (c : ascii) : option Z :=
  let v := byte_val c in
  if (48 <=? v) && (v <=? 57) then Some (v - 48)
  else if (97 <=? lower v) && (lower v <=? 122) then Some (lower v - 97 + 10)
  else None.

(** The loop of ParseUint over the characters of [s], with the running
    value [n] (a uint64), for a base in 2..36.  [s0] is the whole input,
    kept for the error value. *)
Fixpoint parseUint_loop (base cutoff maxVal : Z) (s0 s : string) (n : Z)
  : Z * option NumError :=
  match s with
  | EmptyString => (n, None)
  | String c rest =>
    match digit_val c with
    | None => (0, Some (syntaxError fnParseUint s0))
    | Some d =>
      if d >=? base then (0, Some (syntaxError fnParseUint s0))
      else if n >=? cutoff then (maxVal, Some (rangeError fnParseUint s0))
      else
        let n' := (n * base) mod 2 ^ 64 in
        let n1 := (n' + d) mod 2 ^ 64 in
        if (n1 <? n') || (n1 >? maxVal)
        then (maxVal, Some (rangeError fnParseUint s0))
        else parseUint_loop base cutoff maxVal s0 rest n1
    end
  end.

(** strconv.ParseUint(s, base, bitSize) for an explicit base in 2..36 and
    a bit size in 1..64, which is how this package calls it (base 8 with 8
    bits, base 10 with 64 bits); bitSize 0 stands for the size of int. *)
Definition ParseUint (s : string) (base bitSize : Z) : Z * option NumError :=
  if String.eqb s "" then (0, Some (syntaxError fnParseUint s))
  else
    let bitSize := if bitSize =? 0 then intSize else bitSize in
    let cutoff := maxUint64 / base + 1 in
    let maxVal := 2 ^ bitSize - 1 in
    parseUint_loop base cutoff maxVal s s 0.

(** strconv.ParseInt(s, base, bitSize). *)
Definition ParseInt (s : string) (base bitSize : Z) : Z * option NumError :=
  match s with
  | EmptyString => (0, Some (syntaxError fnParseInt s))
  | String c rest =>
    let '(neg, body) :=
      if Ascii.eqb c "+" then (false, rest)
      else if Ascii.eqb c "-" then (true, rest)
      else (false, s) in
    let '(un, err) := ParseUint body base bitSize in
    match err with
    | Some (mkNumError _ _ ErrSyntax) => (0, Some (syntaxError fnParseInt s))
    | _ =>
      let bitSize := if bitSize =? 0 then intSize else bitSize in
      let cutoff := 2 ^ (bitSize - 1) in
      if negb neg && (un >=? cutoff) then (cutoff - 1, Some (rangeError fnParseInt s))
      else if neg && (un >? cutoff) then (- cutoff, Some (rangeError fnParseInt s))
      else (if neg then - un else un, None)
    end
  end.

(** The fast path of Atoi: decimal digits only, no overflow possible. *)
Fixpoint atoi_fast (s0 s : string) (n : Z) : Z * option NumError :=
  match s with
  | EmptyString => (n, None)
  | String ch rest =>
    let ch' := (byte_val ch - 48) mod 256 in
    if ch' >? 9 then (0, Some (syntaxError fnAtoi s0))
    else atoi_fast s0 rest (n * 10 + ch')
  end.

(** strconv.Atoi(s), with a 64-bit int. *)
Definition Atoi (s : string) : Z * option NumError :=
  let sLen := len s in
  if (0 <? sLen) && (sLen <? 19) then
    match s with
    | EmptyString => (0, Some (syntaxError fnAtoi s))
    | String c rest =>
      let signed := Ascii.eqb c "-" || Ascii.eqb c "+" in
      let body := if signed then rest else s in
      if signed && (len body <? 1) then (0, Some (syntaxError fnAtoi s))
      else
        match atoi_fast s body 0 with
        | (n, None) => (if Ascii.eqb c "-" then - n else n, None)
        | r => r
        end
    end
  else
    match ParseInt s 10 0 with
    | (i64, Some e) => (i64, Some (mkNumError fnAtoi (Num e) (Err e)))
    | r => r
    end.

End strconv.

(** ** The octal escape decoder *)

(** The loop of unescapeFilepath.  [rest] is the unread part path[i:] and
    [buf] the bytes appended so far; [llen < i+4] says that fewer than
    four bytes are left from the backslash on. *)
Fixpoint unescape_loop (rest : string) (buf : string) : string * option error :=
  match rest with
  | EmptyString => (buf, None)
  | String c rest' =>
    if Ascii.eqb c backslash then
      match rest' with
      | String d1 (String d2 (String d3 rest'')) =>
        let octalCode := String d1 (String d2 (String d3 EmptyString)) in
        match strconv.ParseUint octalCode 8 8 with
        | (_, Some err) => ("", Some (EOctalInvalid err))
        | (val, None) => unescape_loop rest'' (buf ++ String (byte_of val) EmptyString)
        end
      | _ => ("", Some EOctalTooShort)
      end
    else unescape_loop rest' (buf ++ String c EmptyString)
  end.

Definition unescapeFilepath (path : string) : string * option error :=
  unescape_loop path "".

(** ** Panics and indexing *)

Global Instance outcome_ret : MRet outcome := @Done.
Global Instance outcome_bind : MBind outcome :=
  fun A B (f : A -> outcome B) (m : outcome A) =>
    match m with
    | Panic => Panic
    | Done a => f a
    end.

(** [s[i]] on a slice: out of range panics. *)
Definition index {A : Type} (l : list A) (i : nat) : outcome A :=
  match l !! i with
  | Some x => Done x
  | None => Panic
  end.

(** [s[i] = x] on a slice: out of range panics. *)
Definition store {A : Type} (l : list A) (i : nat) (x : A) : outcome (list A) :=
  if bool_decide (i < length l)%nat then Done (<[i := x]> l) else Panic.

(** ** regexp: the reference count pattern

    referenceCountRegex is the pattern
      \( ( [+-] \d+? ) \)
    and the three functions below are its three parts read from the right:
    the lazy digits up to the closing parenthesis, the group anchored at
    one position, and the search for the leftmost position that matches.
    A digit is never a closing parenthesis, so at a given position at most
    one number of digits matches, lazy or not.  All the characters of the
    pattern are 7-bit, so no byte of a longer UTF-8 sequence matches. *)

Definition is_digit (c : ascii) : bool :=
  (48 <=? byte_val c) && (byte_val c <=? 57).

Definition is_sign (c : ascii) : bool :=
  Ascii.eqb c "+" || Ascii.eqb c "-".

(** \d+?\) at the start of [s]: the digits matched. *)
Fixpoint match_digits_close (s : string) : option string :=
  match s with
  | String c rest =>
    if is_digit c then
      match rest with
      | String ")" _ => Some (String c EmptyString)
      | _ => String c <$> match_digits_close rest
      end
    else None
  | EmptyString => None
  end.

(** The whole pattern at the start of [s]: the text of group 1. *)
Definition match_here (s : string) : option string :=
  match s with
  | String "(" (String sg rest) =>
    if is_sign sg then String sg <$> match_digits_close rest else None
  | _ => None
  end.

(** referenceCountRegex.FindStringSubmatch(field): the leftmost match, as
    the slice of the whole match and of group 1; nil is [None]. *)
Fixpoint FindStringSubmatch (field : string) : option (list string) :=
  match match_here field with
  | Some g => Some [String "(" g ++ ")"; g]
  | None =>
    match field with
    | EmptyString => None
    | String _ rest => FindStringSubmatch rest
    end
  end.

Definition parseReferenceCount (field : string) : outcome (Z * option error) :=
  match FindStringSubmatch field with
  | None => Done (0, Some ERegexpNoMatch)
  | Some matches =>
    m1 ← index matches 1;
    let '(n, err) := strconv.Atoi m1 in
    Done (n, ENum <$> err)
  end.

(** ** The diff line parser *)

Inductive ChangeType :=
| ChangeUnknown   (* 0 == unknown type *)
| Removed | Created | Modified | Renamed.

Inductive InodeType :=
| InodeUnknown    (* 0 == unknown type *)
| BlockDevice | CharacterDevice | Directory | Door | NamedPipe
| SymbolicLink | EventPort | Socket | File.

Global Instance ChangeType_eq_dec : EqDecision ChangeType.
Proof. solve_decision. Defined.
Global Instance InodeType_eq_dec : EqDecision InodeType.
Proof. solve_decision. Defined.

Record InodeChange := mkInodeChange {
  Change : ChangeType;
  Type_ : InodeType;
  Path : string;
  NewPath : string;
  ReferenceCountChange : Z
}.

Definition changeTypeMap : gmap string ChangeType :=
  list_to_map [("-", Removed); ("+", Created); ("M", Modified); ("R", Renamed)].

Definition inodeTypeMap : gmap string InodeType :=
  list_to_map [("B", BlockDevice); ("C", CharacterDevice); ("/", Directory);
               (">", Door); ("|", NamedPipe); ("@", SymbolicLink);
               ("P", EventPort); ("=", Socket); ("F", File)].

(** The first switch of parseInodeChange: the number of fields the change
    type asks for. *)
Definition check_field_count (changeType : ChangeType) (llen : Z) : option error :=
  match changeType with
  | Renamed => if negb (llen =? 4) then Some (EFieldCount4 llen) else None
  | Modified =>
    if negb (llen =? 4) && negb (llen =? 3) then Some (EFieldCount34 llen) else None
  | _ => if negb (llen =? 3) then Some (EFieldCount3 llen) else None
  end.

Definition parseInodeChange (line : list string)
  : outcome (option InodeChange * option error) :=
  let llen := Z.of_nat (length line) in
  if llen <? 1 then Done (None, Some EEmptyLine)
  else
    line0 ← index line 0;
    let changeType := default ChangeUnknown (changeTypeMap !! line0) in
    if decide (changeType = ChangeUnknown)
    then Done (None, Some (EUnknownChangeType line0))
    else
      match check_field_count changeType llen with
      | Some e => Done (None, Some e)
      | None =>
        line1 ← index line 1;
        let inodeType := default InodeUnknown (inodeTypeMap !! line1) in
        if decide (inodeType = InodeUnknown)
        then Done (None, Some (EUnknownInodeType line1))
        else
          line2 ← index line 2;
          match unescapeFilepath line2 with
          | (_, Some err) => Done (None, Some (EParseFilename err))
          | (path, None) =>
            match changeType with
            | Renamed =>
              line3 ← index line 3;
              match unescapeFilepath line3 with
              | (_, Some err) => Done (None, Some (EParseFilename err))
              | (newPath, None) =>
                Done (Some (mkInodeChange changeType inodeType path newPath 0), None)
              end
            | Modified =>
              if llen =? 4 then
                line3 ← index line 3;
                r ← parseReferenceCount line3;
                match r with
                | (_, Some err) => Done (None, Some (EParseRefCount err))
                | (referenceCount, None) =>
                  Done (Some (mkInodeChange changeType inodeType path "" referenceCount),
                        None)
                end
              else Done (Some (mkInodeChange changeType inodeType path "" 0), None)
            | _ => Done (Some (mkInodeChange changeType inodeType path "" 0), None)
            end
          end
      end.

(** The loop of parseInodeChanges: [lines] are the lines from index [i]
    on, [changes] the slice made for the result. *)
Fixpoint parseInodeChanges_loop (lines : list (list string)) (i : nat)
    (changes : list (option InodeChange))
  : outcome (list (option InodeChange) * option error) :=
  match lines with
  | [] => Done (changes, None)
  | line :: rest =>
    r ← parseInodeChange line;
    match r with
    | (_, Some err) => Done ([], Some (EParseLine (Z.of_nat i) err line))
    | (c, None) =>
      changes' ← store changes i c;
      parseInodeChanges_loop rest (S i) changes'
    end
  end.

Definition parseInodeChanges (lines : list (list string))
  : outcome (list (option InodeChange) * option error) :=
  parseInodeChanges_loop lines 0 (replicate (length lines) None).

(** ** strings *)

Module strings.

(** strings.Split(s, sep) for a separator of one byte. *)
Fixpoint Split (s : string) (sep : ascii) : list string :=
  match s with
  | EmptyString => [EmptyString]
  | String c rest =>
    if Ascii.eqb c sep then EmptyString :: Split rest sep
    else
      match Split rest sep with
      | seg :: segs => String c seg :: segs
      | [] => [String c EmptyString]
      end
  end.

(** strings.Join(elems, sep). *)
Fixpoint Join (elems : list string) (sep : string) : string :=
  match elems with
  | [] => ""
  | [e] => e
  | e :: rest => e ++ sep ++ Join rest sep
  end.

(** asciiSpace: the white space bytes below 0x80. *)
Definition asciiSpace (v : Z) : bool :=
  (v =? 9) || (v =? 10) || (v =? 11) || (v =? 12) || (v =? 13) || (v =? 32).

(** The width in bytes of the white space rune (unicode.IsSpace) that
    starts [s], or 0 when none does.  Besides the six ASCII bytes these
    are the UTF-8 encodings of U+0085, U+00A0, U+1680, U+2000..U+200A,
    U+2028, U+2029, U+202F, U+205F and U+3000.  Each of them starts with
    a byte that is no continuation byte, so the decoder of a range loop
    is at its first byte whenever the sequence occurs in the string:
    looking for them at every byte position finds the same runes. *)
Definition space_width (s : string) : nat :=
  match s with
  | EmptyString => 0%nat
  | String c0 rest =>
    let v0 := byte_val c0 in
    if asciiSpace v0 then 1%nat
    else
      match rest with
      | String c1 rest1 =>
        let v1 := byte_val c1 in
        if (v0 =? 194) && ((v1 =? 133) || (v1 =? 160)) then 2%nat
        else
          match rest1 with
          | String c2 _ =>
            let v2 := byte_val c2 in
            if (v0 =? 225) && (v1 =? 154) && (v2 =? 128) then 3%nat
            else if (v0 =? 226) && (v1 =? 128)
                    && (((128 <=? v2) && (v2 <=? 138))
                        || (v2 =? 168) || (v2 =? 169) || (v2 =? 175)) then 3%nat
            else if (v0 =? 226) && (v1 =? 129) && (v2 =? 159) then 3%nat
            else if (v0 =? 227) && (v1 =? 128) && (v2 =? 128) then 3%nat
            else 0%nat
          | EmptyString => 0%nat
          end
      | EmptyString => 0%nat
      end
  end.

(** Closing a field: an empty span is no field. *)
Definition flush (cur : string) (fields : list string) : list string :=
  if String.eqb cur "" then fields else cur :: fields.

(** The scan of strings.Fields: [skip] bytes of a white space rune are
    still to be passed, [cur] is the field being read. *)
Fixpoint fields_loop (s : string) (skip : nat) (cur : string) : list string :=
  match s with
  | EmptyString => flush cur []
  | String c rest =>
    match skip with
    | S k => fields_loop rest k cur
    | O =>
      match space_width s with
      | O => fields_loop rest 0 (cur ++ String c EmptyString)
      | S k => flush cur (fields_loop rest k "")
      end
    end
  end.

(** strings.Fields(s): the maximal runs of bytes between white space. *)
Definition Fields (s : string) : list string := fields_loop s 0 "".

(** strings.Index(s, substr): the first position of [substr], or -1. *)
Fixpoint Index_from (s substr : string) (i : Z) : Z :=
  if String.prefix substr s then i
  else
    match s with
    | EmptyString => -1
    | String _ rest => Index_from rest substr (i + 1)
    end.

Definition Index (s substr : string) : Z := Index_from s substr 0.

End strings.

(** [s[:i]] on a string: panics unless 0 <= i <= len(s). *)
Definition slice_to (s : string) (i : Z) : outcome string :=
  if (0 <=? i) && (i <=? len s) then Done (String.substring 0 (Z.to_nat i) s)
  else Panic.

(** ** The process runner *)

(** What one run of the external command does: the error of
    Executor.Run, if any, and the bytes written to stdout and stderr. *)
Record ExecResult := mkExecResult {
  exec_err : option string;
  exec_stdout : string;
  exec_stderr : string
}.

(** The Executor interface: stdin (if any), command, arguments. *)
Definition Executor := option string -> string -> list string -> ExecResult.

(** The zfs client.  Its logger only observes the command line and is
    left out. *)
Record zfs := mkzfs {
  exec : Executor;
  sudo : bool
}.

(** zfs.run.  [out] is the caller's sink: when it is given the command
    writes there and nothing is parsed.  [lines[0 : len(lines)-1]] is
    [removelast]: Split never returns an empty slice. *)
Definition run (z : zfs) (in_ : option string) (out : option string)
    (cmd : string) (args : list string) : list (list string) * option error :=
  let '(cmd, args) := if sudo z then ("sudo", cmd :: args) else (cmd, args) in
  let joinedArgs := strings.Join args " " in
  let r := exec z in_ cmd args in
  match exec_err r with
  | Some err =>
    ([], Some (EExec err (strings.Join [cmd; joinedArgs] " ") (exec_stderr r)))
  | None =>
    match out with
    | Some _ => ([], None)
    | None =>
      let lines := strings.Split (exec_stdout r) newline in
      let lines := removelast lines in
      (map strings.Fields lines, None)
    end
  end.

(** doOutput and zpoolOutput: run with no stdin and no sink. *)
Definition doOutput (z : zfs) (arg : list string) : list (list string) * option error :=
  run z None None "zfs" arg.

Definition zpoolOutput (z : zfs) (arg : list string) : list (list string) * option error :=
  run z None None "zpool" arg.

(** ** Field coercions *)

(** setString(&field, value): the new value of the field. *)
Definition setString (value : string) : string :=
  if negb (String.eqb value "-") then value else "".

(** setUint(&field, value): the value of the field afterwards and the
    error; on an error the field keeps its value. *)
Definition setUint (field : Z) (value : string) : Z * option error :=
  if negb (String.eqb value "-") then
    match strconv.ParseUint value 10 64 with
    | (_, Some err) => (field, Some (ENum err))
    | (v, None) => (v, None)
    end
  else (0, None).

(** ** Datasets: the property mapper and the listing *)

Module Dataset.

Record t := mk {
  Name : string;
  Origin : string;
  Used : Z;
  Avail : Z;
  Mountpoint : string;
  Compression : string;
  Type_ : string;
  Written : Z;
  Volsize : Z;
  Logicalused : Z;
  Usedbydataset : Z;
  Quota : Z;
  Referenced : Z;
  props : gmap string string
}.

Definition set_Name (x : string) (d : t) : t :=
  let '(mk _ o u a m c ty w v l ub q r p) := d in mk x o u a m c ty w v l ub q r p.
Definition set_Origin (x : string) (d : t) : t :=
  let '(mk n _ u a m c ty w v l ub q r p) := d in mk n x u a m c ty w v l ub q r p.
Definition set_Used (x : Z) (d : t) : t :=
  let '(mk n o _ a m c ty w v l ub q r p) := d in mk n o x a m c ty w v l ub q r p.
Definition set_Avail (x : Z) (d : t) : t :=
  let '(mk n o u _ m c ty w v l ub q r p) := d in mk n o u x m c ty w v l ub q r p.
Definition set_Mountpoint (x : string) (d : t) : t :=
  let '(mk n o u a _ c ty w v l ub q r p) := d in mk n o u a x c ty w v l ub q r p.
Definition set_Compression (x : string) (d : t) : t :=
  let '(mk n o u a m _ ty w v l ub q r p) := d in mk n o u a m x ty w v l ub q r p.
Definition set_Type (x : string) (d : t) : t :=
  let '(mk n o u a m c _ w v l ub q r p) := d in mk n o u a m c x w v l ub q r p.
Definition set_Written (x : Z) (d : t) : t :=
  let '(mk n o u a m c ty _ v l ub q r p) := d in mk n o u a m c ty x v l ub q r p.
Definition set_Volsize (x : Z) (d : t) : t :=
  let '(mk n o u a m c ty w _ l ub q r p) := d in mk n o u a m c ty w x l ub q r p.
Definition set_Logicalused (x : Z) (d : t) : t :=
  let '(mk n o u a m c ty w v _ ub q r p) := d in mk n o u a m c ty w v x ub q r p.
Definition set_Usedbydataset (x : Z) (d : t) : t :=
  let '(mk n o u a m c ty w v l _ q r p) := d in mk n o u a m c ty w v l x q r p.
Definition set_Quota (x : Z) (d : t) : t :=
  let '(mk n o u a m c ty w v l ub _ r p) := d in mk n o u a m c ty w v l ub x r p.
Definition set_Referenced (x : Z) (d : t) : t :=
  let '(mk n o u a m c ty w v l ub q _ p) := d in mk n o u a m c ty w v l ub q x p.
Definition set_props (x : gmap string string) (d : t) : t :=
  let '(mk n o u a m c ty w v l ub q r _) := d in mk n o u a m c ty w v l ub q r x.

(** &Dataset{z: z, Name: name, props: make(map[string]string)} *)
Definition new (name : string) : t :=
  mk name "" 0 0 "" "" "" 0 0 0 0 0 0 ∅.

(** [d.props[k]]: a missing key reads as the empty string. *)
Definition prop (d : t) (k : string) : string := default "" (props d !! k).

(** A statement of parseProps: it updates the record and may fail. *)
Definition action := t -> t * option error.

Definition andThen (a b : action) : action :=
  fun d =>
    match a d with
    | (d', Some err) => (d', Some err)
    | (d', None) => b d'
    end.

Definition succeed : action := fun d => (d, None).

(** setString(&d.F, d.props[k]) *)
Definition assignString (set : string -> t -> t) (k : string) : action :=
  fun d => (set (setString (prop d k)) d, None).

(** if err = setUint(&d.F, d.props[k]); err != nil { return err } *)
Definition assignUint (get : t -> Z) (set : Z -> t -> t) (k : string) : action :=
  fun d =>
    match setUint (get d) (prop d k) with
    | (_, Some err) => (d, Some err)
    | (v, None) => (set v d, None)
    end.

Section Platform.

(** strings.ToLower, the property list of the platform file (its length
    is all that is used) and runtime.GOOS. *)
Variable ToLower : string -> string.
Variable dsPropList : list string.
Variable GOOS : string.

(** The first loop of parseProps over out[0], from index [i] on: the
    value is out[1][i] when [i < len(out[1])] and the sentinel otherwise. *)
Fixpoint fill_props (header values : list string) (i : nat)
    (m : gmap string string) : gmap string string :=
  match header with
  | [] => m
  | v :: header' =>
    let val := default "-" (values !! i) in
    fill_props header' values (S i) (<[ToLower v := val]> m)
  end.

(** The coercions of parseProps after the two shape checks. *)
Definition coerce : action :=
  andThen (assignString set_Name "name")
 (andThen (assignString set_Origin "origin")
 (andThen (assignUint Used set_Used "used")
 (andThen (assignUint Avail set_Avail "avail")
 (andThen (assignString set_Mountpoint "mountpoint")
 (andThen (assignString set_Compression "compress")
 (andThen (assignString set_Type "type")
 (andThen (assignUint Volsize set_Volsize "volsize")
 (andThen (assignUint Quota set_Quota "quota")
 (andThen (assignUint Referenced set_Referenced "refer")
   (if String.eqb GOOS "solaris" then succeed
    else
      andThen (assignUint Written set_Written "written")
     (andThen (assignUint Logicalused set_Logicalused "lused")
              (assignUint Usedbydataset set_Usedbydataset "usedds")))))))))))).

(** Dataset.parseProps: the record after the call and the error. *)
Definition parseProps (d : t) (out : list (list string)) : t * option error :=
  match out with
  | [header; values] =>
    let d := set_props (fill_props header values 0 (props d)) d in
    if bool_decide (size (props d) <= length dsPropList)%nat
    then (d, Some EUnexpectedOutput)
    else coerce d
  | _ => (d, Some EUnexpectedOutput)
  end.

(** The loop of listByType over out[1:].  [datasets] is the slice built
    so far and the pointer [ds] is its last element (nil before the
    first append), which parseProps updates in place. *)
Fixpoint list_loop (header : list string) (rows : list (list string))
    (name : string) (datasets : list t) : outcome (list t * option error) :=
  match rows with
  | [] => Done (datasets, None)
  | line :: rest =>
    line0 ← index line 0;
    let '(name, datasets) :=
      if negb (String.eqb name line0)
      then (line0, (datasets ++ [new line0])%list)
      else (name, datasets) in
    match last datasets with
    | None => Panic
    | Some ds =>
      match parseProps ds [header; line] with
      | (_, Some err) => Done ([], Some err)
      | (ds', None) => list_loop header rest name (removelast datasets ++ [ds'])%list
      end
    end
  end.

Definition listByType (z : zfs) (ty filter : string)
  : outcome (list t * option error) :=
  let args := ["list"; "-rp"; "-t"; ty; "-o"; "all"] in
  let args := if negb (String.eqb filter "") then (args ++ [filter])%list else args in
  match doOutput z args with
  | (_, Some err) => Done ([], Some err)
  | (out, None) =>
    match out with
    | [] => Done ([], None)
    | header :: rows => list_loop header rows "" []
    end
  end.

End Platform.

End Dataset.

(** ** Zpools: one line of zpool get *)

Module Zpool.

Section Float.

(** float64 and its zero value; [atof] is strconv.ParseFloat(s, 64) on a
    non-empty input.  On the empty string ParseFloat reads no digit and
    returns 0 with a syntax error. *)
Variable float64 : Type.
Variable float64_zero : float64.
Variable atof : string -> float64 * option NumError.

Definition ParseFloat (s : string) : float64 * option NumError :=
  if String.eqb s "" then (float64_zero, Some (strconv.syntaxError strconv.fnParseFloat s))
  else atof s.

Record t := mk {
  Name : string;
  Health : string;
  Allocated : Z;
  Size : Z;
  Free : Z;
  Fragmentation : Z;
  ReadOnly : bool;
  Freeing : Z;
  Leaked : Z;
  DedupRatio : float64
}.

Definition set_Name (x : string) (z : t) : t :=
  let '(mk _ h a s f fr ro fg l d) := z in mk x h a s f fr ro fg l d.
Definition set_Health (x : string) (z : t) : t :=
  let '(mk n _ a s f fr ro fg l d) := z in mk n x a s f fr ro fg l d.
Definition set_Allocated (x : Z) (z : t) : t :=
  let '(mk n h _ s f fr ro fg l d) := z in mk n h x s f fr ro fg l d.
Definition set_Size (x : Z) (z : t) : t :=
  let '(mk n h a _ f fr ro fg l d) := z in mk n h a x f fr ro fg l d.
Definition set_Free (x : Z) (z : t) : t :=
  let '(mk n h a s _ fr ro fg l d) := z in mk n h a s x fr ro fg l d.
Definition set_Fragmentation (x : Z) (z : t) : t :=
  let '(mk n h a s f _ ro fg l d) := z in mk n h a s f x ro fg l d.
Definition set_ReadOnly (x : bool) (z : t) : t :=
  let '(mk n h a s f fr _ fg l d) := z in mk n h a s f fr x fg l d.
Definition set_Freeing (x : Z) (z : t) : t :=
  let '(mk n h a s f fr ro _ l d) := z in mk n h a s f fr ro x l d.
Definition set_Leaked (x : Z) (z : t) : t :=
  let '(mk n h a s f fr ro fg _ d) := z in mk n h a s f fr ro fg x d.
Definition set_DedupRatio (x : float64) (z : t) : t :=
  let '(mk n h a s f fr ro fg l _) := z in mk n h a s f fr ro fg l x.

(** &Zpool{z: z, Name: name} *)
Definition new (name : string) : t :=
  mk name "" 0 0 0 0 false 0 0 float64_zero.

(** err = setUint(&z.F, val) *)
Definition assignUint (get : t -> Z) (set : Z -> t -> t) (val : string) (z : t)
  : t * option error :=
  let '(v, err) := setUint (get z) val in (set v z, err).

(** Zpool.parseLine: the pool after the call and the error. *)
Definition parseLine (z : t) (line : list string) : outcome (t * option error) :=
  prop ← index line 1;
  val ← index line 2;
  if String.eqb prop "name" then Done (set_Name (setString val) z, None)
  else if String.eqb prop "health" then Done (set_Health (setString val) z, None)
  else if String.eqb prop "allocated" then Done (assignUint Allocated set_Allocated val z)
  else if String.eqb prop "size" then Done (assignUint Size set_Size val z)
  else if String.eqb prop "free" then Done (assignUint Free set_Free val z)
  else if String.eqb prop "fragmentation" then
    let i := strings.Index val "%" in
    let i := if i <? 0 then len val else i in
    v ← slice_to val i;
    Done (assignUint Fragmentation set_Fragmentation v z)
  else if String.eqb prop "readonly" then
    Done (set_ReadOnly (String.eqb val "on") z, None)
  else if String.eqb prop "freeing" then Done (assignUint Freeing set_Freeing val z)
  else if String.eqb prop "leaked" then Done (assignUint Leaked set_Leaked val z)
  else if String.eqb prop "dedupratio" then
    v ← slice_to val (len val - 1);
    let '(f, err) := ParseFloat v in
    Done (set_DedupRatio f z, ENum <$> err)
  else Done (z, None).

End Float.

End Zpool.

(** ** Commands on datasets (zfs.go) *)

(** An error of a dataset operation: the error of the command it runs,
    or a message made with errors.New. *)
Inductive op_error :=
| OfRun (e : error)
| ErrorsNew (msg : string).

(** zfs.do: doOutput without its rows. *)
Definition do (z : zfs) (arg : list string) : option error := (doOutput z arg).2.

Module DatasetOps.

(** The destroy flags, 1 << iota. *)
Definition DestroyDefault : Z := Z.shiftl 1 0.
Definition DestroyRecursive : Z := Z.shiftl 1 1.
Definition DestroyRecursiveClones : Z := Z.shiftl 1 2.
Definition DestroyDeferDeletion : Z := Z.shiftl 1 3.
Definition DestroyForceUmount : Z := Z.shiftl 1 4.

(** The argument vector that Dataset.Destroy builds. *)
Definition destroy_args (d : Dataset.t) (flags : Z) : list string :=
  let args := ["destroy"] in
  let args :=
    if negb (Z.land flags DestroyRecursive =? 0) then (args ++ ["-r"])%list else args in
  let args :=
    if negb (Z.land flags DestroyRecursiveClones =? 0) then (args ++ ["-R"])%list else args in
  let args :=
    if negb (Z.land flags DestroyDeferDeletion =? 0) then (args ++ ["-d"])%list else args in
  let args :=
    if negb (Z.land flags DestroyForceUmount =? 0) then (args ++ ["-f"])%list else args in
  (args ++ [Dataset.Name d])%list.

Definition Destroy (z : zfs) (d : Dataset.t) (flags : Z) : option error :=
  do z (destroy_args d flags).

Definition SetProperty (z : zfs) (d : Dataset.t) (key val : string) : option error :=
  let prop := strings.Join [key; val] "=" in
  do z ["set"; prop; Dataset.Name d].

(** The loop of SetProperties: [kv] is keyValPairs[i:], taken two at a
    time; the length is even when the loop is reached. *)
Fixpoint set_args_loop (kv : list string) (args : list string) : list string :=
  match kv with
  | k :: v :: rest => set_args_loop rest (args ++ [strings.Join [k; v] "="])%list
  | _ => args
  end.

Definition SetProperties (z : zfs) (d : Dataset.t) (keyValPairs : list string)
  : option op_error :=
  if Z.of_nat (length keyValPairs) =? 0 then None
  else if negb (Z.of_nat (length keyValPairs) mod 2 =? 0)
  then Some (ErrorsNew "keyValPairs must be an even number of strings")
  else
    let args := set_args_loop keyValPairs ["set"] in
    let args := (args ++ [Dataset.Name d])%list in
    OfRun <$> do z args.

(** GetProperty: out[0][2]. *)
Definition GetProperty (z : zfs) (d : Dataset.t) (key : string)
  : outcome (string * option error) :=
  match doOutput z ["get"; "-H"; "-p"; key; Dataset.Name d] with
  | (_, Some err) => Done ("", Some err)
  | (out, None) =>
    row ← index out 0;
    v ← index row 2;
    Done (v, None)
  end.

(** The loop of GetProperties over the rows. *)
Fixpoint get_props_loop (out : list (list string)) (props : list string)
  : outcome (list string) :=
  match out with
  | [] => Done props
  | v :: rest =>
    v2 ← index v 2;
    get_props_loop rest (props ++ [v2])%list
  end.

Definition GetProperties (z : zfs) (d : Dataset.t) (keys : list string)
  : outcome (list string * option error) :=
  if Z.of_nat (length keys) =? 0 then Done ([], None)
  else
    match doOutput z ["get"; "-H"; "-p"; strings.Join keys ","; Dataset.Name d] with
    | (_, Some err) => Done ([], Some err)
    | (out, None) =>
      props ← get_props_loop out [];
      Done (props, None)
    end.

(** The loop of GetAllProperties: props[v[1]] = v[2]. *)
Fixpoint all_props_loop (out : list (list string)) (props : gmap string string)
  : outcome (gmap string string) :=
  match out with
  | [] => Done props
  | v :: rest =>
    v1 ← index v 1;
    v2 ← index v 2;
    all_props_loop rest (<[v1 := v2]> props)
  end.

(** GetAllProperties; the nil map of the error case is the empty map. *)
Definition GetAllProperties (z : zfs) (d : Dataset.t)
  : outcome (gmap string string * option error) :=
  match doOutput z ["get"; "-H"; "-p"; "all"; Dataset.Name d] with
  | (_, Some err) => Done (∅, Some err)
  | (out, None) =>
    props ← all_props_loop out ∅;
    Done (props, None)
  end.

(** Dataset.Diff: the rows of zfs diff given to the batch parser. *)
Definition Diff (z : zfs) (d : Dataset.t) (snapshot : string)
  : outcome (list (option InodeChange) * option error) :=
  let args := ["diff"; "-FH"; snapshot; Dataset.Name d] in
  match doOutput z args with
  | (_, Some err) => Done ([], Some err)
  | (out, None) =>
    r ← parseInodeChanges out;
    match r with
    | (_, Some err) => Done ([], Some err)
    | (inodeChanges, None) => Done (inodeChanges, None)
    end
  end.

End DatasetOps.

(** ** Commands on zpools (zpool.go) *)

Module ZpoolOps.

Section Platform.

Variable float64 : Type.
Variable float64_zero : float64.
Variable atof : string -> float64 * option NumError.

(** zpoolArgs of the platform file. *)
Variable zpoolArgs : list string.

(** The loop of GetZpool over the rows. *)
Fixpoint get_loop (out : list (list string)) (pool : Zpool.t float64)
  : outcome (option (Zpool.t float64) * option error) :=
  match out with
  | [] => Done (Some pool, None)
  | line :: rest =>
    r ← Zpool.parseLine float64 float64_zero atof pool line;
    match r with
    | (_, Some err) => Done (None, Some err)
    | (pool', None) => get_loop rest pool'
    end
  end.

Definition GetZpool (z : zfs) (name : string)
  : outcome (option (Zpool.t float64) * option error) :=
  let args := zpoolArgs in
  let args := (args ++ [name])%list in
  match zpoolOutput z args with
  | (_, Some err) => Done (None, Some err)
  | (out, None) => get_loop out (Zpool.new float64 float64_zero name)
  end.

(** The loop of ListZpools over the rows: GetZpool(line[0]); the slice
    holds the pointers that GetZpool returned. *)
Fixpoint list_loop (z : zfs) (out : list (list string))
    (pools : list (option (Zpool.t float64)))
  : outcome (list (option (Zpool.t float64)) * option error) :=
  match out with
  | [] => Done (pools, None)
  | line :: rest =>
    line0 ← index line 0;
    r ← GetZpool z line0;
    match r with
    | (_, Some err) => Done ([], Some err)
    | (pool, None) => list_loop z rest (pools ++ [pool])%list
    end
  end.

Definition ListZpools (z : zfs)
  : outcome (list (option (Zpool.t float64)) * option error) :=
  match zpoolOutput z ["list"; "-Ho"; "name"] with
  | (_, Some err) => Done ([], Some err)
  | (out, None) => list_loop z out []
  end.

End Platform.

End ZpoolOps.

(** * Specification-side definitions *)

(** ** The octal escape format *)

(** An octal digit, 0 to 7. *)
Definition is_octal (c : ascii) : bool :=
  (48 <=? byte_val c) && (byte_val c <=? 55).

(** The base-8 value of three octal digits. *)
Definition octal_value (d1 d2 d3 : ascii) : Z :=
  64 * (byte_val d1 - 48) + 8 * (byte_val d2 - 48) + (byte_val d3 - 48).

(** A decoded byte in front of the decoding of the rest; an error of the
    rest is the error of the whole. *)
Definition then_byte (b : ascii) (r : string * option error) : string * option error :=
  match r with
  | (s, None) => (String b s, None)
  | (_, Some e) => ("", Some e)
  end.

(** The bytes [buf] in front of a decoding. *)
Definition with_prefix (buf : string) (r : string * option error) : string * option error :=
  match r with
  | (s, None) => (buf ++ s, None)
  | (_, Some e) => ("", Some e)
  end.

(** Printable 7-bit ASCII: from the space up to, and without, the delete
    character. *)
Definition printable (c : ascii) : bool :=
  (32 <=? byte_val c) && (byte_val c <? 127).

Definition octal_digit (v : Z) : ascii := byte_of (48 + v).

(** The three-digit octal rendering of a byte value. *)
Definition octal3 (v : Z) : string :=
  String (octal_digit (v / 64))
    (String (octal_digit ((v / 8) mod 8))
       (String (octal_digit (v mod 8)) EmptyString)).

(** The encoding rule as the specification states it (the package has
    the decoder only): a byte outside printable 7-bit ASCII becomes a
    backslash and three octal digits, a printable byte is kept. *)
Fixpoint spec_encode (s : string) : string :=
  match s with
  | EmptyString => EmptyString
  | String c rest =>
    if printable c then String c (spec_encode rest)
    else String backslash (octal3 (byte_val c) ++ spec_encode rest)
  end.

(** No byte of [s] is a backslash. *)
Fixpoint no_backslash (s : string) : bool :=
  match s with
  | EmptyString => true
  | String c rest => negb (Ascii.eqb c backslash) && no_backslash rest
  end.

(** ** The reference count suffix *)

Fixpoint all_digits (s : string) : bool :=
  match s with
  | EmptyString => true
  | String c rest => is_digit c && all_digits rest
  end.

(** The decimal value of the digits [s] after the value [n]. *)
Fixpoint dec_value_from (s : string) (n : Z) : Z :=
  match s with
  | EmptyString => n
  | String c rest => dec_value_from rest (n * 10 + (byte_val c - 48))
  end.

Definition dec_value (s : string) : Z := dec_value_from s 0.

(** The text of a group: an opening parenthesis, a sign, digits and a
    closing parenthesis. *)
Definition ref_group (sg : ascii) (ds : string) : string :=
  String "(" (String sg (ds ++ ")")).

Definition signed (sg : ascii) (n : Z) : Z :=
  if Ascii.eqb sg "-" then - n else n.

(** The range of a 64-bit int. *)
Definition fits_int (v : Z) : bool := (- 2 ^ 63 <=? v) && (v <? 2 ^ 63).

(** [f] contains a group somewhere. *)
Definition has_ref_group (f : string) : Prop :=
  exists pre sg ds post,
    is_sign sg = true /\ all_digits ds = true /\ ds <> ""
    /\ f = pre ++ ref_group sg ds ++ post.

(** The group (sg ds) that follows [pre] is the leftmost group of the
    field [pre ++ ref_group sg ds ++ post]: no group of the field starts
    in front of it. *)
Definition leftmost_group (pre : string) (sg : ascii) (ds post : string) : Prop :=
  forall pre' sg' ds' post',
    is_sign sg' = true -> all_digits ds' = true -> ds' <> "" ->
    pre ++ ref_group sg ds ++ post = pre' ++ ref_group sg' ds' ++ post' ->
    (String.length pre <= String.length pre')%nat.

(** ** The diff line format *)

(** The four change codes and the nine inode codes. *)
Definition change_codes : list (string * ChangeType) :=
  [("-", Removed); ("+", Created); ("M", Modified); ("R", Renamed)].

Definition inode_codes : list (string * InodeType) :=
  [("B", BlockDevice); ("C", CharacterDevice); ("/", Directory);
   (">", Door); ("|", NamedPipe); ("@", SymbolicLink);
   ("P", EventPort); ("=", Socket); ("F", File)].

(** A line that parses. *)
Definition parses (line : list string) (c : InodeChange) : Prop :=
  parseInodeChange line = Done (Some c, None).

(** ** The table text format *)

Fixpoint no_newline (s : string) : bool :=
  match s with
  | EmptyString => true
  | String c rest => negb (Ascii.eqb c newline) && no_newline rest
  end.

(** Lines, each one ended by a newline. *)
Fixpoint unlines (lines : list string) : string :=
  match lines with
  | [] => ""
  | l :: rest => l ++ String newline (unlines rest)
  end.

(** A white space rune starts somewhere in [s]. *)
Fixpoint has_space (s : string) : bool :=
  match s with
  | EmptyString => false
  | String c rest => negb (Nat.eqb (strings.space_width s) 0) || has_space rest
  end.

(** The command and arguments that run hands to the executor, and what
    the executor does with them. *)
Definition command_line (z : zfs) (cmd : string) (args : list string)
  : string * list string :=
  if sudo z then ("sudo", cmd :: args) else (cmd, args).

Definition invoke (z : zfs) (in_ : option string) (cmd : string) (args : list string)
  : ExecResult :=
  exec z in_ (command_line z cmd args).1 (command_line z cmd args).2.

(** No white space rune starts inside [cur] when [rest] follows it. *)
Fixpoint clean (cur rest : string) : bool :=
  match cur with
  | EmptyString => true
  | String c cur' => Nat.eqb (strings.space_width (cur ++ rest)) 0 && clean cur' rest
  end.

(** A field: not empty, and without white space. *)
Definition is_field (f : string) : Prop := f <> "" /\ has_space f = false.

(** ** The property table *)

(** strings.ToLower on a string of 7-bit bytes: the letters A to Z are
    moved to a to z. *)
Fixpoint ToLowerASCII (s : string) : string :=
  match s with
  | EmptyString => EmptyString
  | String c rest =>
    let v := byte_val c in
    String (if (65 <=? v) && (v <=? 90) then byte_of (v + 32) else c) (ToLowerASCII rest)
  end.

(** The pairs that a header row and a value row stand for: the
    lowercased header field at index j with the value field at index j,
    or with the sentinel when the value row is shorter. *)
Definition paired (ToLower : string -> string) (header values : list string)
  : list (string * string) :=
  imap (fun j v => (ToLower v, default "-" (values !! j))) header.

(** Writing pairs into a table one after the other. *)
Definition write_pairs (m : gmap string string) (kvs : list (string * string))
  : gmap string string :=
  foldl (fun acc kv => <[kv.1 := kv.2]> acc) m kvs.

(** ** The listing *)

(** The arguments of zfs list for a type and a filter. *)
Definition list_args (ty filter : string) : list string :=
  (["list"; "-rp"; "-t"; ty; "-o"; "all"]
   ++ (if String.eqb filter "" then [] else [filter]))%list.

(** A record of the listing: a name and the consecutive value rows that
    lead with it. *)
Definition group : Type := string * list (list string).

Definition group_ok (g : group) : Prop :=
  g.2 <> [] /\ Forall (fun line => line !! 0%nat = Some g.1) g.2.

(** Each group has another name than the one before it; [prev] is the
    name before the first group. *)
Fixpoint names_change (prev : string) (groups : list group) : Prop :=
  match groups with
  | [] => True
  | g :: rest => g.1 <> prev /\ names_change g.1 rest
  end.

Section Listing.

Variable ToLower : string -> string.
Variable dsPropList : list string.
Variable GOOS : string.

(** The rows of one record given to the property mapper in order, each
    with the header; the first error ends it. *)
Fixpoint feed_rows (header : list string) (rows : list (list string))
    (ds : Dataset.t) : Dataset.t + error :=
  match rows with
  | [] => inl ds
  | line :: rest =>
    match Dataset.parseProps ToLower dsPropList GOOS ds [header; line] with
    | (_, Some err) => inr err
    | (ds', None) => feed_rows header rest ds'
    end
  end.

(** One dataset per group, in the order of the groups: a new dataset
    with the name of the group, fed with its rows. *)
Fixpoint parse_groups (header : list string) (groups : list group)
  : list Dataset.t + error :=
  match groups with
  | [] => inl []
  | g :: rest =>
    match feed_rows header g.2 (Dataset.new g.1) with
    | inr err => inr err
    | inl ds =>
      match parse_groups header rest with
      | inr err => inr err
      | inl dss => inl (ds :: dss)
      end
    end
  end.

(** What the listing returns for its groups. *)
Definition listing_result (done : list Dataset.t) (r : list Dataset.t + error)
  : list Dataset.t * option error :=
  match r with
  | inl dss => ((done ++ dss)%list, None)
  | inr err => ([], Some err)
  end.

(** What the listing does when a row without fields follows its groups:
    it panics at that row, unless a row of the groups made the property
    mapper fail, which ended the listing before. *)
Definition blank_result (r : list Dataset.t + error)
  : outcome (list Dataset.t * option error) :=
  match r with
  | inl _ => Panic
  | inr err => Done ([], Some err)
  end.

End Listing.

(** ** The rows of a table as text *)

(** A row printed with one white space byte [w] between its fields. *)
Definition format_row (w : ascii) (fields : list string) : string :=
  strings.Join fields (String w EmptyString).

(** The number of backslashes of a path. *)
Fixpoint count_backslash (s : string) : nat :=
  match s with
  | EmptyString => 0%nat
  | String c rest =>
    ((if Ascii.eqb c backslash then 1 else 0) + count_backslash rest)%nat
  end.

(** ** The zpool properties *)

(** The property names that Zpool.parseLine knows. *)
Definition zpool_props : list string :=
  ["name"; "health"; "allocated"; "size"; "free"; "fragmentation"; "readonly";
   "freeing"; "leaked"; "dedupratio"].

(** The field that the property [prop] names has the same value in [z]
    and in [z']; other names say nothing. *)
Definition same_field {float64 : Type} (prop : string) (z z' : Zpool.t float64) : Prop :=
  if String.eqb prop "name" then Zpool.Name _ z' = Zpool.Name _ z
  else if String.eqb prop "health" then Zpool.Health _ z' = Zpool.Health _ z
  else if String.eqb prop "allocated" then Zpool.Allocated _ z' = Zpool.Allocated _ z
  else if String.eqb prop "size" then Zpool.Size _ z' = Zpool.Size _ z
  else if String.eqb prop "free" then Zpool.Free _ z' = Zpool.Free _ z
  else if String.eqb prop "fragmentation"
       then Zpool.Fragmentation _ z' = Zpool.Fragmentation _ z
  else if String.eqb prop "readonly" then Zpool.ReadOnly _ z' = Zpool.ReadOnly _ z
  else if String.eqb prop "freeing" then Zpool.Freeing _ z' = Zpool.Freeing _ z
  else if String.eqb prop "leaked" then Zpool.Leaked _ z' = Zpool.Leaked _ z
  else if String.eqb prop "dedupratio" then Zpool.DedupRatio _ z' = Zpool.DedupRatio _ z
  else True.

Fixpoint no_percent (s : string) : bool :=
  match s with
  | EmptyString => true
  | String c rest => negb (Ascii.eqb c "%") && no_percent rest
  end.

(** ** The coerced dataset *)

(** The fields that the coercions leave in a dataset, for the table
    [t]: each text field is the sentinel-normalized entry, each number
    field is what setUint makes of its entry. *)
Definition coerced (GOOS : string) (d d' : Dataset.t) : Prop :=
  let t := Dataset.prop d' in
  Dataset.props d' = Dataset.props d
  /\ Dataset.Name d' = setString (t "name")
  /\ Dataset.Origin d' = setString (t "origin")
  /\ setUint 0 (t "used") = (Dataset.Used d', None)
  /\ setUint 0 (t "avail") = (Dataset.Avail d', None)
  /\ Dataset.Mountpoint d' = setString (t "mountpoint")
  /\ Dataset.Compression d' = setString (t "compress")
  /\ Dataset.Type_ d' = setString (t "type")
  /\ setUint 0 (t "volsize") = (Dataset.Volsize d', None)
  /\ setUint 0 (t "quota") = (Dataset.Quota d', None)
  /\ setUint 0 (t "refer") = (Dataset.Referenced d', None)
  /\ (GOOS = "solaris" ->
      Dataset.Written d' = Dataset.Written d
      /\ Dataset.Logicalused d' = Dataset.Logicalused d
      /\ Dataset.Usedbydataset d' = Dataset.Usedbydataset d)
  /\ (GOOS <> "solaris" ->
      setUint 0 (t "written") = (Dataset.Written d', None)
      /\ setUint 0 (t "lused") = (Dataset.Logicalused d', None)
      /\ setUint 0 (t "usedds") = (Dataset.Usedbydataset d', None)).

(** ** Commands on datasets and zpools *)

(** The option that a destroy flag adds: [opt] when bit [k] of [flags]
    is set. *)
Definition flag_option (flags : Z) (k : Z) (opt : string) : list string :=
  if Z.testbit flags k then [opt] else [].

(** The options of zfs destroy, in the order of the command line. *)
Definition destroy_options (flags : Z) : list string :=
  (flag_option flags 1 "-r" ++ flag_option flags 2 "-R"
   ++ flag_option flags 3 "-d" ++ flag_option flags 4 "-f")%list.

(** Keys and values in turn, as SetProperties takes them. *)
Fixpoint flatten_pairs (kvs : list (string * string)) : list string :=
  match kvs with
  | [] => []
  | (k, v) :: rest => k :: v :: flatten_pairs rest
  end.

(** The argument key=value of zfs set. *)
Definition assignment (kv : string * string) : string := kv.1 ++ "=" ++ kv.2.

(** The third field of the last row whose second field is [k]; a row
    that is too short for it gives nothing. *)
Fixpoint last_value (k : string) (rows : list (list string)) : option string :=
  match rows with
  | [] => None
  | row :: rest =>
    match last_value k rest with
    | Some v => Some v
    | None => if bool_decide (row !! 1%nat = Some k) then row !! 2%nat else None
    end
  end.

(** * Proofs *)

(** ** Bytes and strings *)

Ltac all_bytes c := destruct c as [[] [] [] [] [] [] [] []].

Lemma byte_val_range c : 0 <= byte_val c < 256.
Proof. all_bytes c; vm_compute; split; congruence. Qed.

Lemma byte_of_val c : byte_of (byte_val c) = c.
Proof. all_bytes c; reflexivity. Qed.

Lemma string_app_cons c (s t : string) : String c s ++ t = String c (s ++ t).
Proof. reflexivity. Qed.

Lemma string_app_nil_l (s : string) : "" ++ s = s.
Proof. reflexivity. Qed.

Lemma string_app_nil_r (s : string) : s ++ "" = s.
Proof. induction s as [| c s IH]; [done |]. by rewrite string_app_cons, IH. Qed.

Lemma string_app_assoc (a b c : string) : (a ++ b) ++ c = a ++ (b ++ c).
Proof. induction a as [| x a IH]; [done |]. by rewrite !string_app_cons, IH. Qed.

Lemma string_app_length (a b : string) :
  String.length (a ++ b) = (String.length a + String.length b)%nat.
Proof.
  induction a as [| x a IH]; [done |].
  rewrite string_app_cons. cbn [String.length]. by rewrite IH.
Qed.

(** ** strconv.ParseUint *)

Lemma digit_val_octal c :
  is_octal c = true -> strconv.digit_val c = Some (byte_val c - 48).
Proof. all_bytes c; vm_compute; congruence. Qed.

Lemma digit_val_not_octal c :
  is_octal c = false ->
  strconv.digit_val c = None \/ exists d, strconv.digit_val c = Some d /\ 8 <= d.
Proof.
  all_bytes c; vm_compute; try congruence; intros _;
    first [ left; reflexivity | right; eexists; split; [reflexivity | congruence] ].
Qed.

Lemma is_octal_range c : is_octal c = true -> 0 <= byte_val c - 48 < 8.
Proof. unfold is_octal. lia. Qed.

Section ParseUintLoop.
Variables (base cutoff maxVal : Z) (s0 : string).
Hypothesis Hbase : 2 <= base <= 36.
Hypothesis Hmax : 0 <= maxVal < 2 ^ 64.
Hypothesis Hcut : cutoff = strconv.maxUint64 / base + 1.

Lemma cutoff_mul n : 0 <= n < cutoff -> n * base < 2 ^ 64.
Proof.
  intros [Hn0 Hn]. subst cutoff. unfold strconv.maxUint64 in *.
  assert (n <= (2 ^ 64 - 1) / base) by lia.
  assert (base * ((2 ^ 64 - 1) / base) <= 2 ^ 64 - 1) by (apply Z.mul_div_le; lia).
  nia.
Qed.

Lemma cutoff_over n : cutoff <= n -> 2 ^ 64 <= n * base.
Proof.
  intros Hn. subst cutoff. unfold strconv.maxUint64 in *.
  pose proof (Z.mul_succ_div_gt (2 ^ 64 - 1) base ltac:(lia)).
  nia.
Qed.

Lemma loop_syntax_none c rest n :
  strconv.digit_val c = None ->
  strconv.parseUint_loop base cutoff maxVal s0 (String c rest) n
  = (0, Some (strconv.syntaxError strconv.fnParseUint s0)).
Proof. intros H. cbn [strconv.parseUint_loop]. by rewrite H. Qed.

Lemma loop_syntax_big c rest n d :
  strconv.digit_val c = Some d -> base <= d ->
  strconv.parseUint_loop base cutoff maxVal s0 (String c rest) n
  = (0, Some (strconv.syntaxError strconv.fnParseUint s0)).
Proof.
  intros H Hd. cbn [strconv.parseUint_loop]. rewrite H.
  destruct (Z.geb_spec d base); [done | lia].
Qed.

Lemma loop_step c rest n d :
  strconv.digit_val c = Some d -> 0 <= d < base -> 0 <= n ->
  n * base + d <= maxVal ->
  strconv.parseUint_loop base cutoff maxVal s0 (String c rest) n
  = strconv.parseUint_loop base cutoff maxVal s0 rest (n * base + d).
Proof.
  intros H Hd Hn Hle. cbn [strconv.parseUint_loop]. rewrite H.
  destruct (Z.geb_spec d base); [lia |].
  destruct (Z.geb_spec n cutoff) as [Hc | Hc].
  { apply cutoff_over in Hc. lia. }
  rewrite (Z.mod_small (n * base)) by nia.
  rewrite (Z.mod_small (n * base + d)) by nia.
  destruct (Z.ltb_spec (n * base + d) (n * base)); [lia |].
  destruct (Z.gtb_spec (n * base + d) maxVal); [lia | done].
Qed.

Lemma loop_range c rest n d :
  strconv.digit_val c = Some d -> 0 <= d < base -> 0 <= n ->
  maxVal < n * base + d ->
  strconv.parseUint_loop base cutoff maxVal s0 (String c rest) n
  = (maxVal, Some (strconv.rangeError strconv.fnParseUint s0)).
Proof.
  intros H Hd Hn Hgt. cbn [strconv.parseUint_loop]. rewrite H.
  destruct (Z.geb_spec d base); [lia |].
  destruct (Z.geb_spec n cutoff) as [Hc | Hc]; [done |].
  pose proof (cutoff_mul n ltac:(lia)) as Hm.
  rewrite (Z.mod_small (n * base)) by nia.
  destruct (Z.lt_ge_cases (n * base + d) (2 ^ 64)) as [Hs | Hs].
  - rewrite (Z.mod_small (n * base + d)) by nia.
    destruct (Z.ltb_spec (n * base + d) (n * base)); [done |].
    destruct (Z.gtb_spec (n * base + d) maxVal); [done | lia].
  - assert (Hsub : (n * base + d) mod 2 ^ 64 = n * base + d - 2 ^ 64).
    { symmetry. apply (Z.mod_unique_pos _ _ 1); nia. }
    rewrite Hsub.
    destruct (Z.ltb_spec (n * base + d - 2 ^ 64) (n * base)); [done | lia].
Qed.
End ParseUintLoop.

Ltac loop_side := first [ by apply digit_val_octal | lia | done ].

Lemma digit_val_not_octal_loop cutoff maxVal s0 c rest n :
  is_octal c = false ->
  strconv.parseUint_loop 8 cutoff maxVal s0 (String c rest) n
  = (0, Some (strconv.syntaxError strconv.fnParseUint s0)).
Proof.
  intros H. destruct (digit_val_not_octal c H) as [Hn | (d & Hd & Hge)].
  - by apply loop_syntax_none.
  - eapply loop_syntax_big; [done | lia].
Qed.

(** The three-byte window of an escape under ParseUint(code, 8, 8). *)
Lemma ParseUint_octal3 d1 d2 d3 :
  let code := String d1 (String d2 (String d3 EmptyString)) in
  strconv.ParseUint code 8 8 =
    if is_octal d1 && is_octal d2 && is_octal d3 then
      if octal_value d1 d2 d3 <=? 255 then (octal_value d1 d2 d3, None)
      else (255, Some (strconv.rangeError strconv.fnParseUint code))
    else (0, Some (strconv.syntaxError strconv.fnParseUint code)).
Proof.
  intros code. unfold strconv.ParseUint.
  change (String.eqb code "") with false. cbv iota.
  change (if 8 =? 0 then strconv.intSize else 8) with 8.
  change (2 ^ 8 - 1) with 255.
  set (cutoff := strconv.maxUint64 / 8 + 1).
  assert (Hcut : cutoff = strconv.maxUint64 / 8 + 1) by done.
  clearbody cutoff. unfold octal_value.
  destruct (is_octal d1) eqn:H1; cbn [andb];
    [| by apply digit_val_not_octal_loop].
  pose proof (is_octal_range _ H1).
  unfold code.
  rewrite (loop_step 8 cutoff 255 code) with (d := byte_val d1 - 48);
    [| loop_side ..].
  destruct (is_octal d2) eqn:H2; cbn [andb];
    [| by apply digit_val_not_octal_loop].
  pose proof (is_octal_range _ H2).
  rewrite (loop_step 8 cutoff 255 code) with (d := byte_val d2 - 48);
    [| loop_side ..].
  destruct (is_octal d3) eqn:H3; cbn [andb];
    [| by apply digit_val_not_octal_loop].
  pose proof (is_octal_range _ H3).
  destruct (Z.leb_spec (64 * (byte_val d1 - 48) + 8 * (byte_val d2 - 48)
                        + (byte_val d3 - 48)) 255).
  - rewrite (loop_step 8 cutoff 255 code) with (d := byte_val d3 - 48);
      [| loop_side ..].
    cbn [strconv.parseUint_loop]. f_equal. lia.
  - rewrite (loop_range 8 cutoff 255 code) with (d := byte_val d3 - 48);
      [done | loop_side ..].
Qed.

(** ** The octal escape decoder *)

Lemma with_prefix_app (a b : string) r :
  with_prefix a (with_prefix b r) = with_prefix (a ++ b) r.
Proof. destruct r as [s [e |]]; [done |]. cbn. by rewrite string_app_assoc. Qed.

Lemma with_prefix_byte (b : ascii) r :
  with_prefix (String b "") r = then_byte b r.
Proof. by destruct r as [s [e |]]. Qed.

(** The accumulator of the loop is a prefix of its result. *)
Lemma unescape_loop_prefix rest buf :
  unescape_loop rest buf = with_prefix buf (unescape_loop rest "").
Proof.
  remember (String.length rest) as n eqn:Hn. revert rest Hn buf.
  induction n as [n IH] using lt_wf_ind. intros rest Hn buf.
  destruct rest as [| c rest].
  { cbn. by rewrite string_app_nil_r. }
  cbn [unescape_loop]. destruct (Ascii.eqb c backslash).
  - destruct rest as [| d1 [| d2 [| d3 rest]]]; try done.
    destruct (strconv.ParseUint _ 8 8) as [val [err |]]; [done |].
    rewrite (IH (String.length rest)) by (subst n; cbn; lia || done).
    rewrite (IH (String.length rest) ltac:(subst n; cbn; lia) rest eq_refl ("" ++ _)).
    by rewrite with_prefix_app.
  - rewrite (IH (String.length rest)) by (subst n; cbn; lia || done).
    rewrite (IH (String.length rest) ltac:(subst n; cbn; lia) rest eq_refl ("" ++ _)).
    by rewrite with_prefix_app.
Qed.

Lemma unescape_plain c rest :
  c <> backslash ->
  unescapeFilepath (String c rest) = then_byte c (unescapeFilepath rest).
Proof.
  intros Hc. unfold unescapeFilepath. cbn [unescape_loop].
  destruct (Ascii.eqb_spec c backslash); [done |].
  by rewrite unescape_loop_prefix, string_app_nil_l, with_prefix_byte.
Qed.

Lemma unescape_too_short rest :
  (String.length rest < 3)%nat ->
  unescapeFilepath (String backslash rest) = ("", Some EOctalTooShort).
Proof.
  intros Hlen. destruct rest as [| d1 [| d2 [| d3 rest]]]; try done.
  cbn in Hlen. lia.
Qed.

Lemma unescape_escape d1 d2 d3 rest :
  let code := String d1 (String d2 (String d3 EmptyString)) in
  unescapeFilepath (String backslash (code ++ rest)) =
    if is_octal d1 && is_octal d2 && is_octal d3 then
      if octal_value d1 d2 d3 <=? 255
      then then_byte (byte_of (octal_value d1 d2 d3)) (unescapeFilepath rest)
      else ("", Some (EOctalInvalid (strconv.rangeError strconv.fnParseUint code)))
    else ("", Some (EOctalInvalid (strconv.syntaxError strconv.fnParseUint code))).
Proof.
  intros code. unfold unescapeFilepath, code.
  rewrite !string_app_cons, string_app_nil_l.
  cbn [unescape_loop]. change (Ascii.eqb backslash backslash) with true. cbv iota.
  rewrite ParseUint_octal3.
  destruct (is_octal d1 && is_octal d2 && is_octal d3); [| done].
  destruct (octal_value d1 d2 d3 <=? 255); [| done].
  by rewrite unescape_loop_prefix, string_app_nil_l, with_prefix_byte.
Qed.

(** An error of the decoder is one of its two errors, and comes with the
    empty string. *)
Lemma unescape_loop_error rest buf s e :
  unescape_loop rest buf = (s, Some e) ->
  s = "" /\ (e = EOctalTooShort \/ exists ne, e = EOctalInvalid ne).
Proof.
  remember (String.length rest) as n eqn:Hn. revert rest Hn buf.
  induction n as [n IH] using lt_wf_ind. intros rest Hn buf.
  destruct rest as [| c rest]; [done |].
  cbn [unescape_loop]. destruct (Ascii.eqb c backslash).
  - destruct rest as [| d1 [| d2 [| d3 rest]]];
      try (intros [= <- <-]; by eauto).
    destruct (strconv.ParseUint _ 8 8) as [val [err |]].
    + intros [= <- <-]. eauto.
    + apply (IH (String.length rest)); [subst n; cbn; lia | done].
  - apply (IH (String.length rest)); [subst n; cbn; lia | done].
Qed.

Lemma unescapeFilepath_error path s e :
  unescapeFilepath path = (s, Some e) -> s = "" /\ is_format_error e = true.
Proof.
  intros H. apply unescape_loop_error in H as [-> [-> | [ne ->]]]; done.
Qed.

Lemma octal3_digits c :
  let v := byte_val c in
  is_octal (octal_digit (v / 64)) && is_octal (octal_digit ((v / 8) mod 8))
    && is_octal (octal_digit (v mod 8)) = true
  /\ octal_value (octal_digit (v / 64)) (octal_digit ((v / 8) mod 8))
       (octal_digit (v mod 8)) = v.
Proof. all_bytes c; vm_compute; split; reflexivity. Qed.

Lemma unescape_octal3 c rest :
  unescapeFilepath (String backslash (octal3 (byte_val c) ++ rest))
  = then_byte c (unescapeFilepath rest).
Proof.
  unfold octal3. rewrite unescape_escape.
  destruct (octal3_digits c) as [-> ->].
  destruct (Z.leb_spec (byte_val c) 255) as [_ | Hgt].
  - by rewrite byte_of_val.
  - pose proof (byte_val_range c). lia.
Qed.

Lemma unescape_spec_encode s :
  no_backslash s = true -> unescapeFilepath (spec_encode s) = (s, None).
Proof.
  induction s as [| c s IH]; [done |].
  cbn [no_backslash spec_encode]. intros [Hc Hs]%andb_prop.
  destruct (printable c).
  - rewrite unescape_plain, IH; [done | done |].
    intros ->. by rewrite Ascii.eqb_refl in Hc.
  - by rewrite unescape_octal3, IH.
Qed.

(** C3, as amended.  The decoder scans byte by byte.  A byte other than
    the backslash is appended unchanged.  A backslash with fewer than
    three bytes after it is the error invalid octal code: too short.  A
    backslash followed by three bytes that are not all octal digits is
    the error wrapping the syntax failure of the numeric parse.  A
    backslash followed by three octal digits appends their base-8 value
    as one byte when that value is at most 255, and is the error wrapping
    the range failure of the numeric parse when it is larger. *)
Theorem unescapeFilepath_scan :
  unescapeFilepath "" = ("", None)
  /\ (forall c rest,
        c <> backslash ->
        unescapeFilepath (String c rest) = then_byte c (unescapeFilepath rest))
  /\ (forall rest,
        (String.length rest < 3)%nat ->
        unescapeFilepath (String backslash rest) = ("", Some EOctalTooShort))
  /\ (forall d1 d2 d3 rest,
        let code := String d1 (String d2 (String d3 EmptyString)) in
        (is_octal d1 && is_octal d2 && is_octal d3 = false ->
         unescapeFilepath (String backslash (code ++ rest))
         = ("", Some (EOctalInvalid (strconv.syntaxError strconv.fnParseUint code))))
        /\ (is_octal d1 && is_octal d2 && is_octal d3 = true ->
            octal_value d1 d2 d3 <= 255 ->
            unescapeFilepath (String backslash (code ++ rest))
            = then_byte (byte_of (octal_value d1 d2 d3)) (unescapeFilepath rest))
        /\ (is_octal d1 && is_octal d2 && is_octal d3 = true ->
            255 < octal_value d1 d2 d3 ->
            unescapeFilepath (String backslash (code ++ rest))
            = ("", Some (EOctalInvalid (strconv.rangeError strconv.fnParseUint code))))).
Proof.
  split; [done |]. split; [apply unescape_plain |].
  split; [apply unescape_too_short |].
  intros d1 d2 d3 rest code. unfold code. rewrite unescape_escape.
  repeat split.
  - by intros ->.
  - intros -> Hle. by destruct (Z.leb_spec (octal_value d1 d2 d3) 255); [| lia].
  - intros -> Hgt. by destruct (Z.leb_spec (octal_value d1 d2 d3) 255); [lia |].
Qed.

Lemma unescapeFilepath_scan_witness :
  unescapeFilepath "a" = ("a", None)
  /\ unescapeFilepath (String backslash "12") = ("", Some EOctalTooShort)
  /\ unescapeFilepath (String backslash "1x3")
     = ("", Some (EOctalInvalid (strconv.syntaxError strconv.fnParseUint "1x3")))
  /\ unescapeFilepath (String backslash "101") = ("A", None)
  /\ unescapeFilepath (String backslash "777")
     = ("", Some (EOctalInvalid (strconv.rangeError strconv.fnParseUint "777"))).
Proof.
  destruct unescapeFilepath_scan as (_ & Hplain & Hshort & Hesc).
  split; [exact (Hplain "a"%char "" ltac:(discriminate)) |].
  split; [exact (Hshort "12" ltac:(cbn; lia)) |].
  split; [exact (proj1 (Hesc "1"%char "x"%char "3"%char "") eq_refl) |].
  split; [exact (proj1 (proj2 (Hesc "1"%char "0"%char "1"%char "")) eq_refl
                   ltac:(vm_compute; congruence)) |].
  exact (proj2 (proj2 (Hesc "7"%char "7"%char "7"%char "")) eq_refl eq_refl).
Defined.

(** C3 as stated fails: three octal digits after a backslash are not
    always appended.  The digits 400 are octal, their value 256 is no
    byte, and the decoder returns the range error of the numeric parse,
    which is neither of the two errors the claim lists. *)
Lemma unescapeFilepath_octal_overflow :
  is_octal "4" && is_octal "0" && is_octal "0" = true
  /\ unescapeFilepath (String backslash "400")
     = ("", Some (EOctalInvalid (strconv.rangeError strconv.fnParseUint "400")))
  /\ ~ (exists s, unescapeFilepath (String backslash "400") = (s, None)).
Proof.
  split; [reflexivity |]. split; [reflexivity |].
  intros [s Hs]. vm_compute in Hs. discriminate.
Qed.

(** C2, as amended.  Decoding a backslash and the three octal digits of
    a byte outside printable 7-bit ASCII gives that byte; a printable
    byte other than the backslash passes through unchanged; and for a
    byte sequence without a backslash, encoding by the stated rule and
    then decoding restores the sequence. *)
Theorem unescape_inverts_encoding :
  (forall b, printable b = false ->
     unescapeFilepath (String backslash (octal3 (byte_val b))) = (String b "", None))
  /\ (forall b, printable b = true -> b <> backslash ->
        unescapeFilepath (String b "") = (String b "", None))
  /\ (forall s, no_backslash s = true ->
        unescapeFilepath (spec_encode s) = (s, None)).
Proof.
  repeat split.
  - intros b _. rewrite <- (string_app_nil_r (octal3 _)).
    by rewrite unescape_octal3.
  - intros b _ Hb. by rewrite unescape_plain.
  - apply unescape_spec_encode.
Qed.

Lemma unescape_inverts_encoding_witness :
  unescapeFilepath (String backslash "012") = (String newline "", None)
  /\ unescapeFilepath "a" = ("a", None)
  /\ unescapeFilepath (spec_encode (String newline "a b")) = (String newline "a b", None).
Proof.
  destruct unescape_inverts_encoding as (Hesc & Hplain & Hround).
  split; [exact (Hesc newline eq_refl) |].
  split; [exact (Hplain "a"%char eq_refl ltac:(discriminate)) |].
  exact (Hround (String newline "a b") eq_refl).
Defined.

(** C2 as stated fails at the backslash: it is a printable 7-bit ASCII
    byte, the stated rule leaves it unescaped, and the decoder reads it
    as the start of an escape. *)
Lemma unescape_backslash_not_inverted :
  printable backslash = true
  /\ spec_encode (String backslash "") = String backslash ""
  /\ unescapeFilepath (spec_encode (String backslash "")) = ("", Some EOctalTooShort)
  /\ unescapeFilepath (spec_encode (String backslash ""))
     <> (String backslash "", None).
Proof. repeat split; try reflexivity. discriminate. Qed.

(** ** Decimal parsing *)

Lemma digit_val_digit c :
  is_digit c = true -> strconv.digit_val c = Some (byte_val c - 48).
Proof. unfold is_digit, strconv.digit_val. by intros ->. Qed.

Lemma is_digit_range c : is_digit c = true -> 0 <= byte_val c - 48 < 10.
Proof. unfold is_digit. lia. Qed.

Lemma dec_value_from_ge s n :
  all_digits s = true -> 0 <= n -> n <= dec_value_from s n.
Proof.
  revert n. induction s as [| c s IH]; intros n; cbn [all_digits dec_value_from]; [lia |].
  intros [Hc Hs]%andb_prop Hn. pose proof (is_digit_range c Hc).
  specialize (IH (n * 10 + (byte_val c - 48)) Hs). lia.
Qed.

Lemma dec_value_from_lt s n :
  all_digits s = true -> 0 <= n ->
  dec_value_from s n < (n + 1) * 10 ^ Z.of_nat (String.length s).
Proof.
  revert n. induction s as [| c s IH]; intros n; cbn [all_digits dec_value_from String.length].
  { intros _ _. change (10 ^ Z.of_nat 0) with 1. lia. }
  intros [Hc Hs]%andb_prop Hn. pose proof (is_digit_range c Hc).
  specialize (IH (n * 10 + (byte_val c - 48)) Hs ltac:(lia)).
  rewrite Nat2Z.inj_succ, Z.pow_succ_r by lia.
  assert (0 < 10 ^ Z.of_nat (String.length s)) by (apply Z.pow_pos_nonneg; lia).
  nia.
Qed.

(** The loop of ParseUint on decimal digits: the value when it fits,
    the range error otherwise. *)
Lemma parseUint_loop_digits maxVal s0 s n :
  0 <= maxVal < 2 ^ 64 -> all_digits s = true -> 0 <= n <= maxVal ->
  strconv.parseUint_loop 10 (strconv.maxUint64 / 10 + 1) maxVal s0 s n =
    if dec_value_from s n <=? maxVal then (dec_value_from s n, None)
    else (maxVal, Some (strconv.rangeError strconv.fnParseUint s0)).
Proof.
  intros Hmax. revert n.
  induction s as [| c s IH]; intros n; cbn [all_digits dec_value_from].
  { intros _ Hn. cbn [strconv.parseUint_loop].
    by destruct (Z.leb_spec n maxVal); [| lia]. }
  intros [Hc Hs]%andb_prop Hn. pose proof (is_digit_range c Hc).
  pose proof (digit_val_digit c Hc) as Hd.
  destruct (Z.le_gt_cases (n * 10 + (byte_val c - 48)) maxVal) as [Hle | Hgt].
  - rewrite (loop_step 10 _ maxVal s0) with (d := byte_val c - 48); [| loop_side ..].
    apply IH; [done | lia].
  - rewrite (loop_range 10 _ maxVal s0) with (d := byte_val c - 48); [| loop_side ..].
    pose proof (dec_value_from_ge s (n * 10 + (byte_val c - 48)) Hs ltac:(lia)).
    by destruct (Z.leb_spec (dec_value_from s (n * 10 + (byte_val c - 48))) maxVal); [lia |].
Qed.

Lemma ParseUint_digits s bitSize :
  (bitSize = 0 \/ bitSize = 64) -> all_digits s = true -> s <> "" ->
  strconv.ParseUint s 10 bitSize =
    if dec_value s <=? 2 ^ 64 - 1 then (dec_value s, None)
    else (2 ^ 64 - 1, Some (strconv.rangeError strconv.fnParseUint s)).
Proof.
  intros Hb Hs Hne. unfold strconv.ParseUint.
  destruct (String.eqb_spec s ""); [done |].
  assert ((if bitSize =? 0 then strconv.intSize else bitSize) = 64) as ->
    by (by destruct Hb as [-> | ->]).
  apply parseUint_loop_digits; [lia | done | lia].
Qed.

Lemma atoi_fast_digits s0 s n :
  all_digits s = true -> strconv.atoi_fast s0 s n = (dec_value_from s n, None).
Proof.
  revert n. induction s as [| c s IH]; intros n; cbn [all_digits strconv.atoi_fast dec_value_from];
    [done |].
  intros [Hc Hs]%andb_prop. pose proof (is_digit_range c Hc).
  rewrite Z.mod_small by lia.
  destruct (Z.gtb_spec (byte_val c - 48) 9); [lia |]. by apply IH.
Qed.

Lemma is_sign_cases sg : is_sign sg = true -> sg = "+"%char \/ sg = "-"%char.
Proof.
  unfold is_sign. intros [H | H]%orb_prop; apply Ascii.eqb_eq in H; auto.
Qed.

(** strconv.Atoi on a sign followed by digits. *)
Lemma Atoi_signed_digits sg ds :
  is_sign sg = true -> all_digits ds = true -> ds <> "" ->
  strconv.Atoi (String sg ds) =
    if fits_int (signed sg (dec_value ds)) then (signed sg (dec_value ds), None)
    else (if Ascii.eqb sg "-" then - 2 ^ 63 else 2 ^ 63 - 1,
          Some (mkNumError strconv.fnAtoi (String sg ds) ErrRange)).
Proof.
  intros Hsg Hds Hne. unfold strconv.Atoi.
  pose proof (dec_value_from_ge ds 0 Hds ltac:(lia)) as Hge. fold (dec_value ds) in Hge.
  assert (Hlen : len (String sg ds) = 1 + Z.of_nat (String.length ds))
    by (unfold len; cbn [String.length]; lia).
  rewrite Hlen.
  destruct (Z.ltb_spec 0 (1 + Z.of_nat (String.length ds))); [| lia]. cbn [andb].
  destruct (Z.ltb_spec (1 + Z.of_nat (String.length ds)) 19) as [Hshort | Hlong].
  - (* the fast path *)
    assert (Hsigned : Ascii.eqb sg "-" || Ascii.eqb sg "+" = true)
      by (destruct (is_sign_cases sg Hsg) as [-> | ->]; reflexivity).
    rewrite Hsigned. cbn [andb].
    destruct (Z.ltb_spec (len ds) 1) as [Hl | _].
    { destruct ds; [done |]. unfold len in Hl. cbn [String.length] in Hl. lia. }
    rewrite atoi_fast_digits by done. fold (dec_value ds).
    pose proof (dec_value_from_lt ds 0 Hds ltac:(lia)) as Hlt. fold (dec_value ds) in Hlt.
    assert (10 ^ Z.of_nat (String.length ds) <= 10 ^ 17)
      by (apply Z.pow_le_mono_r; lia).
    assert (Hfit : fits_int (signed sg (dec_value ds)) = true).
    { unfold fits_int, signed. destruct (Ascii.eqb sg "-"); lia. }
    rewrite Hfit. unfold signed. by destruct (Ascii.eqb sg "-").
  - (* the slow path through ParseInt *)
    unfold strconv.ParseInt.
    destruct (is_sign_cases sg Hsg) as [-> | ->];
      cbn [Ascii.eqb Bool.eqb]; cbv iota;
      rewrite ParseUint_digits by (done || by left);
      unfold fits_int, signed; cbn [Ascii.eqb Bool.eqb]; cbv iota;
      change (if 0 =? 0 then strconv.intSize else 0) with 64;
      change (2 ^ (64 - 1)) with (2 ^ 63);
      destruct (Z.leb_spec (dec_value ds) (2 ^ 64 - 1)); cbn [negb andb];
      repeat match goal with
             | |- context [Z.geb ?a ?b] => destruct (Z.geb_spec a b)
             | |- context [Z.gtb ?a ?b] => destruct (Z.gtb_spec a b)
             | |- context [Z.leb ?a ?b] => destruct (Z.leb_spec a b)
             | |- context [Z.ltb ?a ?b] => destruct (Z.ltb_spec a b)
             end; cbn [negb andb]; try lia; try done.
Qed.

(** ** The reference count pattern *)

Lemma match_digits_close_intro ds post :
  all_digits ds = true -> ds <> "" ->
  match_digits_close (ds ++ String ")" post) = Some ds.
Proof.
  induction ds as [| c ds IH]; [done |].
  cbn [all_digits]. intros [Hc Hds]%andb_prop _.
  rewrite string_app_cons. cbn [match_digits_close]. rewrite Hc.
  destruct ds as [| c' ds]; [done |].
  rewrite string_app_cons in *. rewrite IH by done.
  assert (c' <> ")"%char) as Hne.
  { intros ->. cbn [all_digits] in Hds. by vm_compute in Hds. }
  all_bytes c'; try done.
Qed.

Lemma match_digits_close_elim s ds :
  match_digits_close s = Some ds ->
  all_digits ds = true /\ ds <> "" /\ exists post, s = ds ++ String ")" post.
Proof.
  revert ds. induction s as [| c s IH]; intros ds; [done |].
  cbn [match_digits_close]. destruct (is_digit c) eqn:Hc; [| done].
  assert (Hrec : String c <$> match_digits_close s = Some ds ->
                 all_digits ds = true /\ ds <> "" /\ exists post, String c s = ds ++ String ")" post).
  { destruct (match_digits_close s) as [ds' |] eqn:Hm; [| done].
    intros [= <-]. destruct (IH ds' eq_refl) as (Hd & Hne & post & ->).
    cbn [all_digits]. rewrite Hc, Hd. repeat split; [done |].
    exists post. by rewrite string_app_cons. }
  destruct s as [| c' s]; [done |].
  assert (Hclose : c' = ")"%char -> Some (String c "") = Some ds ->
                   all_digits ds = true /\ ds <> "" /\
                   exists post, String c (String c' s) = ds ++ String ")" post).
  { intros -> [= <-]. cbn [all_digits]. rewrite Hc. repeat split; [done |]. by exists s. }
  all_bytes c'; first [ by apply Hclose | apply Hrec ].
Qed.

Lemma match_here_intro sg ds post :
  is_sign sg = true -> all_digits ds = true -> ds <> "" ->
  match_here (ref_group sg ds ++ post) = Some (String sg ds).
Proof.
  intros Hsg Hds Hne. unfold ref_group.
  rewrite !string_app_cons, string_app_assoc, string_app_cons, string_app_nil_l.
  cbn [match_here]. rewrite Hsg. by rewrite match_digits_close_intro.
Qed.

Lemma match_here_elim s g :
  match_here s = Some g ->
  exists sg ds post,
    g = String sg ds /\ is_sign sg = true /\ all_digits ds = true /\ ds <> ""
    /\ s = ref_group sg ds ++ post.
Proof.
  destruct s as [| c [| sg s]]; [done | by all_bytes c |].
  assert (Hopen : c = "("%char -> match_here (String "(" (String sg s)) = Some g ->
                  exists sg' ds post,
                    g = String sg' ds /\ is_sign sg' = true /\ all_digits ds = true
                    /\ ds <> "" /\ String c (String sg s) = ref_group sg' ds ++ post).
  { intros ->. cbn [match_here]. destruct (is_sign sg) eqn:Hsg; [| done].
    destruct (match_digits_close s) as [ds |] eqn:Hm; [| done]. intros [= <-].
    destruct (match_digits_close_elim _ _ Hm) as (Hd & Hne & post & ->).
    exists sg, ds, post. repeat split; try done. unfold ref_group.
    by rewrite !string_app_cons, string_app_assoc, string_app_cons, string_app_nil_l. }
  all_bytes c; first [ by apply Hopen | done ].
Qed.

Lemma match_here_no_paren c s :
  Ascii.eqb c "(" = false -> match_here (String c s) = None.
Proof. all_bytes c; try done; by destruct s. Qed.

(** The search finds the leftmost group. *)
Lemma FindStringSubmatch_intro pre sg ds post :
  is_sign sg = true -> all_digits ds = true -> ds <> "" ->
  leftmost_group pre sg ds post ->
  FindStringSubmatch (pre ++ ref_group sg ds ++ post)
  = Some [ref_group sg ds; String sg ds].
Proof.
  intros Hsg Hds Hne. induction pre as [| c pre IH]; intros Hleft.
  - rewrite string_app_nil_l.
    assert (Hm := match_here_intro sg ds post Hsg Hds Hne).
    destruct (ref_group sg ds ++ post) eqn:E; cbn [FindStringSubmatch]; by rewrite Hm.
  - rewrite string_app_cons. cbn [FindStringSubmatch].
    destruct (match_here (String c (pre ++ ref_group sg ds ++ post))) as [g |] eqn:Hm.
    + apply match_here_elim in Hm as (sg' & ds' & post' & _ & Hsg' & Hds' & Hne' & E).
      specialize (Hleft "" sg' ds' post' Hsg' Hds' Hne' E). cbn in Hleft. lia.
    + apply IH. intros pre' sg' ds' post' Hsg' Hds' Hne' E.
      specialize (Hleft (String c pre') sg' ds' post' Hsg' Hds' Hne').
      rewrite !string_app_cons, E in Hleft. specialize (Hleft eq_refl).
      cbn [String.length] in Hleft. lia.
Qed.

(** What the search finds is the leftmost group of the field. *)
Lemma FindStringSubmatch_leftmost f matches :
  FindStringSubmatch f = Some matches ->
  exists pre sg ds post,
    is_sign sg = true /\ all_digits ds = true /\ ds <> ""
    /\ f = pre ++ ref_group sg ds ++ post
    /\ leftmost_group pre sg ds post.
Proof.
  induction f as [| c f IH].
  - cbn. done.
  - cbn [FindStringSubmatch].
    destruct (match_here (String c f)) as [g |] eqn:Hm.
    + intros _.
      destruct (match_here_elim _ _ Hm) as (sg & ds & post & _ & Hsg & Hds & Hne & E).
      exists "", sg, ds, post. rewrite string_app_nil_l.
      repeat split; try done. intros pre' ? ? ? _ _ _ _. cbn. lia.
    + intros H. destruct (IH H) as (pre & sg & ds & post & Hsg & Hds & Hne & -> & Hleft).
      exists (String c pre), sg, ds, post. repeat split; try done.
      intros pre' sg' ds' post' Hsg' Hds' Hne' E.
      destruct pre' as [| c' pre'].
      * rewrite string_app_cons, string_app_nil_l in E. rewrite E in Hm.
        by rewrite match_here_intro in Hm.
      * rewrite !string_app_cons in E. injection E as _ E.
        specialize (Hleft pre' sg' ds' post' Hsg' Hds' Hne' E).
        cbn [String.length]. lia.
Qed.

Lemma FindStringSubmatch_shape f matches :
  FindStringSubmatch f = Some matches ->
  exists sg ds,
    matches = [ref_group sg ds; String sg ds]
    /\ is_sign sg = true /\ all_digits ds = true /\ ds <> ""
    /\ exists pre post, f = pre ++ ref_group sg ds ++ post.
Proof.
  induction f as [| c f IH].
  - cbn. done.
  - cbn [FindStringSubmatch].
    destruct (match_here (String c f)) as [g |] eqn:Hm.
    + intros [= <-]. destruct (match_here_elim _ _ Hm) as (sg & ds & post & -> & ? & ? & ? & E).
      exists sg, ds. repeat split; try done. exists "", post. by rewrite string_app_nil_l.
    + intros H. destruct (IH H) as (sg & ds & -> & ? & ? & ? & pre & post & ->).
      exists sg, ds. repeat split; try done. exists (String c pre), post.
      by rewrite string_app_cons.
Qed.

(** The search fails exactly on the fields that contain no group. *)
Lemma FindStringSubmatch_None f :
  FindStringSubmatch f = None <-> ~ has_ref_group f.
Proof.
  split.
  - intros Hnone (pre & sg & ds & post & Hsg & Hds & Hne & ->).
    induction pre as [| c pre IH].
    + rewrite string_app_nil_l in Hnone.
      assert (Hm := match_here_intro sg ds post Hsg Hds Hne).
      destruct (ref_group sg ds ++ post) eqn:E;
        cbn [FindStringSubmatch] in Hnone; by rewrite Hm in Hnone.
    + rewrite string_app_cons in Hnone. cbn [FindStringSubmatch] in Hnone.
      destruct (match_here _); [done |]. by apply IH.
  - intros Hno. destruct (FindStringSubmatch f) as [matches |] eqn:Hf; [| done].
    destruct Hno. apply FindStringSubmatch_shape in Hf
      as (sg & ds & _ & ? & ? & ? & pre & post & ->).
    by exists pre, sg, ds, post.
Qed.

(** parseReferenceCount never panics: the match has two elements. *)
Lemma parseReferenceCount_eq f :
  parseReferenceCount f =
    match FindStringSubmatch f with
    | None => Done (0, Some ERegexpNoMatch)
    | Some matches =>
      let '(n, err) := strconv.Atoi (default "" (matches !! 1%nat)) in
      Done (n, ENum <$> err)
    end.
Proof.
  unfold parseReferenceCount.
  destruct (FindStringSubmatch f) as [matches |] eqn:Hf; [| done].
  by apply FindStringSubmatch_shape in Hf as (sg & ds & -> & _).
Qed.

Lemma parseReferenceCount_total f :
  exists n err, parseReferenceCount f = Done (n, err)
                /\ (forall e, err = Some e -> is_format_error e = true).
Proof.
  rewrite parseReferenceCount_eq.
  destruct (FindStringSubmatch f) as [matches |].
  - destruct (strconv.Atoi _) as [n [e |]]; do 2 eexists; split; try done.
    + by intros ? [= <-].
  - do 2 eexists; split; [done |]. by intros ? [= <-].
Qed.

(** ** The diff line parser *)

Lemma changeTypeMap_Some f0 ct :
  changeTypeMap !! f0 = Some ct <-> (f0, ct) ∈ change_codes.
Proof.
  unfold changeTypeMap. rewrite <- elem_of_list_to_map; [done |].
  apply (bool_decide_unpack _). by vm_compute.
Qed.

Lemma changeTypeMap_None f0 :
  changeTypeMap !! f0 = None <-> f0 ∉ change_codes.*1.
Proof. unfold changeTypeMap. symmetry. apply not_elem_of_list_to_map. Qed.

Lemma inodeTypeMap_Some f1 ty :
  inodeTypeMap !! f1 = Some ty <-> (f1, ty) ∈ inode_codes.
Proof.
  unfold inodeTypeMap. rewrite <- elem_of_list_to_map; [done |].
  apply (bool_decide_unpack _). by vm_compute.
Qed.

Lemma inodeTypeMap_None f1 :
  inodeTypeMap !! f1 = None <-> f1 ∉ inode_codes.*1.
Proof. unfold inodeTypeMap. symmetry. apply not_elem_of_list_to_map. Qed.

Lemma changeTypeMap_known f0 ct :
  changeTypeMap !! f0 = Some ct -> ct <> ChangeUnknown.
Proof.
  intros H%changeTypeMap_Some Hct. subst ct. unfold change_codes in H.
  repeat (apply elem_of_cons in H as [H | H]; [done |]). by apply elem_of_nil in H.
Qed.

Lemma inodeTypeMap_known f1 ty :
  inodeTypeMap !! f1 = Some ty -> ty <> InodeUnknown.
Proof.
  intros H%inodeTypeMap_Some Hty. subst ty. unfold inode_codes in H.
  repeat (apply elem_of_cons in H as [H | H]; [done |]). by apply elem_of_nil in H.
Qed.

(** What parseInodeChange does once the line is known to have a first
    field: the lookup of the change type decides the rest. *)
Ltac pic_step :=
  match goal with
  | |- context [Z.ltb ?a ?b] => destruct (Z.ltb_spec a b); try lia
  | |- context [Z.eqb ?a ?b] => destruct (Z.eqb_spec a b); try lia
  | |- context [decide ?P] => destruct (decide P); try done
  | |- context [unescapeFilepath ?f] =>
      let Hu := fresh "Hu" in
      destruct (unescapeFilepath f) as [? [? |]] eqn:Hu;
      [apply unescapeFilepath_error in Hu as [-> Hu] |]
  | |- context [parseReferenceCount ?f] =>
      let n := fresh "n" in let err := fresh "err" in
      let Hrc := fresh "Hrc" in let Hfmt := fresh "Hfmt" in
      destruct (parseReferenceCount_total f) as (n & err & Hrc & Hfmt);
      rewrite Hrc; destruct err
  end;
  cbn -[changeTypeMap inodeTypeMap unescapeFilepath parseReferenceCount Z.of_nat].

Ltac pic_start line :=
  unfold parseInodeChange;
  destruct line as [| f0 [| f1 [| f2 [| f3 [| f4 line]]]]];
  cbn -[changeTypeMap inodeTypeMap unescapeFilepath parseReferenceCount Z.of_nat].

(** parseInodeChange never panics, and it returns either an error of the
    format kind and no change, or a change and no error. *)
Lemma parseInodeChange_total line :
  exists r, parseInodeChange line = Done r
    /\ ((exists e, r = (None, Some e) /\ is_format_error e = true)
        \/ (exists c, r = (Some c, None))).
Proof.
  pic_start line.
  all: try (destruct (changeTypeMap !! f0) as [[] |] eqn:Hct);
    cbn -[changeTypeMap inodeTypeMap unescapeFilepath parseReferenceCount Z.of_nat].
  all: repeat pic_step.
  all: try (eexists; split; [reflexivity |]; eauto; fail).
  all: try (eexists; split; [reflexivity |]; left; eexists; split; [reflexivity |]; cbn; eauto; fail).
Qed.

Ltac pic_lookup f0 :=
  let Hct := fresh "Hct" in
  destruct (changeTypeMap !! f0) as [[] |] eqn:Hct;
  cbn -[changeTypeMap inodeTypeMap unescapeFilepath parseReferenceCount Z.of_nat].

Ltac pic_inode f1 :=
  let Hty := fresh "Hty" in
  destruct (inodeTypeMap !! f1) as [? |] eqn:Hty;
  cbn -[changeTypeMap inodeTypeMap unescapeFilepath parseReferenceCount Z.of_nat].

(** What a successful parse says about the line. *)
Lemma parseInodeChange_success line c e :
  parseInodeChange line = Done (Some c, e) ->
  e = None /\
  exists f0 f1 f2 tl,
    line = f0 :: f1 :: f2 :: tl
    /\ changeTypeMap !! f0 = Some (Change c)
    /\ inodeTypeMap !! f1 = Some (Type_ c)
    /\ unescapeFilepath f2 = (Path c, None)
    /\ match Change c with
       | Renamed =>
         exists f3, tl = [f3] /\ unescapeFilepath f3 = (NewPath c, None)
                    /\ ReferenceCountChange c = 0
       | Modified =>
         NewPath c = ""
         /\ ((tl = [] /\ ReferenceCountChange c = 0)
             \/ exists f3, tl = [f3]
                           /\ parseReferenceCount f3 = Done (ReferenceCountChange c, None))
       | _ => tl = [] /\ NewPath c = "" /\ ReferenceCountChange c = 0
       end.
Proof.
  pic_start line; try done.
  all: pic_lookup f0; try done.
  all: repeat (pic_step; try done).
  all: try pic_inode f1; try done.
  all: repeat (pic_step; try done).
  all: intros [= <- <-]; split; [done |];
    do 4 eexists; split; [reflexivity |]; cbn; repeat split; eauto.
Qed.

Lemma parseInodeChange_unknown_change line f0 :
  line !! 0%nat = Some f0 -> changeTypeMap !! f0 = None ->
  parseInodeChange line = Done (None, Some (EUnknownChangeType f0)).
Proof.
  destruct line as [| f0' tl]; [done |]. intros [= ->] Hct.
  unfold parseInodeChange.
  cbn -[changeTypeMap inodeTypeMap unescapeFilepath parseReferenceCount Z.of_nat].
  rewrite Hct. cbn [from_option].
  destruct (Z.ltb_spec (Z.of_nat (S (length tl))) 1); [lia |].
  by destruct (decide (ChangeUnknown = ChangeUnknown)).
Qed.

Lemma parseInodeChange_field_count line f0 ct e :
  line !! 0%nat = Some f0 -> changeTypeMap !! f0 = Some ct ->
  check_field_count ct (Z.of_nat (length line)) = Some e ->
  parseInodeChange line = Done (None, Some e).
Proof.
  destruct line as [| f0' tl]; [done |]. intros [= ->] Hct He.
  unfold parseInodeChange.
  cbn -[changeTypeMap inodeTypeMap unescapeFilepath parseReferenceCount Z.of_nat
        check_field_count].
  cbn [length] in He. rewrite Hct. cbn [from_option id]. rewrite He.
  destruct (Z.ltb_spec (Z.of_nat (S (length tl))) 1); [lia |].
  destruct (decide (ct = ChangeUnknown)) as [-> |]; [| done].
  by apply changeTypeMap_known in Hct.
Qed.

Lemma parseInodeChange_unknown_inode line f1 :
  line !! 1%nat = Some f1 -> inodeTypeMap !! f1 = None ->
  exists e, parseInodeChange line = Done (None, Some e) /\ is_format_error e = true.
Proof.
  intros Hf1 Hty.
  destruct (parseInodeChange_total line) as (r & Hr & [(e & -> & He) | (c & ->)]);
    [by exists e |].
  apply parseInodeChange_success in Hr as (_ & f0 & f1' & f2 & tl & -> & _ & Hty' & _).
  cbn in Hf1. congruence.
Qed.

(** C5.  A line whose field 0 is none of the four change codes, whose
    field 1 is none of the nine inode codes, or whose number of fields
    is not the one its change type asks for (4 for Renamed, 3 or 4 for
    Modified, 3 for the others) is answered with an error of the format
    kind and no InodeChange; the parser never panics and never returns a
    change together with an error. *)
Theorem parseInodeChange_rejects line :
  (exists r, parseInodeChange line = Done r
     /\ ((exists e, r = (None, Some e) /\ is_format_error e = true)
         \/ (exists c, r = (Some c, None))))
  /\ (line = [] -> parseInodeChange line = Done (None, Some EEmptyLine))
  /\ (forall f0, line !! 0%nat = Some f0 -> f0 ∉ ["-"; "+"; "M"; "R"] ->
        parseInodeChange line = Done (None, Some (EUnknownChangeType f0)))
  /\ (forall f1, line !! 1%nat = Some f1 ->
        f1 ∉ ["B"; "C"; "/"; ">"; "|"; "@"; "P"; "="; "F"] ->
        exists e, parseInodeChange line = Done (None, Some e)
                  /\ is_format_error e = true)
  /\ (line !! 0%nat = Some "R" -> length line <> 4%nat ->
        parseInodeChange line
        = Done (None, Some (EFieldCount4 (Z.of_nat (length line)))))
  /\ (line !! 0%nat = Some "M" -> length line <> 3%nat -> length line <> 4%nat ->
        parseInodeChange line
        = Done (None, Some (EFieldCount34 (Z.of_nat (length line)))))
  /\ (forall f0, line !! 0%nat = Some f0 -> f0 ∈ ["-"; "+"] ->
        length line <> 3%nat ->
        parseInodeChange line
        = Done (None, Some (EFieldCount3 (Z.of_nat (length line))))).
Proof.
  split; [apply parseInodeChange_total |].
  split; [by intros -> |].
  split.
  { intros f0 Hf0 Hnot. apply parseInodeChange_unknown_change; [done |].
    by apply changeTypeMap_None. }
  split.
  { intros f1 Hf1 Hnot. apply parseInodeChange_unknown_inode with f1; [done |].
    by apply inodeTypeMap_None. }
  split.
  { intros Hf0 Hlen. apply parseInodeChange_field_count with "R" Renamed; [done.. |].
    cbn [check_field_count]. by destruct (Z.eqb_spec (Z.of_nat (length line)) 4); [lia |]. }
  split.
  { intros Hf0 Hl3 Hl4. apply parseInodeChange_field_count with "M" Modified; [done.. |].
    cbn [check_field_count].
    destruct (Z.eqb_spec (Z.of_nat (length line)) 4); [lia |].
    by destruct (Z.eqb_spec (Z.of_nat (length line)) 3); [lia |]. }
  intros f0 Hf0 Hin Hlen.
  apply elem_of_cons in Hin as [-> | Hin];
    [| apply elem_of_cons in Hin as [-> | Hin]; [| by apply elem_of_nil in Hin]].
  - apply parseInodeChange_field_count with "-" Removed; [done.. |].
    cbn [check_field_count]. by destruct (Z.eqb_spec (Z.of_nat (length line)) 3); [lia |].
  - apply parseInodeChange_field_count with "+" Created; [done.. |].
    cbn [check_field_count]. by destruct (Z.eqb_spec (Z.of_nat (length line)) 3); [lia |].
Qed.

Lemma parseInodeChange_rejects_witness :
  parseInodeChange ["X"; "F"; "/a"] = Done (None, Some (EUnknownChangeType "X"))
  /\ (exists e, parseInodeChange ["+"; "x"; "/a"] = Done (None, Some e)
                /\ is_format_error e = true)
  /\ parseInodeChange ["R"; "F"; "/a"] = Done (None, Some (EFieldCount4 3))
  /\ parseInodeChange ["M"; "F"] = Done (None, Some (EFieldCount34 2))
  /\ parseInodeChange ["-"; "F"; "/a"; "/b"] = Done (None, Some (EFieldCount3 4)).
Proof.
  split.
  { destruct (parseInodeChange_rejects ["X"; "F"; "/a"]) as (_ & _ & H & _).
    apply (H "X"); [reflexivity |]. apply (bool_decide_unpack _). by vm_compute. }
  split.
  { destruct (parseInodeChange_rejects ["+"; "x"; "/a"]) as (_ & _ & _ & H & _).
    apply (H "x"); [reflexivity |]. apply (bool_decide_unpack _). by vm_compute. }
  split.
  { destruct (parseInodeChange_rejects ["R"; "F"; "/a"]) as (_ & _ & _ & _ & H & _).
    apply H; [reflexivity | cbn; lia]. }
  split.
  { destruct (parseInodeChange_rejects ["M"; "F"]) as (_ & _ & _ & _ & _ & H & _).
    apply H; [reflexivity | cbn; lia | cbn; lia]. }
  destruct (parseInodeChange_rejects ["-"; "F"; "/a"; "/b"]) as (_ & _ & _ & _ & _ & _ & H).
  apply (H "-"); [reflexivity | | cbn; lia].
  apply (bool_decide_unpack _). by vm_compute.
Defined.

(** C10.  In every InodeChange that parseInodeChange returns, NewPath is
    non-empty only for Renamed, and ReferenceCountChange is nonzero only
    for Modified on a line of four fields; otherwise NewPath is the
    empty string and ReferenceCountChange is zero.  No error comes with
    a change. *)
Theorem parseInodeChange_invariant line c e :
  parseInodeChange line = Done (Some c, e) ->
  e = None
  /\ (NewPath c <> "" -> Change c = Renamed)
  /\ (ReferenceCountChange c <> 0 -> Change c = Modified /\ length line = 4%nat)
  /\ (Change c <> Renamed -> NewPath c = "")
  /\ (~ (Change c = Modified /\ length line = 4%nat) -> ReferenceCountChange c = 0).
Proof.
  intros H. apply parseInodeChange_success in H
    as (-> & f0 & f1 & f2 & tl & -> & Hct & _ & _ & Hcase).
  split; [done |].
  destruct (Change c); try (by apply changeTypeMap_known in Hct).
  - destruct Hcase as (-> & -> & ->). repeat split; intros; congruence.
  - destruct Hcase as (-> & -> & ->). repeat split; intros; congruence.
  - destruct Hcase as (-> & [(-> & ->) | (f3 & -> & Hrc)]);
      repeat split; intros; try congruence.
    match goal with H : ~ _ |- _ => by destruct H end.
  - destruct Hcase as (f3 & -> & _ & ->). repeat split; intros; congruence.
Qed.

Lemma parseInodeChange_invariant_witness :
  (NewPath (mkInodeChange Modified Directory "/a" "" 1) <> "" ->
   Change (mkInodeChange Modified Directory "/a" "" 1) = Renamed)
  /\ (ReferenceCountChange (mkInodeChange Modified Directory "/a" "" 1) <> 0 ->
      Change (mkInodeChange Modified Directory "/a" "" 1) = Modified
      /\ length ["M"; "/"; "/a"; "(+1)"] = 4%nat).
Proof.
  destruct (parseInodeChange_invariant ["M"; "/"; "/a"; "(+1)"]
              (mkInodeChange Modified Directory "/a" "" 1) None
              ltac:(vm_compute; reflexivity)) as (_ & H1 & H2 & _).
  exact (conj H1 H2).
Defined.

(** parseReferenceCount on a field whose leftmost group is (sg ds). *)
Lemma parseReferenceCount_group pre sg ds post :
  is_sign sg = true -> all_digits ds = true -> ds <> "" ->
  leftmost_group pre sg ds post ->
  parseReferenceCount (pre ++ ref_group sg ds ++ post) =
    if fits_int (signed sg (dec_value ds)) then Done (signed sg (dec_value ds), None)
    else Done (if Ascii.eqb sg "-" then - 2 ^ 63 else 2 ^ 63 - 1,
               Some (ENum (mkNumError strconv.fnAtoi (String sg ds) ErrRange))).
Proof.
  intros Hsg Hds Hne Hleft.
  rewrite parseReferenceCount_eq, FindStringSubmatch_intro by done.
  cbn [lookup list_lookup from_option id].
  change (default "" ([ref_group sg ds; String sg ds] !! 1%nat)) with (String sg ds).
  rewrite Atoi_signed_digits by done.
  by destruct (fits_int _).
Qed.

(** A group at the start of the field is its leftmost group. *)
Lemma leftmost_group_start sg ds post : leftmost_group "" sg ds post.
Proof. intros pre' ? ? ? _ _ _ _. cbn. lia. Qed.

(** Every field has no group or has a leftmost one. *)
Lemma ref_group_cases f3 :
  ~ has_ref_group f3
  \/ exists pre sg ds post,
       is_sign sg = true /\ all_digits ds = true /\ ds <> ""
       /\ f3 = pre ++ ref_group sg ds ++ post
       /\ leftmost_group pre sg ds post.
Proof.
  destruct (FindStringSubmatch f3) as [matches |] eqn:Hf.
  - right. by apply FindStringSubmatch_leftmost in Hf.
  - left. by apply FindStringSubmatch_None.
Qed.

Lemma parseReferenceCount_no_group f :
  ~ has_ref_group f -> parseReferenceCount f = Done (0, Some ERegexpNoMatch).
Proof.
  intros H%FindStringSubmatch_None. by rewrite parseReferenceCount_eq, H.
Qed.

(** A Modified line of four fields with a known inode code and a path
    that decodes: the result is that of parseReferenceCount on field 3. *)
Lemma parseInodeChange_modified4 f1 f2 f3 ty path :
  inodeTypeMap !! f1 = Some ty -> unescapeFilepath f2 = (path, None) ->
  parseInodeChange ["M"; f1; f2; f3] =
    r ← parseReferenceCount f3;
    match r with
    | (_, Some err) => Done (None, Some (EParseRefCount err))
    | (n, None) => Done (Some (mkInodeChange Modified ty path "" n), None)
    end.
Proof.
  intros Hty Hpath. unfold parseInodeChange.
  change (changeTypeMap !! "M") with (Some Modified).
  cbn -[inodeTypeMap unescapeFilepath parseReferenceCount].
  rewrite Hty. cbn -[inodeTypeMap unescapeFilepath parseReferenceCount].
  destruct (decide (ty = InodeUnknown)) as [-> |];
    [by apply inodeTypeMap_known in Hty |].
  by rewrite Hpath.
Qed.

(** C4, as amended.  On a Modified line of four fields whose inode code
    is known and whose path decodes, field 3 is searched for a group
    (+N) or (-N), N one or more decimal digits, and the leftmost group
    of the field decides, whatever stands in front of it and behind it:
    it gives the signed integer as ReferenceCountChange when that fits a
    64-bit int, and the error wrapping the range failure of Atoi when it
    does not.  A field that is exactly a group is the case without text
    around it.  A field that contains no group gives the error regexp
    does not match.  Every field has a leftmost group or none, so these
    are all the cases. *)
Theorem parseInodeChange_reference_count f1 f2 ty path :
  inodeTypeMap !! f1 = Some ty -> unescapeFilepath f2 = (path, None) ->
  (forall sg ds,
     is_sign sg = true -> all_digits ds = true -> ds <> "" ->
     fits_int (signed sg (dec_value ds)) = true ->
     parseInodeChange ["M"; f1; f2; ref_group sg ds]
     = Done (Some (mkInodeChange Modified ty path "" (signed sg (dec_value ds))), None))
  /\ (forall pre sg ds post,
        is_sign sg = true -> all_digits ds = true -> ds <> "" ->
        leftmost_group pre sg ds post ->
        fits_int (signed sg (dec_value ds)) = true ->
        parseInodeChange ["M"; f1; f2; pre ++ ref_group sg ds ++ post]
        = Done (Some (mkInodeChange Modified ty path "" (signed sg (dec_value ds))),
                None))
  /\ (forall pre sg ds post,
        is_sign sg = true -> all_digits ds = true -> ds <> "" ->
        leftmost_group pre sg ds post ->
        fits_int (signed sg (dec_value ds)) = false ->
        parseInodeChange ["M"; f1; f2; pre ++ ref_group sg ds ++ post]
        = Done (None,
                Some (EParseRefCount
                        (ENum (mkNumError strconv.fnAtoi (String sg ds) ErrRange)))))
  /\ (forall f3,
        ~ has_ref_group f3 ->
        parseInodeChange ["M"; f1; f2; f3]
        = Done (None, Some (EParseRefCount ERegexpNoMatch)))
  /\ (forall f3,
        ~ has_ref_group f3
        \/ exists pre sg ds post,
             is_sign sg = true /\ all_digits ds = true /\ ds <> ""
             /\ f3 = pre ++ ref_group sg ds ++ post
             /\ leftmost_group pre sg ds post).
Proof.
  intros Hty Hpath.
  assert (Hin : forall pre sg ds post,
             is_sign sg = true -> all_digits ds = true -> ds <> "" ->
             leftmost_group pre sg ds post ->
             fits_int (signed sg (dec_value ds)) = true ->
             parseInodeChange ["M"; f1; f2; pre ++ ref_group sg ds ++ post]
             = Done (Some (mkInodeChange Modified ty path ""
                             (signed sg (dec_value ds))), None)).
  { intros pre sg ds post Hsg Hds Hne Hleft Hfit.
    rewrite (parseInodeChange_modified4 _ _ _ ty path) by done.
    by rewrite parseReferenceCount_group, Hfit by done. }
  split; [| split; [done |]; split; [| split; [| apply ref_group_cases]]].
  - intros sg ds Hsg Hds Hne Hfit.
    specialize (Hin "" sg ds "" Hsg Hds Hne (leftmost_group_start sg ds "") Hfit).
    by rewrite string_app_nil_l, string_app_nil_r in Hin.
  - intros pre sg ds post Hsg Hds Hne Hleft Hfit.
    rewrite (parseInodeChange_modified4 _ _ _ ty path) by done.
    by rewrite parseReferenceCount_group, Hfit by done.
  - intros f3 Hno.
    rewrite (parseInodeChange_modified4 _ _ _ ty path) by done.
    by rewrite parseReferenceCount_no_group.
Qed.

Lemma not_has_ref_group_notanumber : ~ has_ref_group "(notanumber)".
Proof. apply FindStringSubmatch_None. reflexivity. Qed.

(** The groups of three fields are their leftmost groups: behind a
    letter, behind an opening parenthesis, and behind a parenthesised
    text that is no group. *)
Lemma leftmost_group_letter : leftmost_group "x" "-" "12" "y".
Proof.
  intros pre' sg' ds' post' Hsg _ _ E.
  destruct pre' as [| c0 pre']; [| cbn [String.length]; lia].
  unfold ref_group in E. rewrite !string_app_cons, !string_app_nil_l in E.
  discriminate E.
Qed.

Lemma leftmost_group_paren : leftmost_group "(" "+" "1" "".
Proof.
  intros pre' sg' ds' post' Hsg _ _ E.
  destruct pre' as [| c0 pre']; [| cbn [String.length]; lia].
  unfold ref_group in E. rewrite !string_app_cons, !string_app_nil_l in E.
  injection E as <- _. discriminate Hsg.
Qed.

Lemma leftmost_group_text : leftmost_group "(x)" "-" "7" "".
Proof.
  intros pre' sg' ds' post' Hsg _ _ E.
  unfold ref_group in E. rewrite !string_app_cons, !string_app_nil_l in E.
  destruct pre' as [| c0 [| c1 [| c2 pre']]]; [| | | cbn [String.length]; lia].
  - rewrite !string_app_nil_l in E. injection E as <- _. discriminate Hsg.
  - rewrite !string_app_cons, !string_app_nil_l in E. discriminate E.
  - rewrite !string_app_cons, !string_app_nil_l in E. discriminate E.
Qed.

Lemma parseInodeChange_reference_count_witness :
  parseInodeChange ["M"; "/"; "/testpool/bar/hello.txt"; "(+1)"]
  = Done (Some (mkInodeChange Modified Directory "/testpool/bar/hello.txt" "" 1), None)
  /\ parseInodeChange ["M"; "/"; "/testpool/bar/hello.txt"; "x(-12)y"]
     = Done (Some (mkInodeChange Modified Directory "/testpool/bar/hello.txt" "" (-12)),
             None)
  /\ parseInodeChange ["M"; "/"; "/testpool/bar/hello.txt"; "((+1)"]
     = Done (Some (mkInodeChange Modified Directory "/testpool/bar/hello.txt" "" 1), None)
  /\ parseInodeChange ["M"; "/"; "/testpool/bar/hello.txt"; "(x)(-7)"]
     = Done (Some (mkInodeChange Modified Directory "/testpool/bar/hello.txt" "" (-7)),
             None)
  /\ parseInodeChange ["M"; "/"; "/testpool/bar/hello.txt"; "(+9223372036854775808)"]
     = Done (None,
             Some (EParseRefCount
                     (ENum (mkNumError strconv.fnAtoi "+9223372036854775808" ErrRange))))
  /\ parseInodeChange ["M"; "/"; "/testpool/bar/hello.txt"; "(notanumber)"]
     = Done (None, Some (EParseRefCount ERegexpNoMatch)).
Proof.
  destruct (parseInodeChange_reference_count "/" "/testpool/bar/hello.txt"
              Directory "/testpool/bar/hello.txt" eq_refl eq_refl)
    as (Hexact & Hin & Hrange & Hno & _).
  split; [exact (Hexact "+"%char "1" eq_refl eq_refl ltac:(discriminate) eq_refl) |].
  split; [exact (Hin "x" "-"%char "12" "y" eq_refl eq_refl ltac:(discriminate)
                   leftmost_group_letter eq_refl) |].
  split; [exact (Hin "(" "+"%char "1" "" eq_refl eq_refl ltac:(discriminate)
                   leftmost_group_paren eq_refl) |].
  split; [exact (Hin "(x)" "-"%char "7" "" eq_refl eq_refl ltac:(discriminate)
                   leftmost_group_text eq_refl) |].
  split; [exact (Hrange "" "+"%char "9223372036854775808" "" eq_refl eq_refl
                   ltac:(discriminate)
                   (leftmost_group_start "+"%char "9223372036854775808" "") eq_refl) |].
  exact (Hno "(notanumber)" not_has_ref_group_notanumber).
Defined.

(** C4 as stated fails: a field 3 that merely contains a group among
    other characters is accepted, and a group whose number does not fit
    an int is rejected. *)
Lemma parseInodeChange_accepts_embedded_group :
  (forall sg ds, "x(+1)y" <> ref_group sg ds)
  /\ parseInodeChange ["M"; "/"; "/testpool/bar/hello.txt"; "x(+1)y"]
     = Done (Some (mkInodeChange Modified Directory "/testpool/bar/hello.txt" "" 1), None)
  /\ parseInodeChange ["M"; "/"; "/testpool/bar/hello.txt";
                       ref_group "+" "9223372036854775808"]
     = Done (None,
             Some (EParseRefCount
                     (ENum (mkNumError strconv.fnAtoi "+9223372036854775808" ErrRange)))).
Proof.
  split; [| split; reflexivity].
  intros sg ds. unfold ref_group. discriminate.
Qed.

(** ** The batch parser *)

Lemma store_in_range {A} (l : list A) i x :
  (i < length l)%nat -> store l i x = Done (<[i := x]> l).
Proof. intros H. unfold store. by rewrite bool_decide_eq_true_2. Qed.

(** The loop from index [i]: either every remaining line parses and the
    slots from [i] on are filled in order, or the first failing line
    ends the loop with its index and nothing else. *)
Lemma parseInodeChanges_loop_spec lines i changes :
  (i + length lines <= length changes)%nat ->
  (exists cs,
     Forall2 parses lines cs
     /\ parseInodeChanges_loop lines i changes
        = Done ((take i changes ++ (Some <$> cs)
                 ++ drop (i + length lines) changes)%list, None))
  \/ (exists k line e,
        lines !! k = Some line
        /\ parseInodeChange line = Done (None, Some e)
        /\ (forall j l', (j < k)%nat -> lines !! j = Some l' -> exists c, parses l' c)
        /\ parseInodeChanges_loop lines i changes
           = Done ([], Some (EParseLine (Z.of_nat (i + k)) e line))).
Proof.
  revert i changes. induction lines as [| line rest IH]; intros i changes Hlen.
  { left. exists []. split; [constructor |]. cbn [parseInodeChanges_loop fmap list_fmap length].
    rewrite Nat.add_0_r. cbn [app]. by rewrite take_drop. }
  cbn [length] in Hlen. cbn [parseInodeChanges_loop].
  destruct (parseInodeChange_total line) as (r & Hr & [(e & -> & _) | (c & ->)]);
    rewrite Hr; cbn [mbind outcome_bind].
  - right. exists 0%nat, line, e. rewrite Nat.add_0_r.
    repeat split; try done. intros j l' Hj. lia.
  - rewrite store_in_range by lia. cbn [mbind outcome_bind].
    destruct (IH (S i) (<[i := Some c]> changes)) as
        [(cs & Hcs & Hloop) | (k & l & e & Hk & He & Hbefore & Hloop)].
    { rewrite length_insert. lia. }
    + left. exists (c :: cs). split; [by constructor |]. rewrite Hloop.
      do 2 f_equal.
      rewrite drop_insert_lt by lia.
      assert (Hi : (i < length changes)%nat) by lia.
      rewrite (take_S_r _ _ (Some c)) by (by apply list_lookup_insert_eq).
      rewrite take_insert_ge by lia.
      cbn [length fmap list_fmap]. rewrite <- app_assoc. cbn [app].
      by replace (S i + length rest)%nat with (i + S (length rest))%nat by lia.
    + right. exists (S k), l, e. repeat split; try done.
      * intros [| j] l' Hj Hl'.
        -- injection Hl' as <-. by exists c.
        -- apply (Hbefore j); [lia | done].
      * rewrite Hloop. by replace (S i + k)%nat with (i + S k)%nat by lia.
Qed.

(** C6.  The batch parser returns either one InodeChange per line, in
    the order of the lines, and no error; or, when some line fails, the
    error of the first failing line with its zero-based index and its
    raw content, and the empty result.  It never panics. *)
Theorem parseInodeChanges_all_or_nothing lines :
  (exists cs,
     Forall2 (fun line c => parseInodeChange line = Done (Some c, None)) lines cs
     /\ parseInodeChanges lines = Done (Some <$> cs, None))
  \/ (exists k line e,
        lines !! k = Some line
        /\ parseInodeChange line = Done (None, Some e)
        /\ (forall j l', (j < k)%nat -> lines !! j = Some l' ->
              exists c, parseInodeChange l' = Done (Some c, None))
        /\ parseInodeChanges lines
           = Done ([], Some (EParseLine (Z.of_nat k) e line))).
Proof.
  unfold parseInodeChanges.
  destruct (parseInodeChanges_loop_spec lines 0 (replicate (length lines) None))
    as [(cs & Hcs & Hloop) | (k & l & e & Hk & He & Hbefore & Hloop)].
  { rewrite length_replicate. lia. }
  - left. exists cs. split; [done |]. rewrite Hloop.
    rewrite drop_ge by (rewrite length_replicate; lia).
    cbn [take app]. by rewrite app_nil_r.
  - right. exists k, l, e. repeat split; try done.
Qed.

(** ** strings.Split and strings.Fields *)

Lemma Split_nonempty s sep : strings.Split s sep <> [].
Proof.
  destruct s as [| c s]; [done |]. cbn [strings.Split].
  destruct (Ascii.eqb c sep); [done |]. by destruct (strings.Split s sep).
Qed.

Lemma Split_no_sep s : no_newline s = true -> strings.Split s newline = [s].
Proof.
  induction s as [| c s IH]; [done |]. cbn [no_newline strings.Split].
  intros [Hc Hs]%andb_prop. destruct (Ascii.eqb c newline); [done |].
  by rewrite IH.
Qed.

Lemma Split_line l rest :
  no_newline l = true ->
  strings.Split (l ++ String newline rest) newline = l :: strings.Split rest newline.
Proof.
  induction l as [| c l IH]; [done |]. cbn [no_newline].
  intros [Hc Hl]%andb_prop. rewrite string_app_cons. cbn [strings.Split].
  destruct (Ascii.eqb c newline); [done |]. by rewrite IH.
Qed.

Lemma Split_unlines lines tail :
  Forall (fun l => no_newline l = true) lines -> no_newline tail = true ->
  strings.Split (unlines lines ++ tail) newline = (lines ++ [tail])%list.
Proof.
  intros Hlines Htail. induction Hlines as [| l lines Hl _ IH].
  - rewrite string_app_nil_l. by apply Split_no_sep.
  - cbn [unlines]. rewrite string_app_assoc, string_app_cons.
    rewrite Split_line by done. by rewrite IH.
Qed.

(** Every output is a sequence of newline-terminated lines followed by
    a rest without a newline. *)
Lemma unlines_decompose s :
  exists lines tail,
    Forall (fun l => no_newline l = true) lines /\ no_newline tail = true
    /\ s = unlines lines ++ tail.
Proof.
  induction s as [| c s (lines & tail & Hlines & Htail & ->)].
  - by exists [], "".
  - destruct (Ascii.eqb_spec c newline) as [-> | Hc].
    + exists ("" :: lines), tail.
      split; [by constructor |]. split; [done |].
      cbn [unlines]. by rewrite string_app_nil_l, string_app_cons.
    + assert (Hc' : negb (Ascii.eqb c newline) = true)
        by (by destruct (Ascii.eqb_spec c newline)).
      destruct Hlines as [| l lines Hl Hlines].
      * exists [], (String c tail). split; [done |]. split.
        -- cbn [no_newline]. by rewrite Hc', Htail.
        -- by rewrite !string_app_nil_l.
      * exists (String c l :: lines), tail. split; [| split; [done |]].
        -- constructor; [| done]. cbn [no_newline]. by rewrite Hc', Hl.
        -- cbn [unlines]. by rewrite !string_app_cons.
Qed.

Lemma removelast_snoc {A} (l : list A) x : removelast (l ++ [x]) = l.
Proof. apply removelast_last. Qed.

(** run on a failing command, and on a successful one with a sink. *)
Lemma run_exec_error z in_ out cmd args err :
  exec_err (invoke z in_ cmd args) = Some err ->
  run z in_ out cmd args
  = ([], Some (EExec err
                 (strings.Join [(command_line z cmd args).1;
                                strings.Join (command_line z cmd args).2 " "] " ")
                 (exec_stderr (invoke z in_ cmd args)))).
Proof.
  unfold invoke, command_line, run. destruct (sudo z); cbn [fst snd]; by intros ->.
Qed.

Lemma run_sink z in_ sink cmd args :
  exec_err (invoke z in_ cmd args) = None ->
  run z in_ (Some sink) cmd args = ([], None).
Proof.
  unfold invoke, command_line, run. destruct (sudo z); cbn [fst snd]; by intros ->.
Qed.

(** run on a successful command without a sink. *)
Lemma run_buffered_eq z in_ cmd args :
  exec_err (invoke z in_ cmd args) = None ->
  run z in_ None cmd args
  = (map strings.Fields
       (removelast (strings.Split (exec_stdout (invoke z in_ cmd args)) newline)),
     None).
Proof.
  unfold invoke, command_line, run. destruct (sudo z); cbn [fst snd]; by intros ->.
Qed.
Ltac zb_cases :=
  repeat match goal with
         | |- context [Z.eqb ?a ?b] => destruct (Z.eqb_spec a b); cbn [andb orb negb]; try lia
         | |- context [Z.leb ?a ?b] => destruct (Z.leb_spec a b); cbn [andb orb negb]; try lia
         | H : context [Z.eqb ?a ?b] |- _ => destruct (Z.eqb_spec a b); cbn [andb orb negb] in H; try lia
         | H : context [Z.leb ?a ?b] |- _ => destruct (Z.leb_spec a b); cbn [andb orb negb] in H; try lia
         end.

Lemma space_width_le s : (strings.space_width s <= String.length s)%nat.
Proof.
  destruct s as [| c0 [| c1 [| c2 s]]]; cbn [strings.space_width String.length];
    unfold strings.asciiSpace; zb_cases; lia.
Qed.

Lemma space_width_app y z k :
  strings.space_width y = S k -> strings.space_width (y ++ z) = S k.
Proof.
  destruct y as [| c0 [| c1 [| c2 y]]]; rewrite ?string_app_cons; try done.
  - cbn [strings.space_width]. unfold strings.asciiSpace. rewrite string_app_nil_l.
    zb_cases; try done.
  - cbn [strings.space_width]. unfold strings.asciiSpace. rewrite string_app_nil_l.
    zb_cases; try done. all: destruct z; zb_cases; try done.
Qed.

Lemma asciiSpace_small v : strings.asciiSpace v = true -> 9 <= v <= 32.
Proof. unfold strings.asciiSpace. lia. Qed.

Lemma space_width_ascii w b :
  strings.asciiSpace (byte_val w) = true -> strings.space_width (String w b) = 1%nat.
Proof. intros H. cbn [strings.space_width]. by rewrite H. Qed.

Lemma space_width_before_space s w b :
  strings.asciiSpace (byte_val w) = true -> s <> "" ->
  strings.space_width (s ++ String w b) = strings.space_width s.
Proof.
  intros Hw%asciiSpace_small Hs.
  destruct s as [| c0 [| c1 [| c2 s]]]; rewrite ?string_app_cons, ?string_app_nil_l; try done.
  - cbn [strings.space_width]. destruct (strings.asciiSpace (byte_val c0)); [done |].
    zb_cases; try done. all: destruct b; zb_cases; try done.
  - cbn [strings.space_width]. destruct (strings.asciiSpace (byte_val c0)); [done |].
    zb_cases; try done.
Qed.

Lemma flush_app cur (xs ys : list string) :
  strings.flush cur (xs ++ ys)%list = (strings.flush cur xs ++ ys)%list.
Proof. unfold strings.flush. by destruct (String.eqb cur ""). Qed.

(** Fields cuts at an ASCII white space byte. *)
Lemma fields_loop_app a w b :
  strings.asciiSpace (byte_val w) = true ->
  forall skip cur,
    (skip <= String.length a)%nat ->
    strings.fields_loop (a ++ String w b) skip cur
    = (strings.fields_loop a skip cur ++ strings.Fields b)%list.
Proof.
  intros Hw. induction a as [| c a IH]; intros skip cur Hskip.
  - cbn [String.length] in Hskip. assert (skip = 0%nat) as -> by lia.
    rewrite string_app_nil_l. cbn [strings.fields_loop].
    rewrite space_width_ascii by done.
    by rewrite <- flush_app.
  - rewrite string_app_cons. cbn [String.length] in Hskip.
    cbn [strings.fields_loop]. destruct skip as [| k]; [| apply IH; lia].
    rewrite <- string_app_cons, space_width_before_space by done.
    pose proof (space_width_le (String c a)) as Hle. cbn [String.length] in Hle.
    destruct (strings.space_width (String c a)) as [| k]; [apply IH; lia |].
    rewrite IH by lia. by rewrite flush_app.
Qed.

Lemma Fields_app_space a w b :
  strings.asciiSpace (byte_val w) = true ->
  strings.Fields (a ++ String w b) = (strings.Fields a ++ strings.Fields b)%list.
Proof. intros Hw. apply fields_loop_app; [done | lia]. Qed.

(** A text without white space is one field. *)
Lemma fields_loop_token s cur :
  has_space s = false -> strings.fields_loop s 0 cur = strings.flush (cur ++ s) [].
Proof.
  revert cur. induction s as [| c s IH]; intros cur.
  - intros _. cbn. by rewrite string_app_nil_r.
  - cbn [has_space]. intros [Hc Hs]%orb_false_elim.
    cbn [strings.fields_loop].
    destruct (strings.space_width (String c s)); [| done].
    rewrite IH by done. by rewrite string_app_assoc.
Qed.

Lemma Fields_token s :
  s <> "" -> has_space s = false -> strings.Fields s = [s].
Proof.
  intros Hne Hs. unfold strings.Fields. rewrite fields_loop_token by done.
  rewrite string_app_nil_l. unfold strings.flush.
  by destruct (String.eqb_spec s "").
Qed.

Lemma clean_snoc cur c rest :
  clean (cur ++ String c "") rest
  = clean cur (String c rest) && Nat.eqb (strings.space_width (String c rest)) 0.
Proof.
  assert (Hassoc : forall u, (u ++ String c "") ++ rest = u ++ String c rest).
  { intros u. by rewrite string_app_assoc, string_app_cons, string_app_nil_l. }
  induction cur as [| x cur IH].
  - rewrite string_app_nil_l. cbn [clean]. rewrite string_app_cons, string_app_nil_l.
    cbn [andb]. by rewrite andb_true_r.
  - rewrite string_app_cons. cbn [clean]. rewrite IH.
    rewrite !string_app_cons, Hassoc. by rewrite andb_assoc.
Qed.

Lemma clean_has_space cur rest : clean cur rest = true -> has_space cur = false.
Proof.
  induction cur as [| c cur IH]; [done |]. cbn [clean has_space].
  intros [Hc Hcur]%andb_prop. rewrite (IH Hcur), orb_false_r.
  destruct (strings.space_width (String c cur)) as [| k] eqn:Hw; [done |].
  by rewrite (space_width_app _ rest k Hw) in Hc.
Qed.

(** Every field that the scan returns is not empty and has no white
    space in it. *)
Lemma fields_loop_fields s skip cur :
  (skip = 0%nat -> clean cur s = true) -> (skip <> 0%nat -> cur = "") ->
  Forall is_field (strings.fields_loop s skip cur).
Proof.
  revert skip cur. induction s as [| c s IH]; intros skip cur Hclean Hcur.
  - cbn [strings.fields_loop]. unfold strings.flush.
    destruct (String.eqb_spec cur "") as [| Hne]; [done |].
    constructor; [| done]. split; [done |].
    destruct skip; [| by destruct Hne; apply Hcur].
    by apply (clean_has_space cur ""), Hclean.
  - cbn [strings.fields_loop]. destruct skip as [| k].
    + specialize (Hclean eq_refl).
      destruct (strings.space_width (String c s)) as [| k] eqn:Hw.
      * apply IH; [| done]. intros _. by rewrite clean_snoc, Hclean, Hw.
      * unfold strings.flush. destruct (String.eqb_spec cur "") as [| Hne].
        -- apply IH; [by intros _; destruct s | done].
        -- constructor.
           ++ split; [done |]. by apply (clean_has_space cur (String c s)).
           ++ apply IH; [by intros _; destruct s | done].
    + rewrite (Hcur ltac:(done)). apply IH; [by intros _; destruct s | done].
Qed.

Lemma Fields_fields s : Forall is_field (strings.Fields s).
Proof. apply fields_loop_fields; [by destruct s | done]. Qed.

(** C1, as amended.  When the command succeeds and no sink is given,
    run splits the captured stdout at the newline bytes, removes the
    last segment whatever it holds, and tokenizes each remaining line
    with Fields: for an output made of newline-terminated lines followed
    by a rest without a newline, the rows are the fields of the lines
    and the rest is dropped without an error.  Every output has that
    form.  Every field is non-empty and free of white space, a text
    without white space is one field, and a white space byte separates
    the fields before it from the fields after it. *)
Theorem run_buffered_table z in_ cmd args :
  exec_err (invoke z in_ cmd args) = None ->
  (forall lines tail,
     Forall (fun l => no_newline l = true) lines -> no_newline tail = true ->
     exec_stdout (invoke z in_ cmd args) = unlines lines ++ tail ->
     run z in_ None cmd args = (map strings.Fields lines, None))
  /\ (exists lines tail,
        Forall (fun l => no_newline l = true) lines /\ no_newline tail = true
        /\ exec_stdout (invoke z in_ cmd args) = unlines lines ++ tail)
  /\ Forall (Forall is_field) (run z in_ None cmd args).1
  /\ (forall s, s <> "" -> has_space s = false -> strings.Fields s = [s])
  /\ (forall a w b,
        strings.asciiSpace (byte_val w) = true ->
        strings.Fields (a ++ String w b) = (strings.Fields a ++ strings.Fields b)%list).
Proof.
  intros Hok. rewrite run_buffered_eq by done.
  split; [| split; [apply unlines_decompose |]; split; [| split]].
  - intros lines tail Hlines Htail ->.
    by rewrite Split_unlines, removelast_snoc.
  - cbn [fst]. apply List.Forall_map, Forall_true. intros line. apply Fields_fields.
  - apply Fields_token.
  - apply Fields_app_space.
Qed.

Lemma run_buffered_table_witness :
  run (mkzfs (fun _ _ _ => mkExecResult None (unlines ["NAME USED"; "tank  1024"]) "")
         false) None None "zfs" ["list"]
  = ([["NAME"; "USED"]; ["tank"; "1024"]], None).
Proof.
  destruct (run_buffered_table
              (mkzfs (fun _ _ _ => mkExecResult None (unlines ["NAME USED"; "tank  1024"]) "")
                 false) None "zfs" ["list"] eq_refl) as (H & _).
  exact (H ["NAME USED"; "tank  1024"] "" ltac:(repeat constructor) eq_refl eq_refl).
Defined.

(** C1 as stated fails: an output that does not end in a newline gives
    no error.  The text after the last newline is dropped and the lines
    before it are returned. *)
Lemma run_unterminated_output_no_error :
  let z := mkzfs (fun _ _ _ => mkExecResult None ("a b" ++ String newline "c d") "") false in
  no_newline "c d" = true
  /\ run z None None "zfs" ["list"] = ([["a"; "b"]], None)
  /\ ~ (exists e, (run z None None "zfs" ["list"]).2 = Some e).
Proof.
  cbn zeta. split; [reflexivity |]. split; [reflexivity |].
  intros [e He]. vm_compute in He. discriminate.
Qed.

(** ** The property mapper *)

Section PropertyMapper.

Variable ToLower : string -> string.
Variable dsPropList : list string.
Variable GOOS : string.

Lemma fill_props_pairs header values i m :
  Dataset.fill_props ToLower header values i m
  = write_pairs m (imap (fun j v => (ToLower v, default "-" (values !! (i + j)%nat))) header).
Proof.
  revert i m. induction header as [| v header IH]; intros i m; [done |].
  cbn [Dataset.fill_props]. rewrite IH. cbn [imap write_pairs foldl fst snd].
  rewrite Nat.add_0_r. unfold write_pairs. f_equal.
  apply imap_ext. intros j x _. cbn. by rewrite Nat.add_succ_r.
Qed.

Lemma fill_props_other header values i m k :
  k ∉ ToLower <$> header ->
  Dataset.fill_props ToLower header values i m !! k = m !! k.
Proof.
  revert i m. induction header as [| v header IH]; intros i m Hk; [done |].
  cbn [Dataset.fill_props]. rewrite fmap_cons in Hk.
  apply not_elem_of_cons in Hk as [Hne Hk].
  rewrite IH by done. by rewrite lookup_insert_ne.
Qed.

Lemma fill_props_last header values i m j v :
  header !! j = Some v ->
  (forall j' v', (j < j')%nat -> header !! j' = Some v' -> ToLower v' <> ToLower v) ->
  Dataset.fill_props ToLower header values i m !! ToLower v
  = Some (default "-" (values !! (i + j)%nat)).
Proof.
  revert i m j. induction header as [| x header IH]; intros i m j Hj Hlater; [done |].
  cbn [Dataset.fill_props]. destruct j as [| j].
  - injection Hj as ->. rewrite fill_props_other.
    + by rewrite lookup_insert_eq, Nat.add_0_r.
    + intros (v' & Heq & Hin)%list_elem_of_fmap.
      apply list_elem_of_lookup in Hin as [j' Hj'].
      by apply (Hlater (S j') v'); [lia | |].
  - rewrite (IH (S i) _ j); [by rewrite Nat.add_succ_r | done |].
    intros j' v' Hlt Hj'. apply (Hlater (S j') v'); [lia | done].
Qed.

Lemma fill_props_dom header values i m :
  dom (Dataset.fill_props ToLower header values i m)
  = dom m ∪ list_to_set (ToLower <$> header).
Proof.
  revert i m. induction header as [| v header IH]; intros i m.
  - cbn [Dataset.fill_props fmap list_fmap list_to_set].
    by rewrite (right_id_L ∅ (∪)).
  - cbn [Dataset.fill_props]. rewrite IH, dom_insert_L, fmap_cons. cbn [list_to_set].
    rewrite (comm_L (∪) {[ToLower v]} (dom m)). by rewrite (assoc_L (∪)).
Qed.

(** The coercions leave the table as it is. *)
Lemma assignString_props set k d :
  (forall x d', Dataset.props (set x d') = Dataset.props d') ->
  Dataset.props (Dataset.assignString set k d).1 = Dataset.props d.
Proof. intros Hset. unfold Dataset.assignString. cbn [fst]. apply Hset. Qed.

Lemma assignUint_props get set k d :
  (forall x d', Dataset.props (set x d') = Dataset.props d') ->
  Dataset.props (Dataset.assignUint get set k d).1 = Dataset.props d.
Proof.
  intros Hset. unfold Dataset.assignUint.
  destruct (setUint _ _) as [v [err |]]; cbn [fst]; [done | apply Hset].
Qed.

Lemma andThen_props a b d :
  (forall d', Dataset.props (a d').1 = Dataset.props d') ->
  (forall d', Dataset.props (b d').1 = Dataset.props d') ->
  Dataset.props (Dataset.andThen a b d).1 = Dataset.props d.
Proof.
  intros Ha Hb. unfold Dataset.andThen. specialize (Ha d).
  destruct (a d) as [d' [err |]]; cbn [fst] in *; [done |]. by rewrite Hb.
Qed.

Lemma coerce_props d : Dataset.props (Dataset.coerce GOOS d).1 = Dataset.props d.
Proof.
  unfold Dataset.coerce.
  repeat first
    [ apply andThen_props; intros ?
    | apply assignString_props; by intros ? []
    | apply assignUint_props; by intros ? [] ].
  destruct (String.eqb GOOS "solaris"); [done |].
  repeat first
    [ apply andThen_props; intros ?
    | apply assignUint_props; by intros ? [] ].
Qed.

Lemma parseProps_props d header values :
  Dataset.props (Dataset.parseProps ToLower dsPropList GOOS d [header; values]).1
  = Dataset.fill_props ToLower header values 0 (Dataset.props d).
Proof.
  unfold Dataset.parseProps.
  assert (Hset : forall m, Dataset.props (Dataset.set_props m d) = m) by (by destruct d).
  cbv zeta. case_bool_decide; [cbn [fst]; apply Hset |].
  by rewrite coerce_props, Hset.
Qed.

(** C7.  A row table that does not hold exactly two rows is an error
    of the format kind.  With a header row and a value row, the table of
    the dataset receives, in the order of the header, the lowercased
    header field at index j with the value field at index j, or with the
    sentinel when the value row is shorter; a key keeps the pair of the
    last header field that lowercases to it, and the keys that no header
    field names keep what they held.  The call is rejected with the same
    error when the size of the table does not exceed the length of the
    property list, and goes on to the coercions when it does. *)
Theorem parseProps_table d out :
  (length out <> 2%nat ->
   Dataset.parseProps ToLower dsPropList GOOS d out = (d, Some EUnexpectedOutput))
  /\ (forall header values,
        out = [header; values] ->
        let table :=
          Dataset.props (Dataset.parseProps ToLower dsPropList GOOS d out).1 in
        table = write_pairs (Dataset.props d) (paired ToLower header values)
        /\ (forall j v,
              header !! j = Some v ->
              (forall j' v', (j < j')%nat -> header !! j' = Some v' ->
                             ToLower v' <> ToLower v) ->
              (forall x, values !! j = Some x -> table !! ToLower v = Some x)
              /\ ((length values <= j)%nat -> table !! ToLower v = Some "-"))
        /\ (forall k, k ∉ ToLower <$> header -> table !! k = Dataset.props d !! k)
        /\ dom table = dom (Dataset.props d) ∪ list_to_set (ToLower <$> header)
        /\ ((size table <= length dsPropList)%nat ->
            Dataset.parseProps ToLower dsPropList GOOS d out
            = (Dataset.set_props table d, Some EUnexpectedOutput))
        /\ ((length dsPropList < size table)%nat ->
            Dataset.parseProps ToLower dsPropList GOOS d out
            = Dataset.coerce GOOS (Dataset.set_props table d))).
Proof.
  split.
  { intros Hlen. unfold Dataset.parseProps.
    by destruct out as [| ? [| ? [| ? ?]]]. }
  intros header values -> table. subst table. rewrite parseProps_props.
  split; [apply fill_props_pairs |].
  split.
  { intros j v Hj Hlater.
    pose proof (fill_props_last header values 0 (Dataset.props d) j v Hj Hlater) as H.
    cbn [Nat.add] in H. split.
    - intros x Hx. by rewrite H, Hx.
    - intros Hge. by rewrite H, lookup_ge_None_2. }
  split; [intros k Hk; by apply fill_props_other |].
  split; [apply fill_props_dom |].
  assert (Hset : forall m, Dataset.props (Dataset.set_props m d) = m) by (by destruct d).
  unfold Dataset.parseProps. cbv zeta. rewrite Hset. split; intros Hsize.
  - by rewrite bool_decide_eq_true_2.
  - by rewrite bool_decide_eq_false_2 by lia.
Qed.

End PropertyMapper.

Lemma witness_header_used j' v' :
  (1 < j')%nat -> ["NAME"; "USED"; "AVAIL"] !! j' = Some v' ->
  ToLowerASCII v' <> ToLowerASCII "USED".
Proof.
  destruct j' as [| [| [| j']]]; intros Hlt Hj'; try lia; try discriminate.
  injection Hj' as <-. vm_compute. discriminate.
Qed.

Lemma witness_header_avail j' v' :
  (2 < j')%nat -> ["NAME"; "USED"; "AVAIL"] !! j' = Some v' ->
  ToLowerASCII v' <> ToLowerASCII "AVAIL".
Proof.
  destruct j' as [| [| [| j']]]; intros Hlt Hj'; try lia; discriminate.
Qed.

Lemma parseProps_table_witness :
  Dataset.parseProps ToLowerASCII ["name"; "used"; "avail"] "linux" (Dataset.new "tank") []
  = (Dataset.new "tank", Some EUnexpectedOutput)
  /\ Dataset.props
       (Dataset.parseProps ToLowerASCII ["name"; "used"; "avail"] "linux"
          (Dataset.new "tank") [["NAME"; "USED"; "AVAIL"]; ["tank"; "1024"]]).1
     !! ToLowerASCII "USED" = Some "1024"
  /\ Dataset.props
       (Dataset.parseProps ToLowerASCII ["name"; "used"; "avail"] "linux"
          (Dataset.new "tank") [["NAME"; "USED"; "AVAIL"]; ["tank"; "1024"]]).1
     !! ToLowerASCII "AVAIL" = Some "-"
  /\ (Dataset.parseProps ToLowerASCII ["name"; "used"; "avail"] "linux"
        (Dataset.new "tank") [["NAME"; "USED"; "AVAIL"]; ["tank"; "1024"]]).2
     = Some EUnexpectedOutput.
Proof.
  split.
  { destruct (parseProps_table ToLowerASCII ["name"; "used"; "avail"] "linux"
                (Dataset.new "tank") []) as [H _].
    apply H. cbn. lia. }
  destruct (parseProps_table ToLowerASCII ["name"; "used"; "avail"] "linux"
              (Dataset.new "tank")
              [["NAME"; "USED"; "AVAIL"]; ["tank"; "1024"]]) as [_ H].
  destruct (H ["NAME"; "USED"; "AVAIL"] ["tank"; "1024"] eq_refl)
    as (_ & Hlook & _ & _ & Hsmall & _).
  pose proof (Hlook 1%nat "USED" eq_refl witness_header_used) as [Hused _].
  pose proof (Hlook 2%nat "AVAIL" eq_refl witness_header_avail) as [_ Havail].
  split; [exact (Hused "1024" eq_refl) |].
  split; [exact (Havail ltac:(cbn; lia)) |].
  rewrite Hsmall; [reflexivity |].
  apply (bool_decide_unpack _). vm_compute. reflexivity.
Defined.

(** ** The listing *)

Lemma doOutput_fields z arg out :
  doOutput z arg = (out, None) -> Forall (Forall is_field) out.
Proof.
  unfold doOutput, run. destruct (sudo z).
  all: destruct (exec_err _); [done |]; intros [= <-].
  all: apply List.Forall_map, Forall_true; intros line; apply Fields_fields.
Qed.

Section ListingProofs.

Variable ToLower : string -> string.
Variable dsPropList : list string.
Variable GOOS : string.

Local Abbreviation parse_row := (Dataset.parseProps ToLower dsPropList GOOS).
Local Abbreviation loop := (Dataset.list_loop ToLower dsPropList GOOS).
Local Abbreviation feed := (feed_rows ToLower dsPropList GOOS).
Local Abbreviation records := (parse_groups ToLower dsPropList GOOS).

Lemma last_snoc_ds (done : list Dataset.t) ds : last (done ++ [ds]) = Some ds.
Proof. apply last_snoc. Qed.

(** The loop with a current dataset [ds] named [name]: the rows that
    still lead with [name] are fed to [ds], the others form the groups
    of the datasets that follow. *)
Lemma list_loop_spec header rows :
  forall name done ds,
    Forall (fun line : list string => line <> []) rows ->
    exists cont groups,
      rows = (cont ++ concat (snd <$> groups))%list
      /\ Forall (fun line => line !! 0%nat = Some name) cont
      /\ Forall group_ok groups
      /\ names_change name groups
      /\ loop header rows name (done ++ [ds])%list
         = Done (match feed header cont ds with
                 | inr err => ([], Some err)
                 | inl ds' =>
                   listing_result (done ++ [ds'])%list (records header groups)
                 end).
Proof.
  induction rows as [| line rest IH]; intros name done ds Hrows.
  { exists [], []. repeat split; try done. cbn. by rewrite app_nil_r. }
  apply Forall_cons in Hrows as [Hline Hrest].
  destruct line as [| n fields]; [done |].
  cbn [Dataset.list_loop index lookup list_lookup mbind outcome_bind].
  destruct (String.eqb_spec name n) as [<- | Hne]; cbn [negb].
  - rewrite last_snoc_ds.
    destruct (parse_row ds [header; name :: fields]) as [ds' err] eqn:Hparse.
    destruct (IH name done ds' Hrest) as (cont & groups & -> & Hcont & Hgroups & Hnames & Hloop).
    exists ((name :: fields) :: cont), groups.
    split; [done |]. split; [by constructor |]. split; [done |]. split; [done |].
    cbn [feed_rows]. rewrite Hparse. destruct err as [e |]; [done |].
    by rewrite removelast_snoc, Hloop.
  - rewrite last_snoc_ds.
    destruct (parse_row (Dataset.new n) [header; n :: fields]) as [ds' err] eqn:Hparse.
    destruct (IH n (done ++ [ds])%list ds' Hrest)
      as (cont & groups & -> & Hcont & Hgroups & Hnames & Hloop).
    exists [], ((n, (n :: fields) :: cont) :: groups).
    split; [done |]. split; [done |].
    split; [constructor; [split; [done | by constructor] | done] |].
    split; [by split |].
    cbn [feed_rows parse_groups fst snd]. rewrite Hparse.
    destruct err as [e |]; [done |].
    rewrite removelast_snoc, Hloop.
    destruct (feed header cont ds') as [ds'' | e]; [| done].
    destruct (records header groups) as [dss | e]; [| done].
    cbn [listing_result]. by rewrite <- !app_assoc.
Qed.

(** A value row without fields stops the loop with a panic. *)
Lemma list_loop_blank_row header rest name datasets :
  loop header ([] :: rest) name datasets = Panic.
Proof. reflexivity. Qed.

(** The loop on rows with leading fields that a row without fields
    follows: the rows are fed as before, and the row without fields is
    a panic when it is reached. *)
Lemma list_loop_blank_spec header before after :
  forall name done ds,
    Forall (fun line : list string => line <> []) before ->
    exists cont groups,
      before = (cont ++ concat (snd <$> groups))%list
      /\ Forall (fun line => line !! 0%nat = Some name) cont
      /\ Forall group_ok groups
      /\ names_change name groups
      /\ loop header (before ++ [] :: after)%list name (done ++ [ds])%list
         = match feed header cont ds with
           | inr err => Done ([], Some err)
           | inl ds' => blank_result (records header groups)
           end.
Proof.
  induction before as [| line rest IH]; intros name done ds Hrows.
  { exists [], []. repeat split; done. }
  apply Forall_cons in Hrows as [Hline Hrest].
  destruct line as [| n fields]; [done |].
  cbn [app Dataset.list_loop index lookup list_lookup mbind outcome_bind].
  destruct (String.eqb_spec name n) as [<- | Hne]; cbn [negb].
  - rewrite last_snoc_ds.
    destruct (parse_row ds [header; name :: fields]) as [ds' err] eqn:Hparse.
    destruct (IH name done ds' Hrest) as (cont & groups & -> & Hcont & Hgroups & Hnames & Hloop).
    exists ((name :: fields) :: cont), groups.
    split; [done |]. split; [by constructor |]. split; [done |]. split; [done |].
    cbn [feed_rows]. rewrite Hparse. destruct err as [e |]; [done |].
    by rewrite removelast_snoc, Hloop.
  - rewrite last_snoc_ds.
    destruct (parse_row (Dataset.new n) [header; n :: fields]) as [ds' err] eqn:Hparse.
    destruct (IH n (done ++ [ds])%list ds' Hrest)
      as (cont & groups & -> & Hcont & Hgroups & Hnames & Hloop).
    exists [], ((n, (n :: fields) :: cont) :: groups).
    split; [done |]. split; [done |].
    split; [constructor; [split; [done | by constructor] | done] |].
    split; [by split |].
    cbn [feed_rows parse_groups fst snd]. rewrite Hparse.
    destruct err as [e |]; [done |].
    rewrite removelast_snoc, Hloop.
    destruct (feed header cont ds') as [ds'' | e]; [| done].
    by destruct (records header groups) as [dss | e].
Qed.

Lemma list_args_eq ty filter :
  (if negb (String.eqb filter "")
   then (["list"; "-rp"; "-t"; ty; "-o"; "all"] ++ [filter])%list
   else ["list"; "-rp"; "-t"; ty; "-o"; "all"])
  = list_args ty filter.
Proof. unfold list_args. by destruct (String.eqb filter ""). Qed.

Lemma listByType_eq z ty filter :
  Dataset.listByType ToLower dsPropList GOOS z ty filter =
    match doOutput z (list_args ty filter) with
    | (_, Some err) => Done ([], Some err)
    | ([], None) => Done ([], None)
    | (header :: rows, None) => loop header rows "" []
    end.
Proof.
  unfold Dataset.listByType. rewrite list_args_eq.
  by destruct (doOutput z (list_args ty filter)) as [[| header rows] [err |]].
Qed.


End ListingProofs.



(** ** Field coercions and the zpool line *)

Lemma setString_sentinel : setString "-" = "".
Proof. reflexivity. Qed.

Lemma setUint_sentinel field : setUint field "-" = (0, None).
Proof. reflexivity. Qed.

Lemma setUint_digits field ds :
  all_digits ds = true -> ds <> "" -> dec_value ds <= 2 ^ 64 - 1 ->
  setUint field ds = (dec_value ds, None).
Proof.
  intros Hds Hne Hfit. unfold setUint.
  assert (String.eqb ds "-" = false) as ->.
  { apply String.eqb_neq. intros ->. by vm_compute in Hds. }
  cbn [negb]. rewrite ParseUint_digits by (done || by right).
  by destruct (Z.leb_spec (dec_value ds) (2 ^ 64 - 1)); [| lia].
Qed.

Lemma substring_prefix (a b : string) :
  String.substring 0 (String.length a) (a ++ b) = a.
Proof.
  induction a as [| c a IH]; [by destruct b |].
  rewrite string_app_cons. cbn [String.length String.substring]. by rewrite IH.
Qed.

Lemma slice_to_prefix (a b : string) : slice_to (a ++ b) (len a) = Done a.
Proof.
  unfold slice_to, len. rewrite string_app_length, Nat2Z.id, substring_prefix.
  destruct (Z.leb_spec 0 (Z.of_nat (String.length a))); [| lia].
  by destruct (Z.leb_spec (Z.of_nat (String.length a))
                 (Z.of_nat (String.length a + String.length b))); [| lia].
Qed.

Lemma Index_from_digits ds rest i :
  all_digits ds = true ->
  strings.Index_from (ds ++ String "%" rest) "%" i = i + len ds.
Proof.
  revert i. induction ds as [| c ds IH]; intros i.
  - intros _. rewrite string_app_nil_l. cbn [strings.Index_from String.prefix].
    destruct (ascii_dec "%" "%") as [_ | Hne]; [| done].
    assert (String.prefix "" rest = true) as -> by (by destruct rest).
    unfold len. cbn [String.length]. lia.
  - cbn [all_digits]. intros [Hc Hds]%andb_prop. rewrite string_app_cons.
    cbn [strings.Index_from String.prefix].
    destruct (ascii_dec "%" c) as [<- | _]; [by vm_compute in Hc |].
    rewrite IH by done. unfold len. cbn [String.length]. lia.
Qed.

Section ZpoolProofs.

Variable float64 : Type.
Variable float64_zero : float64.
Variable atof : string -> float64 * option NumError.

Local Abbreviation parse := (Zpool.parseLine float64 float64_zero atof).

(** The percent sign and what follows it are cut off before the
    fragmentation is parsed. *)
Lemma parseLine_fragmentation z name ds rest :
  all_digits ds = true -> ds <> "" -> dec_value ds <= 2 ^ 64 - 1 ->
  parse z [name; "fragmentation"; ds ++ String "%" rest]
  = Done (Zpool.set_Fragmentation float64 (dec_value ds) z, None).
Proof.
  intros Hds Hne Hfit. unfold Zpool.parseLine.
  cbn [index lookup list_lookup mbind outcome_bind String.eqb Ascii.eqb Bool.eqb].
  unfold strings.Index. rewrite Index_from_digits by done.
  destruct (Z.ltb_spec (0 + len ds) 0) as [Hneg | _]; [unfold len in Hneg; lia |].
  rewrite Z.add_0_l, slice_to_prefix. cbn [mbind outcome_bind].
  unfold Zpool.assignUint. by rewrite setUint_digits.
Qed.

Lemma parseLine_fragmentation_sentinel z name :
  parse z [name; "fragmentation"; "-"]
  = Done (Zpool.set_Fragmentation float64 0 z, None).
Proof. reflexivity. Qed.

(** The last byte is cut off before the ratio is parsed. *)
Lemma parseLine_dedupratio z name body :
  body <> "" ->
  parse z [name; "dedupratio"; body ++ "x"]
  = Done (Zpool.set_DedupRatio float64 (atof body).1 z, ENum <$> (atof body).2).
Proof.
  intros Hne. unfold Zpool.parseLine.
  cbn [index lookup list_lookup mbind outcome_bind String.eqb Ascii.eqb Bool.eqb].
  assert (len (body ++ "x") - 1 = len body) as ->.
  { unfold len. rewrite string_app_length. cbn [String.length]. lia. }
  rewrite slice_to_prefix. cbn [mbind outcome_bind]. unfold Zpool.ParseFloat.
  destruct (String.eqb_spec body ""); [done |]. by destruct (atof body).
Qed.

(** C8.  The sentinel coerces to the empty string in a text field and
    to 0 in an unsigned-integer field, the fragmentation included, but
    not in the ratio field: there the last byte of the value is cut off
    and the empty rest is given to ParseFloat, so the line of the
    sentinel ends in a syntax error. *)
Theorem parseLine_dedupratio_sentinel z name :
  setString "-" = ""
  /\ (forall field, setUint field "-" = (0, None))
  /\ parse z [name; "fragmentation"; "-"]
     = Done (Zpool.set_Fragmentation float64 0 z, None)
  /\ parse z [name; "dedupratio"; "-"]
     = Done (Zpool.set_DedupRatio float64 float64_zero z,
             Some (ENum (strconv.syntaxError strconv.fnParseFloat ""))).
Proof. repeat split. Qed.

End ZpoolProofs.

(** * Further properties *)

(** ** The process runner on a printed table *)

Lemma no_newline_app a b : no_newline (a ++ b) = no_newline a && no_newline b.
Proof.
  induction a as [| c a IH]; [done |].
  rewrite string_app_cons. cbn [no_newline]. by rewrite IH, andb_assoc.
Qed.

Lemma has_space_no_newline f : has_space f = false -> no_newline f = true.
Proof.
  induction f as [| c f IH]; [done |]. cbn [has_space no_newline].
  intros [Hc Hf]%orb_false_elim. rewrite (IH Hf), andb_true_r.
  destruct (Ascii.eqb_spec c newline) as [-> | _]; [| done].
  by rewrite space_width_ascii in Hc.
Qed.

Lemma Join_cons2 e1 e2 rest sep :
  strings.Join (e1 :: e2 :: rest) sep = e1 ++ sep ++ strings.Join (e2 :: rest) sep.
Proof. reflexivity. Qed.

Lemma Fields_format_row w fields :
  strings.asciiSpace (byte_val w) = true -> Forall is_field fields ->
  strings.Fields (format_row w fields) = fields.
Proof.
  intros Hw Hfields. unfold format_row.
  induction Hfields as [| f fields [Hne Hf] Hrest IH]; [done |].
  destruct fields as [| g fields].
  - cbn [strings.Join]. by apply Fields_token.
  - rewrite Join_cons2, string_app_cons, string_app_nil_l.
    rewrite Fields_app_space by done. rewrite IH. by rewrite Fields_token.
Qed.

Lemma no_newline_format_row w fields :
  w <> newline -> Forall is_field fields -> no_newline (format_row w fields) = true.
Proof.
  intros Hw Hfields. unfold format_row.
  induction Hfields as [| f fields [Hne Hf] Hrest IH]; [done |].
  destruct fields as [| g fields].
  - cbn [strings.Join]. by apply has_space_no_newline.
  - rewrite Join_cons2, string_app_cons, string_app_nil_l, no_newline_app.
    cbn [no_newline]. rewrite IH, (has_space_no_newline f Hf).
    by destruct (Ascii.eqb_spec w newline).
Qed.

Lemma Fields_format_rows w rows :
  strings.asciiSpace (byte_val w) = true -> Forall (Forall is_field) rows ->
  map strings.Fields (format_row w <$> rows) = rows.
Proof.
  intros Hw Hrows. induction Hrows as [| row rows Hrow _ IH]; [done |].
  cbn [fmap list_fmap map]. rewrite Fields_format_row by done. f_equal. apply IH.
Qed.

(** X1.  run reads back a printed table: when the command succeeds
    without a sink and its output is the rows of a table, each row
    printed with one white space byte other than the newline between its
    fields and ended by a newline, and every field is non-empty and free
    of white space, run returns exactly that table and no error. *)
Theorem run_reads_printed_table z in_ cmd args w rows :
  strings.asciiSpace (byte_val w) = true -> w <> newline ->
  Forall (Forall is_field) rows ->
  exec_err (invoke z in_ cmd args) = None ->
  exec_stdout (invoke z in_ cmd args) = unlines (format_row w <$> rows) ->
  run z in_ None cmd args = (rows, None).
Proof.
  intros Hw Hnl Hrows Hok Hout.
  rewrite run_buffered_eq, Hout by done. f_equal.
  rewrite <- (string_app_nil_r (unlines _)).
  rewrite Split_unlines, removelast_snoc; [| | done].
  - by apply Fields_format_rows.
  - apply Forall_fmap, (Forall_impl _ _ _ Hrows). intros row Hrow.
    by apply no_newline_format_row.
Qed.

Lemma is_field_tank : is_field "tank".
Proof. split; [discriminate | reflexivity]. Qed.

Lemma is_field_size : is_field "1024".
Proof. split; [discriminate | reflexivity]. Qed.

Lemma run_reads_printed_table_witness :
  run (mkzfs (fun _ _ _ =>
                mkExecResult None (unlines (format_row "009" <$> [["tank"; "1024"]])) "")
         false) None None "zfs" ["list"]
  = ([["tank"; "1024"]], None).
Proof.
  apply (run_reads_printed_table _ None "zfs" ["list"] "009"%char [["tank"; "1024"]]).
  - reflexivity.
  - discriminate.
  - repeat constructor; [apply is_field_tank | apply is_field_size].
  - reflexivity.
  - reflexivity.
Defined.

(** ** The failing command *)

(** X2.  When the command fails, run returns no rows, whatever was
    written to stdout and whether or not a sink was given, and an error
    that carries the error of the executor, the captured stderr and the
    command line: the command and its arguments joined by single spaces,
    with sudo in front when the client uses it.  Without arguments and
    without sudo the command line is the command followed by a space. *)
Theorem run_failure z in_ out cmd args err :
  exec_err (invoke z in_ cmd args) = Some err ->
  (sudo z = true ->
   run z in_ out cmd args
   = ([], Some (EExec err (strings.Join ("sudo" :: cmd :: args) " ")
                  (exec_stderr (invoke z in_ cmd args)))))
  /\ (sudo z = false -> args <> [] ->
      run z in_ out cmd args
      = ([], Some (EExec err (strings.Join (cmd :: args) " ")
                     (exec_stderr (invoke z in_ cmd args)))))
  /\ (sudo z = false -> args = [] ->
      run z in_ out cmd args
      = ([], Some (EExec err (cmd ++ " ") (exec_stderr (invoke z in_ cmd args))))).
Proof.
  intros Herr. rewrite (run_exec_error z in_ out cmd args err Herr).
  unfold invoke, command_line. repeat split.
  - by intros ->.
  - intros -> Hargs. cbn [fst snd]. by destruct args.
  - by intros -> ->.
Qed.

Lemma run_failure_witness :
  run (mkzfs (fun _ _ _ => mkExecResult (Some "exit status 1") "partial" "no such pool")
         true) None None "zfs" ["list"; "tank"]
  = ([], Some (EExec "exit status 1" "sudo zfs list tank" "no such pool")).
Proof.
  destruct (run_failure
              (mkzfs (fun _ _ _ =>
                        mkExecResult (Some "exit status 1") "partial" "no such pool")
                 true) None None "zfs" ["list"; "tank"] "exit status 1" eq_refl)
    as (H & _).
  exact (H eq_refl).
Defined.

(** ** The decoder on plain paths and the length of its result *)

Lemma unescape_no_backslash p :
  no_backslash p = true -> unescapeFilepath p = (p, None).
Proof.
  induction p as [| c p IH]; [done |]. cbn [no_backslash].
  intros [Hc Hp]%andb_prop. rewrite unescape_plain, IH; [done | done |].
  intros ->. by rewrite Ascii.eqb_refl in Hc.
Qed.

Lemma is_octal_not_backslash c : is_octal c = true -> Ascii.eqb c backslash = false.
Proof. all_bytes c; vm_compute; congruence. Qed.

Lemma unescape_length p :
  forall s, unescapeFilepath p = (s, None) ->
            String.length p = (String.length s + 3 * count_backslash p)%nat.
Proof.
  remember (String.length p) as n eqn:Hn. revert p Hn.
  induction n as [n IH] using lt_wf_ind. intros p Hn s.
  destruct p as [| c p]; [by intros [= <-] |].
  destruct (Ascii.eqb_spec c backslash) as [-> | Hc].
  - destruct p as [| d1 [| d2 [| d3 p]]]; try done.
    change (String backslash (String d1 (String d2 (String d3 p))))
      with (String backslash (String d1 (String d2 (String d3 "")) ++ p)).
    rewrite unescape_escape.
    destruct (is_octal d1) eqn:H1; [| done].
    destruct (is_octal d2) eqn:H2; [| done].
    destruct (is_octal d3) eqn:H3; [| done]. cbn [andb].
    destruct (octal_value d1 d2 d3 <=? 255); [| done].
    destruct (unescapeFilepath p) as [s' [e |]] eqn:Hp; [done |].
    intros [= <-].
    pose proof (IH (String.length p) ltac:(subst n; cbn; lia) p eq_refl s' Hp) as Hlen.
    rewrite !string_app_cons, string_app_nil_l.
    cbn [count_backslash String.length].
    rewrite Ascii.eqb_refl, !is_octal_not_backslash by done. subst n.
    cbn [String.length]. lia.
  - rewrite unescape_plain by done.
    destruct (unescapeFilepath p) as [s' [e |]] eqn:Hp; [done |].
    intros [= <-].
    pose proof (IH (String.length p) ltac:(subst n; cbn; lia) p eq_refl s' Hp) as Hlen.
    cbn [count_backslash String.length].
    destruct (Ascii.eqb_spec c backslash); [done |]. subst n.
    cbn [String.length]. lia.
Qed.

(** X3.  A path without a backslash decodes to itself.  A successful
    decoding is shorter than its input by three bytes for each backslash
    of the input, so every backslash was the start of an escape.  An
    error comes with the empty string, never with a part of the path. *)
Theorem unescapeFilepath_lengths p :
  (no_backslash p = true -> unescapeFilepath p = (p, None))
  /\ (forall s, unescapeFilepath p = (s, None) ->
        String.length p = (String.length s + 3 * count_backslash p)%nat)
  /\ (forall s e, unescapeFilepath p = (s, Some e) -> s = "").
Proof.
  split; [apply unescape_no_backslash |]. split; [apply unescape_length |].
  intros s e H. by apply unescapeFilepath_error in H as [-> _].
Qed.

Lemma unescapeFilepath_lengths_witness :
  unescapeFilepath "/tank/a" = ("/tank/a", None)
  /\ String.length (String "a" (String backslash "040b"))
     = (String.length "a b" + 3 * count_backslash (String "a" (String backslash "040b")))%nat
  /\ fst (unescapeFilepath (String backslash "9")) = "".
Proof.
  split.
  { destruct (unescapeFilepath_lengths "/tank/a") as (H & _). exact (H eq_refl). }
  split.
  { destruct (unescapeFilepath_lengths (String "a" (String backslash "040b")))
      as (_ & H & _).
    exact (H "a b" eq_refl). }
  destruct (unescapeFilepath_lengths (String backslash "9")) as (_ & _ & H).
  exact (H "" EOctalTooShort eq_refl).
Defined.

(** ** What a parsed diff line holds *)

(** X4.  Every InodeChange that parseInodeChange returns is read off
    the line: the line has three or four fields, the change type and the
    inode type are those of the codes in fields 0 and 1, Path is the
    decoding of field 2, and NewPath is the decoding of field 3 on a
    Renamed line of four fields. *)
Theorem parseInodeChange_fields line c :
  parseInodeChange line = Done (Some c, None) ->
  exists f0 f1 f2 tl,
    line = f0 :: f1 :: f2 :: tl
    /\ (f0, Change c) ∈ change_codes
    /\ (f1, Type_ c) ∈ inode_codes
    /\ unescapeFilepath f2 = (Path c, None)
    /\ (Change c = Renamed ->
        exists f3, tl = [f3] /\ unescapeFilepath f3 = (NewPath c, None))
    /\ (Change c <> Renamed -> tl = [] \/ (Change c = Modified /\ length tl = 1%nat)).
Proof.
  intros H. apply parseInodeChange_success in H
    as (_ & f0 & f1 & f2 & tl & -> & Hct & Hty & Hpath & Hcase).
  exists f0, f1, f2, tl. split; [done |].
  split; [by apply changeTypeMap_Some |]. split; [by apply inodeTypeMap_Some |].
  split; [done |].
  destruct (Change c); try (by apply changeTypeMap_known in Hct).
  - destruct Hcase as (-> & _). split; [done | by left].
  - destruct Hcase as (-> & _). split; [done | by left].
  - destruct Hcase as (_ & [(-> & _) | (f3 & -> & _)]); (split; [done |]).
    + by left.
    + by right.
  - destruct Hcase as (f3 & -> & Hnew & _). split; [by exists f3 | done].
Qed.

Lemma parseInodeChange_fields_witness :
  exists f0 f1 f2 tl,
    ["R"; "F"; "/a"; "/b"] = f0 :: f1 :: f2 :: tl
    /\ (f0, Change (mkInodeChange Renamed File "/a" "/b" 0)) ∈ change_codes
    /\ (f1, Type_ (mkInodeChange Renamed File "/a" "/b" 0)) ∈ inode_codes
    /\ unescapeFilepath f2 = (Path (mkInodeChange Renamed File "/a" "/b" 0), None)
    /\ (Change (mkInodeChange Renamed File "/a" "/b" 0) = Renamed ->
        exists f3, tl = [f3]
                   /\ unescapeFilepath f3
                      = (NewPath (mkInodeChange Renamed File "/a" "/b" 0), None))
    /\ (Change (mkInodeChange Renamed File "/a" "/b" 0) <> Renamed ->
        tl = [] \/ (Change (mkInodeChange Renamed File "/a" "/b" 0) = Modified
                    /\ length tl = 1%nat)).
Proof.
  exact (parseInodeChange_fields ["R"; "F"; "/a"; "/b"]
           (mkInodeChange Renamed File "/a" "/b" 0) ltac:(vm_compute; reflexivity)).
Defined.

Lemma parseInodeChange_three f0 ct f1 ty f2 path :
  changeTypeMap !! f0 = Some ct -> ct <> Renamed ->
  inodeTypeMap !! f1 = Some ty -> unescapeFilepath f2 = (path, None) ->
  parseInodeChange [f0; f1; f2] = Done (Some (mkInodeChange ct ty path "" 0), None).
Proof.
  intros Hct Hren Hty Hpath. unfold parseInodeChange.
  cbn -[changeTypeMap inodeTypeMap unescapeFilepath parseReferenceCount].
  rewrite Hct, Hty, Hpath.
  cbn -[changeTypeMap inodeTypeMap unescapeFilepath parseReferenceCount].
  pose proof (changeTypeMap_known _ _ Hct). pose proof (inodeTypeMap_known _ _ Hty).
  destruct (decide (ct = ChangeUnknown)); [done |].
  destruct ct; try done; cbn; by destruct (decide (ty = InodeUnknown)).
Qed.

Lemma parseInodeChange_renamed f1 ty f2 path f3 newPath :
  inodeTypeMap !! f1 = Some ty -> unescapeFilepath f2 = (path, None) ->
  unescapeFilepath f3 = (newPath, None) ->
  parseInodeChange ["R"; f1; f2; f3]
  = Done (Some (mkInodeChange Renamed ty path newPath 0), None).
Proof.
  intros Hty Hpath Hnew. unfold parseInodeChange.
  change (changeTypeMap !! "R") with (Some Renamed).
  cbn -[inodeTypeMap unescapeFilepath parseReferenceCount].
  rewrite Hty. cbn -[inodeTypeMap unescapeFilepath parseReferenceCount].
  pose proof (inodeTypeMap_known _ _ Hty).
  destruct (decide (ty = InodeUnknown)); [done |]. by rewrite Hpath, Hnew.
Qed.

(** X5.  parseInodeChange accepts every well-formed line: with a known
    inode code in field 1 and paths that decode, a line of three fields
    with the code of Removed, Created or Modified, and a line of four
    fields with the code of Renamed, give the InodeChange of these
    fields, with no new path and no reference count in the first case. *)
Theorem parseInodeChange_accepts f1 ty f2 path :
  (f1, ty) ∈ inode_codes -> unescapeFilepath f2 = (path, None) ->
  (forall f0 ct,
     (f0, ct) ∈ change_codes -> ct <> Renamed ->
     parseInodeChange [f0; f1; f2]
     = Done (Some (mkInodeChange ct ty path "" 0), None))
  /\ (forall f3 newPath,
        unescapeFilepath f3 = (newPath, None) ->
        parseInodeChange ["R"; f1; f2; f3]
        = Done (Some (mkInodeChange Renamed ty path newPath 0), None)).
Proof.
  intros Hty%inodeTypeMap_Some Hpath. split.
  - intros f0 ct Hct%changeTypeMap_Some Hren. by apply parseInodeChange_three.
  - intros f3 newPath Hnew. by apply parseInodeChange_renamed.
Qed.

Lemma inode_code_file : ("F", File) ∈ inode_codes.
Proof. apply inodeTypeMap_Some. reflexivity. Qed.

Lemma change_code_created : ("+", Created) ∈ change_codes.
Proof. apply changeTypeMap_Some. reflexivity. Qed.

Lemma parseInodeChange_accepts_witness :
  parseInodeChange ["+"; "F"; "/tank/a"]
  = Done (Some (mkInodeChange Created File "/tank/a" "" 0), None)
  /\ parseInodeChange ["R"; "F"; "/tank/a"; "/tank/b"]
     = Done (Some (mkInodeChange Renamed File "/tank/a" "/tank/b" 0), None).
Proof.
  destruct (parseInodeChange_accepts "F" File "/tank/a" "/tank/a"
              inode_code_file eq_refl) as (H3 & H4).
  split.
  - exact (H3 "+" Created change_code_created ltac:(discriminate)).
  - exact (H4 "/tank/b" "/tank/b" eq_refl).
Defined.

(** ** Diff: the command and the batch parser together *)

Lemma parseInodeChanges_cases lines :
  (exists cs,
     Forall2 parses lines cs /\ parseInodeChanges lines = Done (Some <$> cs, None))
  \/ (exists k line e,
        lines !! k = Some line
        /\ parseInodeChange line = Done (None, Some e)
        /\ (forall j l', (j < k)%nat -> lines !! j = Some l' -> exists c, parses l' c)
        /\ parseInodeChanges lines = Done ([], Some (EParseLine (Z.of_nat k) e line))).
Proof.
  unfold parseInodeChanges.
  destruct (parseInodeChanges_loop_spec lines 0 (replicate (length lines) None))
    as [(cs & Hcs & Hloop) | (k & l & e & Hk & He & Hbefore & Hloop)].
  { rewrite length_replicate. lia. }
  - left. exists cs. split; [done |]. rewrite Hloop.
    rewrite drop_ge by (rewrite length_replicate; lia).
    cbn [take app]. by rewrite app_nil_r.
  - right. by exists k, l, e.
Qed.

Lemma Diff_eq z d snapshot :
  DatasetOps.Diff z d snapshot =
    match doOutput z ["diff"; "-FH"; snapshot; Dataset.Name d] with
    | (_, Some err) => Done ([], Some err)
    | (out, None) => parseInodeChanges out
    end.
Proof.
  unfold DatasetOps.Diff.
  destruct (doOutput _ _) as [out [err |]]; [done |].
  destruct (parseInodeChanges_cases out)
    as [(cs & _ & ->) | (k & l & e & _ & _ & _ & ->)]; done.
Qed.

(** X6.  Diff never panics and returns all or nothing.  The error of
    the command is returned with no change.  Otherwise there is one
    change per row of the output, in order, or the error of the first
    row that does not parse (every row before it parses), with its index
    and its fields, and no change.  A blank line of the output, which is
    a row without fields, is such an error (empty line passed) when the
    rows before it parse. *)
Theorem Diff_all_or_nothing z d snapshot :
  (forall out err,
     doOutput z ["diff"; "-FH"; snapshot; Dataset.Name d] = (out, Some err) ->
     DatasetOps.Diff z d snapshot = Done ([], Some err))
  /\ (forall out,
        doOutput z ["diff"; "-FH"; snapshot; Dataset.Name d] = (out, None) ->
        (exists cs,
           Forall2 (fun line c => parseInodeChange line = Done (Some c, None)) out cs
           /\ DatasetOps.Diff z d snapshot = Done (Some <$> cs, None))
        \/ (exists k line e,
              out !! k = Some line
              /\ parseInodeChange line = Done (None, Some e)
              /\ (forall j l', (j < k)%nat -> out !! j = Some l' ->
                    exists c, parseInodeChange l' = Done (Some c, None))
              /\ DatasetOps.Diff z d snapshot
                 = Done ([], Some (EParseLine (Z.of_nat k) e line))))
  /\ (forall out k,
        doOutput z ["diff"; "-FH"; snapshot; Dataset.Name d] = (out, None) ->
        out !! k = Some [] ->
        (forall j l', (j < k)%nat -> out !! j = Some l' ->
                      exists c, parseInodeChange l' = Done (Some c, None)) ->
        DatasetOps.Diff z d snapshot
        = Done ([], Some (EParseLine (Z.of_nat k) EEmptyLine []))).
Proof.
  rewrite Diff_eq. split; [by intros out err -> |]. split.
  - intros out ->.
    destruct (parseInodeChanges_cases out)
      as [(cs & Hcs & ->) | (k & l & e & Hk & He & Hbefore & ->)].
    + left. by exists cs.
    + right. by exists k, l, e.
  - intros out k -> Hk Hbefore.
    destruct (parseInodeChanges_cases out)
      as [(cs & Hcs & _) | (k' & l & e & Hk' & He & Hbefore' & ->)].
    + destruct (Forall2_lookup_l _ _ _ _ _ Hcs Hk) as (c & _ & Hc).
      unfold parses in Hc. cbn in Hc. discriminate.
    + destruct (Nat.lt_trichotomy k' k) as [Hlt | [-> | Hgt]].
      * destruct (Hbefore k' l Hlt Hk') as [c Hc]. congruence.
      * rewrite Hk in Hk'. injection Hk' as <-. cbn in He. by injection He as <-.
      * destruct (Hbefore' k [] Hgt Hk) as [c Hc]. unfold parses in Hc.
        cbn in Hc. discriminate.
Qed.

Lemma Diff_all_or_nothing_witness :
  DatasetOps.Diff
    (mkzfs (fun _ _ _ =>
              mkExecResult None
                (unlines [format_row "009" ["+"; "F"; "/tank/a"]; ""]) "") false)
    (Dataset.new "tank") "tank@snap"
  = Done ([], Some (EParseLine 1 EEmptyLine [])).
Proof.
  destruct (Diff_all_or_nothing
              (mkzfs (fun _ _ _ =>
                        mkExecResult None
                          (unlines [format_row "009" ["+"; "F"; "/tank/a"]; ""]) "")
                 false)
              (Dataset.new "tank") "tank@snap") as (_ & _ & H).
  apply (H [["+"; "F"; "/tank/a"]; []] 1%nat).
  - vm_compute. reflexivity.
  - reflexivity.
  - intros [| j] l' Hlt Hj; [| lia]. injection Hj as <-.
    eexists. vm_compute. reflexivity.
Defined.

(** ** What setUint accepts *)

Lemma digit_val_small c d :
  strconv.digit_val c = Some d -> d < 10 -> is_digit c = true.
Proof.
  unfold strconv.digit_val, is_digit.
  destruct ((48 <=? byte_val c) && (byte_val c <=? 57)); [done |].
  destruct ((97 <=? strconv.lower (byte_val c)) && (strconv.lower (byte_val c) <=? 122))
    eqn:Hl; [| done].
  intros [= <-] Hd. lia.
Qed.

Lemma parseUint_loop_accepts maxVal s0 s n r :
  0 <= maxVal < 2 ^ 64 -> 0 <= n <= maxVal ->
  strconv.parseUint_loop 10 (strconv.maxUint64 / 10 + 1) maxVal s0 s n = (r, None) ->
  all_digits s = true.
Proof.
  intros Hmax. revert n. induction s as [| c s IH]; intros n Hn; [done |].
  destruct (strconv.digit_val c) as [d |] eqn:Hd.
  - destruct (Z.lt_ge_cases d 10) as [Hlt | Hge].
    + pose proof (digit_val_small c d Hd Hlt) as Hc.
      pose proof (is_digit_range c Hc). pose proof (digit_val_digit c Hc) as Hd'.
      cbn [all_digits]. rewrite Hc. cbn [andb].
      destruct (Z.le_gt_cases (n * 10 + (byte_val c - 48)) maxVal) as [Hle | Hgt].
      * rewrite (loop_step 10 _ maxVal s0) with (d := byte_val c - 48); [| loop_side ..].
        apply IH. lia.
      * by rewrite (loop_range 10 _ maxVal s0) with (d := byte_val c - 48);
          [| loop_side ..].
    + by rewrite (loop_syntax_big 10 _ maxVal s0 c s n d).
  - by rewrite loop_syntax_none.
Qed.

Lemma ParseUint_accepts s r :
  strconv.ParseUint s 10 64 = (r, None) -> s <> "" /\ all_digits s = true.
Proof.
  unfold strconv.ParseUint. destruct (String.eqb_spec s ""); [done |].
  change (if 64 =? 0 then strconv.intSize else 64) with 64.
  intros H. split; [done |].
  apply (parseUint_loop_accepts (2 ^ 64 - 1) s s 0 r); [lia | lia | exact H].
Qed.

Lemma digits_not_sentinel s : all_digits s = true -> String.eqb s "-" = false.
Proof. intros H. apply String.eqb_neq. intros ->. by vm_compute in H. Qed.

(** X7.  setUint succeeds exactly on the sentinel, which gives 0, and
    on a non-empty string of decimal digits whose value is at most
    2^64 - 1, which gives that value: no sign, no white space and no
    empty string.  When it fails the field keeps its value. *)
Theorem setUint_accepts field value :
  (forall n,
     setUint field value = (n, None) <->
     (value = "-" /\ n = 0)
     \/ (value <> "" /\ all_digits value = true
         /\ dec_value value = n /\ n <= 2 ^ 64 - 1))
  /\ (forall n e, setUint field value = (n, Some e) -> n = field).
Proof.
  split.
  - intros n. split.
    + unfold setUint. destruct (String.eqb_spec value "-") as [-> | Hne]; cbn [negb].
      { intros [= <-]. by left. }
      destruct (strconv.ParseUint value 10 64) as [v [err |]] eqn:Hparse; [done |].
      intros [= <-]. right.
      destruct (ParseUint_accepts _ _ Hparse) as [Hnonempty Hdigits].
      rewrite ParseUint_digits in Hparse by (done || by right).
      destruct (Z.leb_spec (dec_value value) (2 ^ 64 - 1)); [| done].
      injection Hparse as <-. done.
    + intros [[-> ->] | (Hne & Hdigits & <- & Hfit)]; [done |].
      by apply setUint_digits.
  - intros n e. unfold setUint. destruct (negb (String.eqb value "-")); [| done].
    destruct (strconv.ParseUint value 10 64) as [v [err |]]; [| done].
    by intros [= <- _].
Qed.

Lemma setUint_accepts_witness :
  setUint 7 "1024" = (1024, None) /\ setUint 7 "-" = (0, None)
  /\ (setUint 7 "+5").1 = 7.
Proof.
  destruct (setUint_accepts 7 "1024") as [H1 _].
  destruct (setUint_accepts 7 "-") as [H2 _].
  destruct (setUint_accepts 7 "+5") as [_ H3].
  split.
  { apply (proj2 (H1 1024)). right.
    split; [discriminate |]. split; [reflexivity |]. split; [reflexivity |].
    vm_compute. discriminate. }
  split.
  { apply (proj2 (H2 0)). left. split; reflexivity. }
  exact (H3 7 (ENum (strconv.syntaxError strconv.fnParseUint "+5")) eq_refl).
Defined.

(** ** One line of zpool get *)

Lemma setUint_error_keeps field value n e :
  setUint field value = (n, Some e) -> n = field.
Proof.
  unfold setUint. destruct (negb (String.eqb value "-")); [| done].
  destruct (strconv.ParseUint value 10 64) as [v [err |]]; [| done].
  by intros [= <- _].
Qed.

Lemma Index_from_range s sub i :
  strings.Index_from s sub i = -1
  \/ i <= strings.Index_from s sub i <= i + len s.
Proof.
  revert i. induction s as [| c s IH]; intros i; cbn [strings.Index_from].
  - destruct (String.prefix sub ""); [right | by left]. unfold len. cbn. lia.
  - destruct (String.prefix sub (String c s)).
    + right. unfold len. cbn [String.length]. lia.
    + destruct (IH (i + 1)) as [-> | H]; [by left | right].
      unfold len in *. cbn [String.length]. lia.
Qed.

Lemma Index_from_percent pre rest i :
  no_percent pre = true ->
  strings.Index_from (pre ++ String "%" rest) "%" i = i + len pre.
Proof.
  revert i. induction pre as [| c pre IH]; intros i.
  - intros _. rewrite string_app_nil_l. cbn [strings.Index_from String.prefix].
    destruct (ascii_dec "%" "%") as [_ | Hne]; [| done].
    assert (String.prefix "" rest = true) as -> by (by destruct rest).
    unfold len. cbn [String.length]. lia.
  - cbn [no_percent]. intros [Hc Hpre]%andb_prop. rewrite string_app_cons.
    cbn [strings.Index_from String.prefix].
    destruct (ascii_dec "%" c) as [<- | _]; [done |].
    rewrite IH by done. unfold len. cbn [String.length]. lia.
Qed.

Lemma Index_from_no_percent s i :
  no_percent s = true -> strings.Index_from s "%" i = -1.
Proof.
  revert i. induction s as [| c s IH]; intros i; [done |].
  cbn [no_percent]. intros [Hc Hs]%andb_prop.
  cbn [strings.Index_from String.prefix].
  destruct (ascii_dec "%" c) as [<- | _]; [done |]. by apply IH.
Qed.

Lemma slice_to_all s : slice_to s (len s) = Done s.
Proof.
  rewrite <- (string_app_nil_r s) at 1. rewrite slice_to_prefix. done.
Qed.

Lemma slice_to_in_range s i :
  0 <= i <= len s -> exists v, slice_to s i = Done v.
Proof.
  intros Hi. unfold slice_to.
  destruct (Z.leb_spec 0 i); [| lia]. destruct (Z.leb_spec i (len s)); [| lia].
  by eexists.
Qed.

Lemma len_nonneg s : 0 <= len s.
Proof. unfold len. lia. Qed.

Lemma len_zero s : len s = 0 -> s = "".
Proof. unfold len. by destruct s. Qed.

Section ZpoolLine.

Variable float64 : Type.
Variable float64_zero : float64.
Variable atof : string -> float64 * option NumError.

Local Abbreviation parse_line := (Zpool.parseLine float64 float64_zero atof).

(** The value that the fragmentation case hands to setUint. *)
Lemma fragmentation_slice val :
  exists v,
    slice_to val (if strings.Index val "%" <? 0 then len val else strings.Index val "%")
    = Done v.
Proof.
  apply slice_to_in_range. pose proof (len_nonneg val) as Hlen. unfold strings.Index.
  destruct (Index_from_range val "%" 0) as [-> | Hrange]; [cbn; lia |].
  destruct (Z.ltb_spec (strings.Index_from val "%" 0) 0); lia.
Qed.

Ltac prop_cases f1 :=
  repeat match goal with
         | |- context [String.eqb f1 ?s] =>
             destruct (String.eqb_spec f1 s) as [-> | ?]
         | H : context [String.eqb f1 ?s] |- _ =>
             destruct (String.eqb_spec f1 s) as [-> | ?]
         end.

(** X8.  Zpool.parseLine panics exactly on a line with fewer than
    three fields and on a dedupratio line whose value is the empty
    string. *)
Theorem parseLine_panics z line :
  Zpool.parseLine float64 float64_zero atof z line = Panic <->
  (length line < 3)%nat
  \/ (line !! 1%nat = Some "dedupratio" /\ line !! 2%nat = Some "").
Proof.
  destruct line as [| f0 [| f1 [| f2 tl]]];
    try (split; [intros _; left; cbn; lia | done]).
  unfold Zpool.parseLine.
  cbn [index lookup list_lookup mbind outcome_bind length].
  split.
  - intros H. right. prop_cases f1; try done.
    + destruct (fragmentation_slice f2) as [v Hv]. rewrite Hv in H. done.
    + split; [done |]. f_equal. apply len_zero.
      unfold slice_to in H.
      destruct (Z.leb_spec 0 (len f2 - 1)); [| pose proof (len_nonneg f2); lia].
      destruct (Z.leb_spec (len f2 - 1) (len f2)); [| lia].
      cbn [andb mbind outcome_bind] in H. by destruct (Zpool.ParseFloat _ _ _ _).
  - intros [Hlen | [[= ->] [= ->]]]; [cbn in Hlen; lia |]. reflexivity.
Qed.


Lemma set_fields_same (z : Zpool.t float64) :
  Zpool.set_Name _ (Zpool.Name _ z) z = z
  /\ Zpool.set_Health _ (Zpool.Health _ z) z = z
  /\ Zpool.set_Allocated _ (Zpool.Allocated _ z) z = z
  /\ Zpool.set_Size _ (Zpool.Size _ z) z = z
  /\ Zpool.set_Free _ (Zpool.Free _ z) z = z
  /\ Zpool.set_Fragmentation _ (Zpool.Fragmentation _ z) z = z
  /\ Zpool.set_Freeing _ (Zpool.Freeing _ z) z = z
  /\ Zpool.set_Leaked _ (Zpool.Leaked _ z) z = z.
Proof. by destruct z. Qed.

Lemma assignUint_error get set val z z' e :
  set (get z) z = z ->
  Zpool.assignUint float64 get set val z = (z', Some e) -> z' = z.
Proof.
  intros Hset. unfold Zpool.assignUint.
  destruct (setUint (get z) val) as [v err] eqn:Hv. intros [= <- ->].
  apply setUint_error_keeps in Hv as ->. done.
Qed.

(** What a line with three fields or more does to the pool: it sets the
    one field that its property names, or nothing. *)
Lemma parseLine_cases z f0 f1 f2 tl z' err :
  parse_line z (f0 :: f1 :: f2 :: tl) = Done (z', err) ->
  (exists v, z' = Zpool.set_Name _ v z /\ f1 = "name")
  \/ (exists v, z' = Zpool.set_Health _ v z /\ f1 = "health")
  \/ (exists v, z' = Zpool.set_Allocated _ v z /\ f1 = "allocated")
  \/ (exists v, z' = Zpool.set_Size _ v z /\ f1 = "size")
  \/ (exists v, z' = Zpool.set_Free _ v z /\ f1 = "free")
  \/ (exists v, z' = Zpool.set_Fragmentation _ v z /\ f1 = "fragmentation")
  \/ (exists v, z' = Zpool.set_ReadOnly _ v z /\ f1 = "readonly")
  \/ (exists v, z' = Zpool.set_Freeing _ v z /\ f1 = "freeing")
  \/ (exists v, z' = Zpool.set_Leaked _ v z /\ f1 = "leaked")
  \/ (exists v, z' = Zpool.set_DedupRatio _ v z /\ f1 = "dedupratio")
  \/ (z' = z /\ err = None /\ f1 ∉ zpool_props).
Proof.
  unfold Zpool.parseLine.
  cbn [index lookup list_lookup mbind outcome_bind].
  intros H.
  unfold Zpool.assignUint in H. prop_cases f1.
  11: { do 10 right. injection H as <- <-. split; [done |]. split; [done |].
        unfold zpool_props. rewrite !not_elem_of_cons. repeat split; try done.
        apply not_elem_of_nil. }
  all: try (destruct (fragmentation_slice f2) as [v Hv]; rewrite Hv in H;
            cbn [mbind outcome_bind] in H).
  all: try (destruct (slice_to f2 (len f2 - 1)) as [| v]; [done |];
            cbn [mbind outcome_bind] in H;
            destruct (Zpool.ParseFloat _ _ _ _)).
  all: try (destruct (setUint _ _)).
  all: injection H as <- <-; eauto 15.
Qed.

(** The fields that the property of the line does not name keep their
    values. *)
Lemma parseLine_same_field z line z' err prop q :
  parse_line z line = Done (z', err) -> line !! 1%nat = Some prop ->
  q <> prop -> same_field q z z'.
Proof.
  destruct line as [| f0 [| f1 [| f2 tl]]]; try done.
  intros Hcases%parseLine_cases [= <-] Hq. unfold same_field.
  destruct Hcases as
    [(v & -> & ->) | [(v & -> & ->) | [(v & -> & ->) | [(v & -> & ->)
    | [(v & -> & ->) | [(v & -> & ->) | [(v & -> & ->) | [(v & -> & ->)
    | [(v & -> & ->) | [(v & -> & ->) | (-> & _)]]]]]]]]]].
  all: prop_cases q; try done; by destruct z.
Qed.

(** X9.  A line of zpool get changes at most the field that its
    property names: every other field of the pool keeps its value, and a
    line whose property is none of the ten known names changes nothing
    and is no error. *)
Theorem parseLine_frame z line z' err prop :
  parse_line z line = Done (z', err) -> line !! 1%nat = Some prop ->
  (forall q, q <> prop -> same_field q z z')
  /\ (prop ∉ zpool_props -> z' = z /\ err = None).
Proof.
  intros H Hprop. split; [intros q; by eapply parseLine_same_field |].
  destruct line as [| f0 [| f1 [| f2 tl]]]; try done.
  apply parseLine_cases in H as Hcases. injection Hprop as <-.
  intros Hnot.
  destruct Hcases as
    [(v & _ & ->) | [(v & _ & ->) | [(v & _ & ->) | [(v & _ & ->)
    | [(v & _ & ->) | [(v & _ & ->) | [(v & _ & ->) | [(v & _ & ->)
    | [(v & _ & ->) | [(v & _ & ->) | (-> & -> & _)]]]]]]]]]]; [.. | done].
  all: destruct Hnot; unfold zpool_props; rewrite !elem_of_cons; tauto.
Qed.

(** X10.  An error of a line other than a dedupratio line leaves the
    pool as it was. *)
Theorem parseLine_error_keeps z line z' e :
  Zpool.parseLine float64 float64_zero atof z line = Done (z', Some e) ->
  line !! 1%nat <> Some "dedupratio" -> z' = z.
Proof.
  destruct line as [| f0 [| f1 [| f2 tl]]]; try done.
  unfold Zpool.parseLine.
  cbn [index lookup list_lookup mbind outcome_bind].
  intros H Hprop. destruct (set_fields_same z) as (_ & _ & Ha & Hs & Hf & Hfr & Hfg & Hl).
  prop_cases f1; try discriminate H; try (by destruct Hprop).
  all: try (destruct (fragmentation_slice f2) as [v Hv]; rewrite Hv in H;
            cbn [mbind outcome_bind] in H).
  all: injection H as H; (eapply assignUint_error; [| exact H]); assumption.
Qed.

(** X11.  In the value of a fragmentation line everything from the
    first percent sign on is ignored: the line gives what the line with
    the text before the percent sign gives. *)
Theorem parseLine_fragmentation_cut z name pre rest :
  no_percent pre = true ->
  parse_line z [name; "fragmentation"; pre ++ String "%" rest]
  = parse_line z [name; "fragmentation"; pre].
Proof.
  intros Hpre. unfold Zpool.parseLine.
  cbn [index lookup list_lookup mbind outcome_bind String.eqb Ascii.eqb Bool.eqb].
  unfold strings.Index.
  rewrite Index_from_percent, Index_from_no_percent by done.
  pose proof (len_nonneg pre).
  destruct (Z.ltb_spec (0 + len pre) 0); [lia |].
  change (-1 <? 0) with true. cbv iota.
  by rewrite Z.add_0_l, slice_to_prefix, slice_to_all.
Qed.

(** X12.  In the value of a dedupratio line the last byte is dropped
    whatever it is, and the rest is given to ParseFloat: the ratio field
    receives what ParseFloat returns, also when it fails. *)
Theorem parseLine_dedupratio_last_byte z name body c :
  parse_line z [name; "dedupratio"; body ++ String c ""]
  = Done (Zpool.set_DedupRatio _ (Zpool.ParseFloat _ float64_zero atof body).1 z,
          ENum <$> (Zpool.ParseFloat _ float64_zero atof body).2).
Proof.
  unfold Zpool.parseLine.
  cbn [index lookup list_lookup mbind outcome_bind String.eqb Ascii.eqb Bool.eqb].
  assert (len (body ++ String c "") - 1 = len body) as ->.
  { unfold len. rewrite string_app_length. cbn [String.length]. lia. }
  rewrite slice_to_prefix. cbn [mbind outcome_bind].
  by destruct (Zpool.ParseFloat _ _ _ _).
Qed.

End ZpoolLine.

Lemma parseLine_panics_witness :
  Zpool.parseLine Z 0 (fun _ => (0, None)) (Zpool.new Z 0 "tank") ["tank"; "size"]
  = Panic
  /\ Zpool.parseLine Z 0 (fun _ => (0, None)) (Zpool.new Z 0 "tank")
       ["tank"; "dedupratio"; ""]
     = Panic.
Proof.
  split.
  - apply (proj2 (parseLine_panics Z 0 (fun _ => (0, None)) _ ["tank"; "size"])).
    left. cbn. lia.
  - apply (proj2 (parseLine_panics Z 0 (fun _ => (0, None)) _ ["tank"; "dedupratio"; ""])).
    right. split; reflexivity.
Defined.

Lemma parseLine_frame_witness :
  same_field "name" (Zpool.new Z 0 "tank") (Zpool.set_Size Z 10 (Zpool.new Z 0 "tank"))
  /\ same_field "free" (Zpool.new Z 0 "tank")
       (Zpool.set_Size Z 10 (Zpool.new Z 0 "tank")).
Proof.
  destruct (parseLine_frame Z 0 (fun _ => (0, None)) (Zpool.new Z 0 "tank")
              ["tank"; "size"; "10"] (Zpool.set_Size Z 10 (Zpool.new Z 0 "tank"))
              None "size" ltac:(vm_compute; reflexivity) eq_refl) as [H _].
  split; [exact (H "name" ltac:(discriminate)) | exact (H "free" ltac:(discriminate))].
Defined.

Lemma parseLine_error_keeps_witness :
  match Zpool.parseLine Z 0 (fun _ => (0, None)) (Zpool.new Z 0 "tank")
          ["tank"; "size"; "12k"] with
  | Done (z', Some _) => z' = Zpool.new Z 0 "tank"
  | _ => False
  end.
Proof.
  vm_compute.
  exact (parseLine_error_keeps Z 0 (fun _ => (0, None)) (Zpool.new Z 0 "tank")
           ["tank"; "size"; "12k"] (Zpool.new Z 0 "tank")
           (ENum (strconv.syntaxError strconv.fnParseUint "12k"))
           ltac:(vm_compute; reflexivity) ltac:(discriminate)).
Defined.

Lemma parseLine_fragmentation_cut_witness :
  Zpool.parseLine Z 0 (fun _ => (0, None)) (Zpool.new Z 0 "tank")
    ["tank"; "fragmentation"; "12" ++ String "%" ""]
  = Zpool.parseLine Z 0 (fun _ => (0, None)) (Zpool.new Z 0 "tank")
      ["tank"; "fragmentation"; "12"].
Proof.
  exact (parseLine_fragmentation_cut Z 0 (fun _ => (0, None)) (Zpool.new Z 0 "tank")
           "tank" "12" "" eq_refl).
Defined.

(** ** The property mapper: success, missing columns, repetition *)

Lemma setUint_field_irrelevant f g value n :
  setUint f value = (n, None) -> setUint g value = (n, None).
Proof.
  unfold setUint. destruct (negb (String.eqb value "-")); [| done].
  by destruct (strconv.ParseUint value 10 64) as [v [err |]].
Qed.

Lemma setUint_empty f : exists e, setUint f "" = (f, Some e).
Proof. by eexists. Qed.

Ltac split_setUint :=
  match goal with
  | |- context [setUint ?f ?v] =>
      let n := fresh "n" in let e := fresh "e" in let H := fresh "Hset" in
      destruct (setUint f v) as [n [e |]] eqn:H; [done |];
      apply (setUint_field_irrelevant f 0) in H
  end.

Lemma coerce_success GOOS d d' :
  Dataset.coerce GOOS d = (d', None) -> coerced GOOS d d'.
Proof.
  unfold Dataset.coerce, Dataset.andThen, Dataset.assignString, Dataset.assignUint.
  destruct d as [n o u a m c ty w v l ub q r p].
  cbn [Dataset.set_Name Dataset.set_Origin Dataset.set_Used Dataset.set_Avail
       Dataset.set_Mountpoint Dataset.set_Compression Dataset.set_Type
       Dataset.set_Volsize Dataset.set_Quota Dataset.set_Referenced
       Dataset.Used Dataset.Avail Dataset.Volsize Dataset.Quota Dataset.Referenced
       Dataset.prop Dataset.props].
  do 5 (split_setUint;
        cbn [Dataset.set_Name Dataset.set_Origin Dataset.set_Used Dataset.set_Avail
             Dataset.set_Mountpoint Dataset.set_Compression Dataset.set_Type
             Dataset.set_Volsize Dataset.set_Quota Dataset.set_Referenced
             Dataset.Used Dataset.Avail Dataset.Volsize Dataset.Quota Dataset.Referenced
             Dataset.prop Dataset.props]).
  destruct (String.eqb_spec GOOS "solaris") as [HG | HG].
  - intros [= <-]. unfold coerced. cbn. repeat split; done.
  - cbn [Dataset.set_Written Dataset.set_Logicalused Dataset.set_Usedbydataset
         Dataset.Written Dataset.Logicalused Dataset.Usedbydataset
         Dataset.prop Dataset.props].
    do 3 (split_setUint;
          cbn [Dataset.set_Written Dataset.set_Logicalused Dataset.set_Usedbydataset
               Dataset.Written Dataset.Logicalused Dataset.Usedbydataset
               Dataset.prop Dataset.props]).
    intros [= <-]. unfold coerced. cbn. repeat split; done.
Qed.

Ltac ds_cbn :=
  cbn [Dataset.set_Name Dataset.set_Origin Dataset.set_Used Dataset.set_Avail
       Dataset.set_Mountpoint Dataset.set_Compression Dataset.set_Type
       Dataset.set_Volsize Dataset.set_Quota Dataset.set_Referenced
       Dataset.set_Written Dataset.set_Logicalused Dataset.set_Usedbydataset
       Dataset.Name Dataset.Origin Dataset.Mountpoint Dataset.Compression Dataset.Type_
       Dataset.Used Dataset.Avail Dataset.Volsize Dataset.Quota Dataset.Referenced
       Dataset.Written Dataset.Logicalused Dataset.Usedbydataset
       Dataset.prop Dataset.props].

Lemma coerce_fixed GOOS d d' :
  coerced GOOS d d' -> Dataset.coerce GOOS d' = (d', None).
Proof.
  unfold coerced, Dataset.coerce, Dataset.andThen, Dataset.assignString,
    Dataset.assignUint, Dataset.prop.
  destruct d' as [n o u a m c ty w v l ub q r p]. ds_cbn.
  intros (_ & Hn & Ho & Hu & Ha & Hm & Hc & Hty & Hv & Hq & Hr & Hsol & Hnot).
  rewrite <- Hn, <- Ho.
  rewrite (setUint_field_irrelevant 0 u _ _ Hu). ds_cbn.
  rewrite (setUint_field_irrelevant 0 a _ _ Ha). ds_cbn.
  rewrite <- Hm, <- Hc, <- Hty.
  rewrite (setUint_field_irrelevant 0 v _ _ Hv). ds_cbn.
  rewrite (setUint_field_irrelevant 0 q _ _ Hq). ds_cbn.
  rewrite (setUint_field_irrelevant 0 r _ _ Hr). ds_cbn.
  destruct (String.eqb_spec GOOS "solaris") as [HG | HG]; [reflexivity |].
  destruct (Hnot HG) as (Hw & Hl & Hub). ds_cbn.
  rewrite (setUint_field_irrelevant 0 w _ _ Hw). ds_cbn.
  rewrite (setUint_field_irrelevant 0 l _ _ Hl). ds_cbn.
  rewrite (setUint_field_irrelevant 0 ub _ _ Hub). reflexivity.
Qed.

Section PropertyMapperMore.

Variable ToLower : string -> string.
Variable dsPropList : list string.
Variable GOOS : string.

Local Abbreviation parse_props := (Dataset.parseProps ToLower dsPropList GOOS).

Lemma set_props_same d : Dataset.set_props (Dataset.props d) d = d.
Proof. by destruct d. Qed.

Lemma props_set_props m d : Dataset.props (Dataset.set_props m d) = m.
Proof. by destruct d. Qed.

Lemma fill_props_paired header values m :
  Dataset.fill_props ToLower header values 0 m
  = write_pairs m (paired ToLower header values).
Proof. apply fill_props_pairs. Qed.

(** The last header field that lowercases to a key. *)
Lemma last_header_field (k : string) (header : list string) :
  k ∈ ToLower <$> header ->
  exists j v,
    header !! j = Some v /\ ToLower v = k
    /\ (forall j' v', (j < j')%nat -> header !! j' = Some v' -> ToLower v' <> ToLower v).
Proof.
  induction header as [| x header IH]; [by intros ?%elem_of_nil |].
  rewrite fmap_cons. intros Hin.
  destruct (decide (k ∈ ToLower <$> header)) as [Htail | Htail].
  - destruct (IH Htail) as (j & v & Hj & Hv & Hlater).
    exists (S j), v. split; [done |]. split; [done |].
    intros [| j'] v' Hlt Hj'; [lia |]. apply (Hlater j' v'); [lia | done].
  - apply elem_of_cons in Hin as [-> | Hin]; [| done].
    exists 0%nat, x. split; [done |]. split; [done |].
    intros [| j'] v' Hlt Hj'; [lia |]. intros Heq. apply Htail.
    rewrite <- Heq. apply list_elem_of_fmap. exists v'. split; [done |].
    by apply list_elem_of_lookup_2 with j'.
Qed.

(** Writing the same rows twice is writing them once. *)
Lemma fill_props_twice header values m :
  Dataset.fill_props ToLower header values 0
    (Dataset.fill_props ToLower header values 0 m)
  = Dataset.fill_props ToLower header values 0 m.
Proof.
  apply map_eq. intros k.
  destruct (decide (k ∈ ToLower <$> header)) as [Hin | Hout].
  - destruct (last_header_field k header Hin) as (j & v & Hj & <- & Hlater).
    by rewrite !(fill_props_last ToLower header values 0 _ j v Hj Hlater).
  - by rewrite (fill_props_other ToLower header values 0 _ k Hout).
Qed.

(** What a call without error has done. *)
Lemma parseProps_success_inv d out d' :
  parse_props d out = (d', None) ->
  exists header values,
    out = [header; values]
    /\ (length dsPropList
        < size (Dataset.fill_props ToLower header values 0 (Dataset.props d)))%nat
    /\ coerced GOOS
         (Dataset.set_props
            (Dataset.fill_props ToLower header values 0 (Dataset.props d)) d) d'.
Proof.
  unfold Dataset.parseProps.
  destruct out as [| header [| values [| ? ?]]]; try done.
  cbv zeta. rewrite props_set_props. case_bool_decide as Hsize; [done |].
  intros H%coerce_success. exists header, values. split; [done |]. split; [lia | done].
Qed.

(** X13.  After a call of parseProps without error the fields of the
    dataset are the coercions of the table: the table is the old one
    with the pairs of the two rows written in, it has more entries than
    the property list, every text field is its entry with the sentinel
    turned into the empty string, and every number field is the value
    that setUint gives for its entry.  Under solaris the three fields
    written, lused and usedds keep their values. *)
Theorem parseProps_success d out d' :
  parse_props d out = (d', None) ->
  exists header values,
    out = [header; values]
    /\ Dataset.props d' = write_pairs (Dataset.props d) (paired ToLower header values)
    /\ (length dsPropList < size (Dataset.props d'))%nat
    /\ coerced GOOS (Dataset.set_props (Dataset.props d') d) d'.
Proof.
  intros (header & values & -> & Hsize & Hco)%parseProps_success_inv.
  exists header, values. split; [done |].
  assert (Hprops : Dataset.props d'
                   = Dataset.fill_props ToLower header values 0 (Dataset.props d)).
  { destruct Hco as [-> _]. apply props_set_props. }
  rewrite Hprops. split; [apply fill_props_paired |]. done.
Qed.

(** X14.  parseProps needs the number columns: when, after the pairs
    are written, the table has no entry, or the empty string, under
    used, avail, volsize, quota or refer, the call fails. *)
Theorem parseProps_missing_column d header values k :
  k ∈ ["used"; "avail"; "volsize"; "quota"; "refer"] ->
  Dataset.prop
    (Dataset.set_props
       (write_pairs (Dataset.props d) (paired ToLower header values)) d) k = "" ->
  exists e, (parse_props d [header; values]).2 = Some e.
Proof.
  intros Hk Hempty.
  destruct (parse_props d [header; values]) as [d' [e |]] eqn:Hparse; [by exists e |].
  apply parseProps_success_inv in Hparse
    as (header' & values' & [= <- <-] & _ & Hco).
  rewrite <- fill_props_paired in Hempty.
  unfold coerced in Hco. destruct Hco as (Hp & _ & _ & Hu & Ha & _ & _ & _ & Hv & Hq & Hr & _).
  assert (Hprop : Dataset.prop d' k = "").
  { unfold Dataset.prop in *. by rewrite Hp. }
  cbv zeta in *.
  repeat (apply elem_of_cons in Hk as [-> | Hk]; [rewrite Hprop in *; discriminate |]).
  by apply elem_of_nil in Hk.
Qed.

(** X15.  Giving parseProps the same rows again changes nothing: after
    a call without error a second call with the same rows returns the
    same dataset and no error. *)
Theorem parseProps_idempotent d out d' :
  Dataset.parseProps ToLower dsPropList GOOS d out = (d', None) ->
  Dataset.parseProps ToLower dsPropList GOOS d' out = (d', None).
Proof.
  intros (header & values & -> & Hsize & Hco)%parseProps_success_inv.
  assert (Hprops : Dataset.props d'
                   = Dataset.fill_props ToLower header values 0 (Dataset.props d)).
  { destruct Hco as [-> _]. apply props_set_props. }
  unfold Dataset.parseProps. cbv zeta.
  rewrite props_set_props, Hprops, fill_props_twice, <- Hprops, set_props_same.
  rewrite bool_decide_eq_false_2 by (rewrite Hprops; lia).
  exact (coerce_fixed GOOS _ d' Hco).
Qed.

End PropertyMapperMore.

Lemma parseProps_success_witness :
  exists header values,
    [["NAME"; "USED"; "AVAIL"; "VOLSIZE"; "QUOTA"; "REFER"];
     ["tank"; "1"; "2"; "-"; "-"; "3"]] = [header; values]
    /\ Dataset.props
         (Dataset.parseProps ToLowerASCII [] "solaris" (Dataset.new "tank")
            [["NAME"; "USED"; "AVAIL"; "VOLSIZE"; "QUOTA"; "REFER"];
             ["tank"; "1"; "2"; "-"; "-"; "3"]]).1
       = write_pairs (Dataset.props (Dataset.new "tank"))
           (paired ToLowerASCII header values)
    /\ (length ([] : list string)
        < size (Dataset.props
                  (Dataset.parseProps ToLowerASCII [] "solaris" (Dataset.new "tank")
                     [["NAME"; "USED"; "AVAIL"; "VOLSIZE"; "QUOTA"; "REFER"];
                      ["tank"; "1"; "2"; "-"; "-"; "3"]]).1))%nat
    /\ coerced "solaris"
         (Dataset.set_props
            (Dataset.props
               (Dataset.parseProps ToLowerASCII [] "solaris" (Dataset.new "tank")
                  [["NAME"; "USED"; "AVAIL"; "VOLSIZE"; "QUOTA"; "REFER"];
                   ["tank"; "1"; "2"; "-"; "-"; "3"]]).1)
            (Dataset.new "tank"))
         (Dataset.parseProps ToLowerASCII [] "solaris" (Dataset.new "tank")
            [["NAME"; "USED"; "AVAIL"; "VOLSIZE"; "QUOTA"; "REFER"];
             ["tank"; "1"; "2"; "-"; "-"; "3"]]).1.
Proof.
  exact (parseProps_success ToLowerASCII [] "solaris" (Dataset.new "tank")
           [["NAME"; "USED"; "AVAIL"; "VOLSIZE"; "QUOTA"; "REFER"];
            ["tank"; "1"; "2"; "-"; "-"; "3"]]
           (Dataset.parseProps ToLowerASCII [] "solaris" (Dataset.new "tank")
              [["NAME"; "USED"; "AVAIL"; "VOLSIZE"; "QUOTA"; "REFER"];
               ["tank"; "1"; "2"; "-"; "-"; "3"]]).1
           ltac:(vm_compute; reflexivity)).
Defined.

Lemma parseProps_missing_column_witness :
  exists e,
    (Dataset.parseProps ToLowerASCII [] "solaris" (Dataset.new "tank")
       [["NAME"; "AVAIL"]; ["tank"; "2"]]).2 = Some e.
Proof.
  exact (parseProps_missing_column ToLowerASCII [] "solaris" (Dataset.new "tank")
           ["NAME"; "AVAIL"] ["tank"; "2"] "used"
           ltac:(apply (bool_decide_unpack _); vm_compute; exact I)
           ltac:(vm_compute; reflexivity)).
Defined.

Lemma parseProps_idempotent_witness :
  Dataset.parseProps ToLowerASCII [] "solaris"
    (Dataset.parseProps ToLowerASCII [] "solaris" (Dataset.new "tank")
       [["NAME"; "USED"; "AVAIL"; "VOLSIZE"; "QUOTA"; "REFER"];
        ["tank"; "1"; "2"; "-"; "-"; "3"]]).1
    [["NAME"; "USED"; "AVAIL"; "VOLSIZE"; "QUOTA"; "REFER"];
     ["tank"; "1"; "2"; "-"; "-"; "3"]]
  = ((Dataset.parseProps ToLowerASCII [] "solaris" (Dataset.new "tank")
        [["NAME"; "USED"; "AVAIL"; "VOLSIZE"; "QUOTA"; "REFER"];
         ["tank"; "1"; "2"; "-"; "-"; "3"]]).1, None).
Proof.
  exact (parseProps_idempotent ToLowerASCII [] "solaris" (Dataset.new "tank")
           [["NAME"; "USED"; "AVAIL"; "VOLSIZE"; "QUOTA"; "REFER"];
            ["tank"; "1"; "2"; "-"; "-"; "3"]]
           (Dataset.parseProps ToLowerASCII [] "solaris" (Dataset.new "tank")
              [["NAME"; "USED"; "AVAIL"; "VOLSIZE"; "QUOTA"; "REFER"];
               ["tank"; "1"; "2"; "-"; "-"; "3"]]).1
           ltac:(vm_compute; reflexivity)).
Defined.

(** ** GetZpool and ListZpools *)

Lemma same_field_refl {float64 : Type} q (z : Zpool.t float64) : same_field q z z.
Proof.
  unfold same_field.
  repeat match goal with
         | |- context [String.eqb q ?s] => destruct (String.eqb q s); [done |]
         end.
  done.
Qed.

Lemma same_field_trans {float64 : Type} q (z1 z2 z3 : Zpool.t float64) :
  same_field q z1 z2 -> same_field q z2 z3 -> same_field q z1 z3.
Proof.
  unfold same_field.
  repeat match goal with
         | |- context [String.eqb q ?s] =>
             destruct (String.eqb q s); [intros H1 H2; by rewrite H2, H1 |]
         end.
  done.
Qed.

Section ZpoolGet.

Variable float64 : Type.
Variable float64_zero : float64.
Variable atof : string -> float64 * option NumError.
Variable zpoolArgs : list string.

Local Abbreviation read_line := (Zpool.parseLine float64 float64_zero atof).
Local Abbreviation get_rows := (ZpoolOps.get_loop float64 float64_zero atof).
Local Abbreviation get_zpool := (ZpoolOps.GetZpool float64 float64_zero atof zpoolArgs).
Local Abbreviation list_rows := (ZpoolOps.list_loop float64 float64_zero atof zpoolArgs).
Local Abbreviation list_zpools := (ZpoolOps.ListZpools float64 float64_zero atof zpoolArgs).

(** The loop of GetZpool returns a pool or an error, never both. *)
Lemma get_loop_cases out :
  forall pool p e,
    get_rows out pool = Done (p, e) ->
    (exists pool', p = Some pool' /\ e = None) \/ (p = None /\ exists err, e = Some err).
Proof.
  induction out as [| line out IH]; intros pool p e; cbn [ZpoolOps.get_loop].
  - intros [= <- <-]. left. by eexists.
  - destruct (read_line pool line) as [| [pool' [err |]]]; cbn [mbind outcome_bind].
    + done.
    + intros [= <- <-]. right. split; [done |]. by eexists.
    + apply IH.
Qed.

Lemma get_loop_frame q out :
  forall pool pool',
    get_rows out pool = Done (Some pool', None) ->
    Forall (fun line : list string => line !! 1%nat <> Some q) out ->
    same_field q pool pool'.
Proof.
  induction out as [| line out IH]; intros pool pool'; cbn [ZpoolOps.get_loop].
  - intros [= <-] _. apply same_field_refl.
  - destruct (read_line pool line) as [| [pool1 [err |]]] eqn:Hline;
      cbn [mbind outcome_bind]; [done | done |].
    intros Hloop [Hq Hout]%Forall_cons.
    apply same_field_trans with pool1; [| by apply IH].
    destruct (line !! 1%nat) as [prop |] eqn:Hprop.
    + eapply parseLine_same_field; [exact Hline | exact Hprop |].
      intros ->. by apply Hq.
    + by destruct line as [| f0 [| f1 tl]].
Qed.

Lemma GetZpool_cases z name p e :
  get_zpool z name = Done (p, e) ->
  (exists pool, p = Some pool /\ e = None) \/ (p = None /\ exists err, e = Some err).
Proof.
  unfold ZpoolOps.GetZpool. cbv zeta.
  destruct (zpoolOutput z (zpoolArgs ++ [name])) as [out [err |]].
  - intros [= <- <-]. right. split; [done |]. by eexists.
  - apply get_loop_cases.
Qed.

(** X16.  GetZpool starts from a pool that has the requested name and
    zero in every other field, and a property that no row of the output
    names keeps that value in the pool that is returned.  A pool is
    returned without an error and an error without a pool. *)
Theorem GetZpool_frame z name p e :
  get_zpool z name = Done (p, e) ->
  (e = None <-> is_Some p)
  /\ (forall pool q,
        p = Some pool ->
        Forall (fun line : list string => line !! 1%nat <> Some q)
          (zpoolOutput z (zpoolArgs ++ [name])).1 ->
        same_field q (Zpool.new float64 float64_zero name) pool).
Proof.
  intros H. split.
  - apply GetZpool_cases in H as [(pool & -> & ->) | (-> & err & ->)].
    + split; [by eexists | done].
    + split; [done | by intros [? [=]]].
  - intros pool q -> Hq. revert H Hq. unfold ZpoolOps.GetZpool. cbv zeta.
    destruct (zpoolOutput z (zpoolArgs ++ [name])) as [out [err |]]; [done |].
    cbn [fst]. intros H Hq.
    apply get_loop_cases in H as Hcases.
    destruct Hcases as [(pool' & [= <-] & ->) | ([=] & _)].
    by apply get_loop_frame with out.
Qed.

Lemma list_loop_rows z out :
  forall done pools e,
    list_rows z out done = Done (pools, e) ->
    (e = None
     /\ exists more,
          pools = (done ++ more)%list
          /\ Forall2 (fun (line : list string) p =>
                        exists n pool,
                          line !! 0%nat = Some n /\ p = Some pool
                          /\ get_zpool z n = Done (Some pool, None))
               out more)
    \/ (pools = [] /\ exists err, e = Some err).
Proof.
  induction out as [| line out IH]; intros done pools e; cbn [ZpoolOps.list_loop].
  - intros [= <- <-]. left. split; [done |]. exists []. by rewrite app_nil_r.
  - destruct line as [| n fields]; [done |].
    cbn [index lookup list_lookup mbind outcome_bind].
    destruct (get_zpool z n) as [| [p [err |]]] eqn:Hget; cbn [mbind outcome_bind].
    + done.
    + intros [= <- <-]. right. split; [done |]. by eexists.
    + intros H. apply IH in H as [(-> & more & -> & Hmore) | Herr]; [| by right].
      left. split; [done |]. exists (p :: more).
      split; [by rewrite <- app_assoc |].
      constructor; [| done].
      apply GetZpool_cases in Hget as Hcases.
      destruct Hcases as [(pool & -> & _) | (_ & err & [=])].
      by exists n, pool.
Qed.

(** X17.  ListZpools returns all or nothing.  Without an error there is
    one pool per row of the listing, in the order of the rows: the pool
    that GetZpool returns for the first field of the row, never nil.  An
    error, of the listing or of a call of GetZpool, comes with no pool. *)
Theorem ListZpools_rows z pools e :
  list_zpools z = Done (pools, e) ->
  (e = None
   /\ Forall2 (fun (line : list string) p =>
                 exists n pool,
                   line !! 0%nat = Some n /\ p = Some pool
                   /\ get_zpool z n = Done (Some pool, None))
        (zpoolOutput z ["list"; "-Ho"; "name"]).1 pools)
  \/ (pools = [] /\ exists err, e = Some err).
Proof.
  unfold ZpoolOps.ListZpools.
  destruct (zpoolOutput z ["list"; "-Ho"; "name"]) as [out [err |]]; cbn [fst].
  - intros [= <- <-]. right. split; [done |]. by eexists.
  - intros H. apply list_loop_rows in H as [(-> & more & -> & Hmore) | Herr]; [| by right].
    left. by split.
Qed.

End ZpoolGet.

Lemma GetZpool_frame_witness :
  same_field "health" (Zpool.new Z 0 "tank") (Zpool.set_Size Z 10 (Zpool.new Z 0 "tank")).
Proof.
  exact (proj2 (GetZpool_frame Z 0 (fun _ => (0, None)) ["get"; "-Hp"; "all"]
                  (mkzfs (fun _ _ _ => mkExecResult None (unlines ["tank size 10 -"]) "")
                     false)
                  "tank" (Some (Zpool.set_Size Z 10 (Zpool.new Z 0 "tank"))) None
                  ltac:(vm_compute; reflexivity))
           (Zpool.set_Size Z 10 (Zpool.new Z 0 "tank")) "health" eq_refl
           ltac:(vm_compute; repeat constructor; discriminate)).
Defined.

Lemma ListZpools_rows_witness :
  (@None error = None
   /\ Forall2 (fun (line : list string) p =>
                 exists n pool,
                   line !! 0%nat = Some n /\ p = Some pool
                   /\ ZpoolOps.GetZpool Z 0 (fun _ => (0, None)) ["get"; "-Hp"; "all"]
                        (mkzfs (fun _ _ _ =>
                                  mkExecResult None (unlines ["tank size 10 -"]) "")
                           false) n
                      = Done (Some pool, None))
        (zpoolOutput
           (mkzfs (fun _ _ _ => mkExecResult None (unlines ["tank size 10 -"]) "") false)
           ["list"; "-Ho"; "name"]).1
        [Some (Zpool.set_Size Z 10 (Zpool.new Z 0 "tank"))])
  \/ ([Some (Zpool.set_Size Z 10 (Zpool.new Z 0 "tank"))] = []
      /\ exists err, @None error = Some err).
Proof.
  exact (ListZpools_rows Z 0 (fun _ => (0, None)) ["get"; "-Hp"; "all"]
           (mkzfs (fun _ _ _ => mkExecResult None (unlines ["tank size 10 -"]) "") false)
           [Some (Zpool.set_Size Z 10 (Zpool.new Z 0 "tank"))] None
           ltac:(vm_compute; reflexivity)).
Defined.

(** ** Commands on a dataset *)

Lemma land_bit a k :
  0 <= k -> (Z.land a (Z.shiftl 1 k) =? 0) = negb (Z.testbit a k).
Proof.
  intros Hk. rewrite Z.shiftl_1_l.
  destruct (Z.testbit a k) eqn:Hbit; cbn [negb].
  - apply Z.eqb_neq. intros Hzero.
    assert (Hland : Z.testbit (Z.land a (2 ^ k)) k = true).
    { rewrite Z.land_spec, Hbit, Z.pow2_bits_true by done. done. }
    rewrite Hzero, Z.bits_0 in Hland. done.
  - apply Z.eqb_eq. apply Z.bits_inj'. intros n _.
    rewrite Z.land_spec, Z.bits_0, Z.pow2_bits_eqb by done.
    destruct (Z.eqb_spec k n) as [<- | _]; [by rewrite Hbit | apply andb_false_r].
Qed.

Lemma destroy_args_options d flags :
  DatasetOps.destroy_args d flags
  = ("destroy" :: destroy_options flags ++ [Dataset.Name d])%list.
Proof.
  unfold DatasetOps.destroy_args, DatasetOps.DestroyRecursive,
    DatasetOps.DestroyRecursiveClones, DatasetOps.DestroyDeferDeletion,
    DatasetOps.DestroyForceUmount.
  rewrite !land_bit by lia. rewrite !negb_involutive.
  unfold destroy_options, flag_option.
  by destruct (Z.testbit flags 1), (Z.testbit flags 2), (Z.testbit flags 3),
    (Z.testbit flags 4).
Qed.

Lemma destroy_options_default flags :
  destroy_options (Z.lor flags DatasetOps.DestroyDefault) = destroy_options flags.
Proof.
  unfold destroy_options, flag_option, DatasetOps.DestroyDefault.
  rewrite Z.shiftl_1_l, !Z.lor_spec, !Z.pow2_bits_false by lia.
  by rewrite !orb_false_r.
Qed.

(** X18.  Destroy runs zfs destroy with the options of the bits 1 to 4
    of the flags, -r, -R, -d and -f in this order whatever the order in
    which the flags were combined, and the name of the dataset last.
    DestroyDefault, which is bit 0 and not zero, adds nothing to any
    combination of flags. *)
Theorem Destroy_flags z d flags :
  DatasetOps.Destroy z d flags
  = do z ("destroy" :: destroy_options flags ++ [Dataset.Name d])%list
  /\ DatasetOps.Destroy z d (Z.lor flags DatasetOps.DestroyDefault)
     = DatasetOps.Destroy z d flags.
Proof.
  unfold DatasetOps.Destroy.
  by rewrite !destroy_args_options, destroy_options_default.
Qed.

Lemma flatten_pairs_length kvs :
  length (flatten_pairs kvs) = (2 * length kvs)%nat.
Proof.
  induction kvs as [| [k v] kvs IH]; [done |].
  cbn [flatten_pairs length]. rewrite IH. lia.
Qed.

Lemma set_args_loop_pairs kvs :
  forall args,
    DatasetOps.set_args_loop (flatten_pairs kvs) args
    = (args ++ (assignment <$> kvs))%list.
Proof.
  induction kvs as [| [k v] kvs IH]; intros args;
    cbn [flatten_pairs DatasetOps.set_args_loop fmap list_fmap].
  - by rewrite app_nil_r.
  - rewrite IH, <- app_assoc. done.
Qed.

(** X19.  SetProperties with one or more pairs runs one zfs set with an
    argument key=value for each pair, in order, and the name of the
    dataset last; with one pair this is SetProperty.  With an odd number
    of strings it returns its own error, and with none it returns nil,
    in both cases whatever the executor would do. *)
Theorem SetProperties_command z d :
  (forall kvs,
     kvs <> [] ->
     DatasetOps.SetProperties z d (flatten_pairs kvs)
     = OfRun <$> do z ("set" :: (assignment <$> kvs) ++ [Dataset.Name d])%list)
  /\ (forall k v,
        DatasetOps.SetProperties z d [k; v] = OfRun <$> DatasetOps.SetProperty z d k v)
  /\ (forall kvs k,
        DatasetOps.SetProperties z d (flatten_pairs kvs ++ [k])%list
        = Some (ErrorsNew "keyValPairs must be an even number of strings"))
  /\ DatasetOps.SetProperties z d [] = None.
Proof.
  split; [| split; [done |]; split; [| done]].
  - intros kvs Hne. unfold DatasetOps.SetProperties.
    rewrite flatten_pairs_length.
    destruct (Z.eqb_spec (Z.of_nat (2 * length kvs)) 0) as [Hz | _].
    { destruct kvs; [done | cbn [length] in Hz; lia]. }
    replace (Z.of_nat (2 * length kvs) mod 2) with 0
      by (rewrite Nat2Z.inj_mul, Z.mul_comm, Z.mod_mul; lia).
    cbn [Z.eqb negb]. cbv zeta. by rewrite set_args_loop_pairs.
  - intros kvs k. unfold DatasetOps.SetProperties.
    rewrite length_app, flatten_pairs_length. cbn [length].
    destruct (Z.eqb_spec (Z.of_nat (2 * length kvs + 1)) 0) as [Hz | _]; [lia |].
    replace (Z.of_nat (2 * length kvs + 1) mod 2) with 1; [done |].
    rewrite Nat2Z.inj_add, Nat2Z.inj_mul, Z.add_comm, Z.mul_comm, Z.mod_add by lia.
    done.
Qed.

(** X20.  The value that GetProperty returns is the third field of the
    first row of the output, so it is never empty and never holds white
    space.  An error of the command comes with the empty string.  When
    the command succeeds without printing a newline, there is no row and
    GetProperty panics. *)
Theorem GetProperty_value z d key :
  (forall v,
     DatasetOps.GetProperty z d key = Done (v, None) ->
     is_field v
     /\ exists row,
          (doOutput z ["get"; "-H"; "-p"; key; Dataset.Name d]).1 !! 0%nat = Some row
          /\ row !! 2%nat = Some v)
  /\ (forall v e,
        DatasetOps.GetProperty z d key = Done (v, Some e) ->
        v = "" /\ (doOutput z ["get"; "-H"; "-p"; key; Dataset.Name d]).2 = Some e)
  /\ (exec_err (invoke z None "zfs" ["get"; "-H"; "-p"; key; Dataset.Name d]) = None ->
      no_newline
        (exec_stdout (invoke z None "zfs" ["get"; "-H"; "-p"; key; Dataset.Name d]))
      = true ->
      DatasetOps.GetProperty z d key = Panic).
Proof.
  unfold DatasetOps.GetProperty. split; [| split].
  - intros v.
    destruct (doOutput z _) as [out [err |]] eqn:Hout; [done |].
    apply doOutput_fields in Hout. cbn [fst].
    destruct out as [| row out]; [done |].
    unfold index. cbn [lookup list_lookup mbind outcome_bind].
    destruct (row !! 2%nat) as [v' |] eqn:Hv; [| done].
    cbn [mbind outcome_bind].
    intros [= <-]. apply Forall_cons in Hout as [Hrow _].
    split; [by eapply Forall_lookup_1 | by exists row].
  - intros v e.
    destruct (doOutput z _) as [out [err |]]; [by intros [= <- <-] |].
    destruct out as [| row out]; [done |].
    unfold index. cbn [lookup list_lookup mbind outcome_bind].
    by destruct (row !! 2%nat).
  - intros Hok Hnl. unfold doOutput.
    rewrite run_buffered_eq, Split_no_sep by done. done.
Qed.

Lemma get_props_loop_rows out :
  forall props,
    Forall (fun row : list string => (3 <= length row)%nat) out ->
    exists more,
      DatasetOps.get_props_loop out props = Done (props ++ more)%list
      /\ Forall2 (fun (row : list string) p => row !! 2%nat = Some p) out more.
Proof.
  induction out as [| row out IH]; intros props Hout.
  - exists []. by rewrite app_nil_r.
  - apply Forall_cons in Hout as [Hrow Hout].
    destruct row as [| f0 [| f1 [| f2 tl]]]; try (cbn in Hrow; lia).
    cbn [DatasetOps.get_props_loop index lookup list_lookup mbind outcome_bind].
    destruct (IH (props ++ [f2])%list Hout) as (more & -> & Hmore).
    exists (f2 :: more). split; [by rewrite <- app_assoc | by constructor].
Qed.

Lemma get_props_loop_short out :
  forall props,
    Exists (fun row : list string => (length row < 3)%nat) out ->
    DatasetOps.get_props_loop out props = Panic.
Proof.
  induction out as [| row out IH]; intros props Hout; [by apply Exists_nil in Hout |].
  apply Exists_cons in Hout.
  destruct row as [| f0 [| f1 [| f2 tl]]]; try reflexivity.
  destruct Hout as [Hrow | Hout]; [cbn in Hrow; lia |].
  cbn [DatasetOps.get_props_loop index lookup list_lookup mbind outcome_bind].
  by apply IH.
Qed.

Lemma get_props_loop_acc out :
  forall acc,
    DatasetOps.get_props_loop out acc
    = (more ← DatasetOps.get_props_loop out []; Done (acc ++ more)%list).
Proof.
  induction out as [| r out IH]; intros acc; cbn [DatasetOps.get_props_loop].
  - cbn [mbind outcome_bind]. by rewrite app_nil_r.
  - destruct (index r 2) as [| v]; cbn [mbind outcome_bind app]; [done |].
    rewrite (IH (acc ++ [v])%list), (IH [v]).
    destruct (DatasetOps.get_props_loop out []) as [| more];
      cbn [mbind outcome_bind]; [done |].
    by rewrite <- app_assoc.
Qed.

Lemma GetProperties_eq z d keys :
  keys <> [] ->
  DatasetOps.GetProperties z d keys =
    match doOutput z ["get"; "-H"; "-p"; strings.Join keys ","; Dataset.Name d] with
    | (_, Some err) => Done ([], Some err)
    | (out, None) => props ← DatasetOps.get_props_loop out []; Done (props, None)
    end.
Proof.
  intros Hne. unfold DatasetOps.GetProperties.
  destruct (Z.eqb_spec (Z.of_nat (length keys)) 0) as [Hz | _]; [| done].
  destruct keys; [done | cbn [length] in Hz; lia].
Qed.

(** X21.  GetProperties with one key or more returns one value per row
    of the output, not per key: the third field of each row, in the
    order of the rows.  It panics when a row has fewer than three
    fields. *)
Theorem GetProperties_rows z d keys out :
  keys <> [] ->
  doOutput z ["get"; "-H"; "-p"; strings.Join keys ","; Dataset.Name d] = (out, None) ->
  (Forall (fun row : list string => (3 <= length row)%nat) out ->
   exists props,
     DatasetOps.GetProperties z d keys = Done (props, None)
     /\ Forall2 (fun (row : list string) p => row !! 2%nat = Some p) out props)
  /\ (Exists (fun row : list string => (length row < 3)%nat) out ->
      DatasetOps.GetProperties z d keys = Panic).
Proof.
  intros Hne Hout. rewrite GetProperties_eq, Hout by done. split.
  - intros Hrows. destruct (get_props_loop_rows out [] Hrows) as (more & -> & Hmore).
    by exists more.
  - intros Hshort. by rewrite get_props_loop_short.
Qed.

(** X22.  GetProperty and GetProperties with the one key give the same
    arguments to zfs get.  Over a given output, that is when the run of
    the one and the run of the other print the same rows: the first
    value of GetProperties is the value of GetProperty, and where
    GetProperties returns no value, GetProperty panics.  The two runs
    may be those of different executors. *)
Theorem GetProperty_GetProperties z1 z2 d key out :
  doOutput z1 ["get"; "-H"; "-p"; key; Dataset.Name d] = (out, None) ->
  doOutput z2 ["get"; "-H"; "-p"; strings.Join [key] ","; Dataset.Name d]
  = (out, None) ->
  strings.Join [key] "," = key
  /\ (forall p ps,
        DatasetOps.GetProperties z2 d [key] = Done (p :: ps, None) ->
        DatasetOps.GetProperty z1 d key = Done (p, None))
  /\ (DatasetOps.GetProperties z2 d [key] = Done ([], None) ->
      DatasetOps.GetProperty z1 d key = Panic).
Proof.
  intros Hout1 Hout2. split; [done |].
  rewrite GetProperties_eq, Hout2 by done. unfold DatasetOps.GetProperty.
  rewrite Hout1.
  destruct out as [| row out]; [done |].
  destruct row as [| f0 [| f1 [| f2 tl]]]; try done.
  cbn [DatasetOps.get_props_loop index lookup list_lookup mbind outcome_bind app].
  destruct (DatasetOps.get_props_loop out [f2]) as [| props] eqn:Hloop;
    cbn [mbind outcome_bind]; [done |].
  assert (Hhead : exists more, props = f2 :: more).
  { rewrite get_props_loop_acc in Hloop.
    destruct (DatasetOps.get_props_loop out []) as [| more]; [done |].
    injection Hloop as <-. by exists more. }
  destruct Hhead as [more ->].
  split; [by intros p ps [= <- <-] | done].
Qed.

Lemma all_props_loop_rows out :
  forall props,
    Forall (fun row : list string => (3 <= length row)%nat) out ->
    exists m,
      DatasetOps.all_props_loop out props = Done m
      /\ forall k,
           m !! k = match last_value k out with
                    | Some v => Some v
                    | None => props !! k
                    end.
Proof.
  induction out as [| row out IH]; intros props Hout.
  - by exists props.
  - apply Forall_cons in Hout as [Hrow Hout].
    destruct row as [| f0 [| f1 [| f2 tl]]]; try (cbn in Hrow; lia).
    cbn [DatasetOps.all_props_loop index lookup list_lookup mbind outcome_bind].
    destruct (IH (<[f1 := f2]> props) Hout) as (m & -> & Hm).
    exists m. split; [done |]. intros k. rewrite Hm. cbn [last_value].
    destruct (last_value k out) as [v |]; [done |].
    cbn [lookup list_lookup].
    case_bool_decide as Hk.
    + injection Hk as ->. apply lookup_insert_eq.
    + apply lookup_insert_ne. by intros ->.
Qed.

Lemma all_props_loop_short out :
  forall props,
    Exists (fun row : list string => (length row < 3)%nat) out ->
    DatasetOps.all_props_loop out props = Panic.
Proof.
  induction out as [| row out IH]; intros props Hout; [by apply Exists_nil in Hout |].
  apply Exists_cons in Hout.
  destruct row as [| f0 [| f1 [| f2 tl]]]; try reflexivity.
  destruct Hout as [Hrow | Hout]; [cbn in Hrow; lia |].
  cbn [DatasetOps.all_props_loop index lookup list_lookup mbind outcome_bind].
  by apply IH.
Qed.

(** X23.  The map of GetAllProperties has, under each name that is the
    second field of a row, the third field of the last such row, and
    nothing under any other name.  It panics when a row has fewer than
    three fields. *)
Theorem GetAllProperties_last_wins z d out :
  doOutput z ["get"; "-H"; "-p"; "all"; Dataset.Name d] = (out, None) ->
  (Forall (fun row : list string => (3 <= length row)%nat) out ->
   exists m,
     DatasetOps.GetAllProperties z d = Done (m, None)
     /\ forall k, m !! k = last_value k out)
  /\ (Exists (fun row : list string => (length row < 3)%nat) out ->
      DatasetOps.GetAllProperties z d = Panic).
Proof.
  intros Hout. unfold DatasetOps.GetAllProperties. rewrite Hout. split.
  - intros Hrows. destruct (all_props_loop_rows out ∅ Hrows) as (m & -> & Hm).
    exists m. split; [done |]. intros k. rewrite Hm, lookup_empty.
    by destruct (last_value k out).
  - intros Hshort. by rewrite all_props_loop_short.
Qed.

Section ListingBlank.

Variable ToLower : string -> string.
Variable dsPropList : list string.
Variable GOOS : string.

(** The loop on rows that a row without fields follows does what the
    loop on the rows does, and panics where that one is through. *)
Lemma list_loop_app_blank header before after :
  forall name datasets,
    Dataset.list_loop ToLower dsPropList GOOS header (before ++ [] :: after)%list
      name datasets
    = match Dataset.list_loop ToLower dsPropList GOOS header before name datasets with
      | Done (_, None) => Panic
      | r => r
      end.
Proof.
  induction before as [| line rest IH]; intros name datasets; [done |].
  destruct line as [| n fields]; [done |].
  cbn [app Dataset.list_loop index lookup list_lookup mbind outcome_bind].
  destruct (negb (String.eqb name n)).
  all: match goal with
       | |- context [last ?l] => destruct (last l) as [ds |]; [| done]
       end.
  all: destruct (Dataset.parseProps ToLower dsPropList GOOS ds [header; n :: fields])
         as [ds' [e |]]; [done | apply IH].
Qed.

(** X24.  A listing whose output has a row without fields (a blank
    line) among the value rows does what the listing of the rows before
    that row does, except that it cannot succeed: where the rows before
    the blank one parse, it panics at the blank row; where one of them
    fails, the error is returned as it is without the blank row.  The
    two outputs are given, they may come from different executors. *)
Theorem listByType_blank_row z z' ty filter header before after :
  doOutput z (list_args ty filter) = (header :: before ++ [] :: after, None)%list ->
  doOutput z' (list_args ty filter) = (header :: before, None) ->
  Dataset.listByType ToLower dsPropList GOOS z ty filter
  = match Dataset.listByType ToLower dsPropList GOOS z' ty filter with
    | Done (_, None) => Panic
    | r => r
    end.
Proof.
  intros Hout Hout'. rewrite !listByType_eq, Hout, Hout'.
  apply list_loop_app_blank.
Qed.

End ListingBlank.

Lemma SetProperties_command_witness :
  DatasetOps.SetProperties (mkzfs (fun _ _ _ => mkExecResult None "" "") false)
    (Dataset.new "tank") (flatten_pairs [("quota", "1G"); ("atime", "off")])
  = OfRun <$> do (mkzfs (fun _ _ _ => mkExecResult None "" "") false)
                ("set" :: (assignment <$> [("quota", "1G"); ("atime", "off")])
                 ++ [Dataset.Name (Dataset.new "tank")])%list.
Proof.
  exact (proj1 (SetProperties_command
                  (mkzfs (fun _ _ _ => mkExecResult None "" "") false)
                  (Dataset.new "tank"))
           [("quota", "1G"); ("atime", "off")] ltac:(discriminate)).
Defined.

Lemma GetProperty_value_witness :
  is_field "/my"
  /\ exists row,
       (doOutput
          (mkzfs (fun _ _ _ =>
                    mkExecResult None (unlines ["tank mountpoint /my dir -"]) "")
             false)
          ["get"; "-H"; "-p"; "mountpoint"; Dataset.Name (Dataset.new "tank")]).1
       !! 0%nat = Some row
       /\ row !! 2%nat = Some "/my".
Proof.
  exact (proj1 (GetProperty_value
                  (mkzfs (fun _ _ _ =>
                            mkExecResult None (unlines ["tank mountpoint /my dir -"]) "")
                     false)
                  (Dataset.new "tank") "mountpoint")
           "/my" ltac:(vm_compute; reflexivity)).
Defined.

Lemma GetProperties_rows_witness :
  exists props,
    DatasetOps.GetProperties
      (mkzfs (fun _ _ _ =>
                mkExecResult None (unlines ["tank used 1 -"; "tank avail 2 -"]) "")
         false)
      (Dataset.new "tank") ["used"; "avail"]
    = Done (props, None)
    /\ Forall2 (fun (row : list string) p => row !! 2%nat = Some p)
         [["tank"; "used"; "1"; "-"]; ["tank"; "avail"; "2"; "-"]] props.
Proof.
  exact (proj1 (GetProperties_rows
                  (mkzfs (fun _ _ _ =>
                            mkExecResult None
                              (unlines ["tank used 1 -"; "tank avail 2 -"]) "")
                     false)
                  (Dataset.new "tank") ["used"; "avail"]
                  [["tank"; "used"; "1"; "-"]; ["tank"; "avail"; "2"; "-"]]
                  ltac:(discriminate) ltac:(vm_compute; reflexivity))
           ltac:(repeat constructor)).
Defined.

Lemma GetProperty_GetProperties_witness :
  DatasetOps.GetProperty
    (mkzfs (fun _ _ _ => mkExecResult None (unlines ["tank used 1 -"]) "") false)
    (Dataset.new "tank") "used"
  = Done ("1", None).
Proof.
  exact (proj1 (proj2 (GetProperty_GetProperties
                         (mkzfs (fun _ _ _ =>
                                   mkExecResult None (unlines ["tank used 1 -"]) "")
                            false)
                         (mkzfs (fun _ _ _ =>
                                   mkExecResult None (unlines ["tank  used 1   -"]) "")
                            true)
                         (Dataset.new "tank") "used" [["tank"; "used"; "1"; "-"]]
                         ltac:(vm_compute; reflexivity) ltac:(vm_compute; reflexivity)))
           "1" [] ltac:(vm_compute; reflexivity)).
Defined.

Lemma GetAllProperties_last_wins_witness :
  exists m,
    DatasetOps.GetAllProperties
      (mkzfs (fun _ _ _ =>
                mkExecResult None (unlines ["tank used 1 -"; "tank used 2 -"]) "")
         false)
      (Dataset.new "tank")
    = Done (m, None)
    /\ forall k,
         m !! k
         = last_value k [["tank"; "used"; "1"; "-"]; ["tank"; "used"; "2"; "-"]].
Proof.
  exact (proj1 (GetAllProperties_last_wins
                  (mkzfs (fun _ _ _ =>
                            mkExecResult None
                              (unlines ["tank used 1 -"; "tank used 2 -"]) "")
                     false)
                  (Dataset.new "tank")
                  [["tank"; "used"; "1"; "-"]; ["tank"; "used"; "2"; "-"]]
                  ltac:(vm_compute; reflexivity))
           ltac:(repeat constructor)).
Defined.

Lemma listByType_blank_row_witness :
  Dataset.listByType ToLowerASCII [] "solaris"
    (mkzfs (fun _ _ _ =>
              mkExecResult None
                (unlines ["NAME USED AVAIL VOLSIZE QUOTA REFER"; "tank 1 2 - - 3"; "";
                          "tank/a 7 8 - - 9"]) "")
       false) "all" ""
  = match Dataset.listByType ToLowerASCII [] "solaris"
            (mkzfs (fun _ _ _ =>
                      mkExecResult None
                        (unlines ["NAME USED AVAIL VOLSIZE QUOTA REFER";
                                  "tank 1 2 - - 3"]) "")
               false) "all" "" with
    | Done (_, None) => Panic
    | r => r
    end.
Proof.
  exact (listByType_blank_row ToLowerASCII [] "solaris"
           (mkzfs (fun _ _ _ =>
                     mkExecResult None
                       (unlines ["NAME USED AVAIL VOLSIZE QUOTA REFER"; "tank 1 2 - - 3";
                                 ""; "tank/a 7 8 - - 9"]) "")
              false)
           (mkzfs (fun _ _ _ =>
                     mkExecResult None
                       (unlines ["NAME USED AVAIL VOLSIZE QUOTA REFER";
                                 "tank 1 2 - - 3"]) "")
              false)
           "all" ""
           ["NAME"; "USED"; "AVAIL"; "VOLSIZE"; "QUOTA"; "REFER"]
           [["tank"; "1"; "2"; "-"; "-"; "3"]] [["tank/a"; "7"; "8"; "-"; "-"; "9"]]
           ltac:(vm_compute; reflexivity) ltac:(vm_compute; reflexivity)).
Defined.
